(** * Demon profiler: the DemonMonitor recorder and its statistics

    A shallow embedding of [constraint_solver/demon_profiler.cc].  The
    C++ class [DemonMonitor] keeps two latches ([active_constraint_],
    [active_demon_]) and three hash maps whose values are pointers to
    protocol-buffer records.  The records are shared: the [DemonRuns]
    created by [ct_run->add_demons()] is reachable from the owning
    [ConstraintRuns], from [demon_map_] and from
    [demons_per_constraint_].  The embedding therefore keeps an explicit
    store of records indexed by address, and every method is a function
    of the monitor state in a small state-and-failure monad. *)

From Stdlib Require Import ZArith Lia Ascii Sorted Permutation.
From Corelib Require Import SpecFloat.
From stdpp Require Import gmap strings list pretty.

Open Scope Z_scope.

(** ** 64-bit signed integers

    [int64] values are integers of [Z]; arithmetic on them wraps around
    modulo [2^64] into the signed range. *)

Definition wrap64 (z : Z) : Z := (z + 2 ^ 63) mod 2 ^ 64 - 2 ^ 63.
Definition add64 (a b : Z) : Z := wrap64 (a + b).
Definition sub64 (a b : Z) : Z := wrap64 (a - b).
Definition in_int64 (z : Z) : Prop := - 2 ^ 63 <= z < 2 ^ 63.

(** The exact sum of a list of integers. *)
Definition sumZ (l : list Z) : Z := foldr Z.add 0 l.

(** ** Pointers

    A [Constraint*] or a [Demon*] is an object identity or [NULL]; an
    identity is a [positive], a pointer is an [option] of it with [None]
    for [NULL].  Records of the store live at addresses. *)

Abbreviation Constraint := positive (only parsing).
Abbreviation Demon := positive (only parsing).
Abbreviation addr := positive (only parsing).

(** The solver's [Constraint] and [Demon] classes are declared in
    [constraint_solveri.h]; the monitor only calls their virtual
    [DebugString]. *)
Class Host := {
  Constraint_DebugString : Constraint -> string;
  Demon_DebugString : Demon -> string
}.

(** A host whose objects all print the same. *)
Definition plain_host : Host :=
  {| Constraint_DebugString := fun _ => "constraint";
     Demon_DebugString := fun _ => "demon" |}.

(** ** Outcomes

    A call returns, or stops the process on a failed [CHECK], or runs
    into undefined behaviour by dereferencing a null or dangling
    pointer.  A floating-point division never traps; the embedding
    still singles out a division by a zero count ([DivisionByZero]), so
    that the absence of such a division can be stated. *)

Inductive outcome (A : Type) : Type :=
  | Ok (a : A)
  | CheckFailed
  | Undefined
  | DivisionByZero.
Arguments Ok {A} a.
Arguments CheckFailed {A}.
Arguments Undefined {A}.
Arguments DivisionByZero {A}.

(** ** Protocol-buffer records *)

Module DemonRuns.
(** Modelled from the spec: the message [DemonRuns] of
    [demon_profiler.pb.h], which is not part of the source; its
    fields are the accessors the source calls. *)
Record t := mk {
  demon_id : string;
  start_time : list Z;
  end_time : list Z;
  failures : Z
}.
Definition default : t := mk "" [] [] 0.
Definition set_demon_id (s : string) (r : t) : t :=
  mk s (start_time r) (end_time r) (failures r).
Definition add_start_time (x : Z) (r : t) : t :=
  mk (demon_id r) (start_time r ++ [x]) (end_time r) (failures r).
Definition add_end_time (x : Z) (r : t) : t :=
  mk (demon_id r) (start_time r) (end_time r ++ [x]) (failures r).
Definition set_failures (x : Z) (r : t) : t :=
  mk (demon_id r) (start_time r) (end_time r) x.
Definition start_time_size (r : t) : nat := length (start_time r).
Definition end_time_size (r : t) : nat := length (end_time r).
End DemonRuns.

Module ConstraintRuns.
(** Modelled from the spec: the message [ConstraintRuns] of
    [demon_profiler.pb.h], which is not part of the source.  The
    repeated field [demons] owns its elements; each element is a
    record of the store, so the field is the list of their
    addresses. *)
Record t := mk {
  constraint_id : string;
  initial_propagation_start_time : Z;
  initial_propagation_end_time : Z;
  failures : Z;
  demons : list addr
}.
Definition default : t := mk "" 0 0 0 [].
Definition set_constraint_id (s : string) (r : t) : t :=
  mk s (initial_propagation_start_time r) (initial_propagation_end_time r)
     (failures r) (demons r).
Definition set_initial_propagation_start_time (x : Z) (r : t) : t :=
  mk (constraint_id r) x (initial_propagation_end_time r)
     (failures r) (demons r).
Definition set_initial_propagation_end_time (x : Z) (r : t) : t :=
  mk (constraint_id r) (initial_propagation_start_time r) x
     (failures r) (demons r).
Definition set_failures (x : Z) (r : t) : t :=
  mk (constraint_id r) (initial_propagation_start_time r)
     (initial_propagation_end_time r) x (demons r).
Definition push_demon (a : addr) (r : t) : t :=
  mk (constraint_id r) (initial_propagation_start_time r)
     (initial_propagation_end_time r) (failures r) (demons r ++ [a]).
Definition demons_size (r : t) : nat := length (demons r).
End ConstraintRuns.

(** ** The monitor *)

Record DemonMonitor := mkMonitor {
  active_constraint_ : option Constraint;
  active_demon_ : option Demon;
  start_time_ : Z;
  constraint_map_ : gmap Constraint (option addr);
  demon_map_ : gmap Demon (option addr);
  demons_per_constraint_ : gmap Constraint (list addr);
  (** the store: the [ConstraintRuns] made by [new], and the
      [DemonRuns] made by [add_demons] *)
  constraint_runs : gmap addr ConstraintRuns.t;
  demon_runs : gmap addr DemonRuns.t
}.

Definition set_active_constraint (x : option Constraint) (m : DemonMonitor) :=
  mkMonitor x (active_demon_ m) (start_time_ m) (constraint_map_ m)
    (demon_map_ m) (demons_per_constraint_ m) (constraint_runs m) (demon_runs m).
Definition set_active_demon (x : option Demon) (m : DemonMonitor) :=
  mkMonitor (active_constraint_ m) x (start_time_ m) (constraint_map_ m)
    (demon_map_ m) (demons_per_constraint_ m) (constraint_runs m) (demon_runs m).
Definition set_constraint_map (x : gmap Constraint (option addr)) (m : DemonMonitor) :=
  mkMonitor (active_constraint_ m) (active_demon_ m) (start_time_ m) x
    (demon_map_ m) (demons_per_constraint_ m) (constraint_runs m) (demon_runs m).
Definition set_demon_map (x : gmap Demon (option addr)) (m : DemonMonitor) :=
  mkMonitor (active_constraint_ m) (active_demon_ m) (start_time_ m)
    (constraint_map_ m) x (demons_per_constraint_ m) (constraint_runs m)
    (demon_runs m).
Definition set_demons_per_constraint (x : gmap Constraint (list addr))
    (m : DemonMonitor) :=
  mkMonitor (active_constraint_ m) (active_demon_ m) (start_time_ m)
    (constraint_map_ m) (demon_map_ m) x (constraint_runs m) (demon_runs m).
Definition set_constraint_runs (x : gmap addr ConstraintRuns.t) (m : DemonMonitor) :=
  mkMonitor (active_constraint_ m) (active_demon_ m) (start_time_ m)
    (constraint_map_ m) (demon_map_ m) (demons_per_constraint_ m) x (demon_runs m).
Definition set_demon_runs (x : gmap addr DemonRuns.t) (m : DemonMonitor) :=
  mkMonitor (active_constraint_ m) (active_demon_ m) (start_time_ m)
    (constraint_map_ m) (demon_map_ m) (demons_per_constraint_ m)
    (constraint_runs m) x.

(** The constructor: both latches null, the maps empty, [start_time_]
    the wall clock read at construction. *)
Definition new_DemonMonitor (wall : Z) : DemonMonitor :=
  mkMonitor None None wall ∅ ∅ ∅ ∅ ∅.

(** ** The monad of methods *)

Definition Op (A : Type) : Type := DemonMonitor -> outcome (A * DemonMonitor).

Definition ret {A} (a : A) : Op A := fun m => Ok (a, m).
Definition bind {A B} (x : Op A) (k : A -> Op B) : Op B :=
  fun m => match x m with
           | Ok (a, m') => k a m'
           | CheckFailed => CheckFailed
           | Undefined => Undefined
           | DivisionByZero => DivisionByZero
           end.
Definition abort {A} : Op A := fun _ => CheckFailed.
Definition undefined {A} : Op A := fun _ => Undefined.
Definition gets {A} (f : DemonMonitor -> A) : Op A := fun m => Ok (f m, m).
Definition modify (f : DemonMonitor -> DemonMonitor) : Op unit :=
  fun m => Ok (tt, f m).

Declare Scope op_scope.
Delimit Scope op_scope with op.
Notation "'let*' x := e 'in' k" := (bind e (fun x => k))
  (at level 10, x pattern, e at level 100, k at level 200) : op_scope.
Notation "e ;;; k" := (bind e (fun _ => k))
  (at level 100, k at level 200, right associativity) : op_scope.
Bind Scope op_scope with Op.
Local Open Scope op_scope.

(** [CHECK(cond)], [CHECK_EQ], [CHECK_NOTNULL(p)] (which yields the
    pointee's identity). *)
Definition CHECK (b : bool) : Op unit := if b then ret tt else abort.
Definition CHECK_NOTNULL {A} (p : option A) : Op A :=
  match p with Some a => ret a | None => abort end.

(** [map[key]] of a hash map of pointers: a missing key is inserted
    with a null pointer, which is the value read. *)
Definition constraint_map_at (c : Constraint) : Op (option addr) :=
  fun m => match constraint_map_ m !! c with
           | Some p => Ok (p, m)
           | None => Ok (None, set_constraint_map (<[c := None]> (constraint_map_ m)) m)
           end.
Definition demon_map_at (d : Demon) : Op (option addr) :=
  fun m => match demon_map_ m !! d with
           | Some p => Ok (p, m)
           | None => Ok (None, set_demon_map (<[d := None]> (demon_map_ m)) m)
           end.
(** [demons_per_constraint_[key]]: a missing key is inserted with an
    empty vector. *)
Definition demons_per_constraint_at (c : Constraint) : Op (list addr) :=
  fun m => match demons_per_constraint_ m !! c with
           | Some v => Ok (v, m)
           | None => Ok ([], set_demons_per_constraint
                               (<[c := []]> (demons_per_constraint_ m)) m)
           end.

(** Reading and writing through a record pointer; a null pointer or an
    address that holds no record is undefined behaviour. *)
Definition read_ct (p : option addr) : Op ConstraintRuns.t :=
  fun m => match p with
           | Some a => match constraint_runs m !! a with
                       | Some r => Ok (r, m)
                       | None => Undefined
                       end
           | None => Undefined
           end.
Definition update_ct (p : option addr) (f : ConstraintRuns.t -> ConstraintRuns.t)
    : Op unit :=
  let* r := read_ct p in
  match p with
  | Some a => modify (fun m => set_constraint_runs (<[a := f r]> (constraint_runs m)) m)
  | None => undefined
  end.
Definition read_dr (p : option addr) : Op DemonRuns.t :=
  fun m => match p with
           | Some a => match demon_runs m !! a with
                       | Some r => Ok (r, m)
                       | None => Undefined
                       end
           | None => Undefined
           end.
Definition update_dr (p : option addr) (f : DemonRuns.t -> DemonRuns.t) : Op unit :=
  let* r := read_dr p in
  match p with
  | Some a => modify (fun m => set_demon_runs (<[a := f r]> (demon_runs m)) m)
  | None => undefined
  end.

(** [new ConstraintRuns]: a record with the default field values at an
    address not in use. *)
Definition new_ConstraintRuns : Op addr :=
  fun m => let a := fresh (dom (constraint_runs m)) in
           Ok (a, set_constraint_runs (<[a := ConstraintRuns.default]> (constraint_runs m)) m).
(** [ct_run->add_demons()]: a default [DemonRuns] appended to the
    repeated field of [ct_run]; the result points to the new element. *)
Definition add_demons (p : option addr) : Op addr :=
  let* _ := read_ct p in
  let* a := (fun m => let a := fresh (dom (demon_runs m)) in
                      Ok (a, set_demon_runs (<[a := DemonRuns.default]> (demon_runs m)) m)) in
  update_ct p (ConstraintRuns.push_demon a) ;;;
  ret a.

(** [CurrentTime()]: the wall clock, read by the caller, minus
    [start_time_]. *)
Definition current_time (m : DemonMonitor) (wall : Z) : Z :=
  sub64 wall (start_time_ m).
Definition CurrentTime (wall : Z) : Op Z :=
  gets (fun m => current_time m wall).

(** ** The methods of [DemonMonitor] *)

Section Methods.
Context `{host : Host}.

Definition StartInitialPropagation (constraint : option Constraint) (wall : Z)
    : Op unit :=
  let* ac := gets active_constraint_ in
  CHECK (bool_decide (ac = None)) ;;;
  let* ad := gets active_demon_ in
  CHECK (bool_decide (ad = None)) ;;;
  let* c := CHECK_NOTNULL constraint in
  let* ct_run := new_ConstraintRuns in
  update_ct (Some ct_run)
    (ConstraintRuns.set_constraint_id (Constraint_DebugString c)) ;;;
  let* now := CurrentTime wall in
  update_ct (Some ct_run)
    (ConstraintRuns.set_initial_propagation_start_time now) ;;;
  modify (set_active_constraint (Some c)) ;;;
  modify (fun m => set_constraint_map (<[c := Some ct_run]> (constraint_map_ m)) m).

Definition EndInitialPropagation (constraint : option Constraint) (wall : Z)
    : Op unit :=
  let* ac := gets active_constraint_ in
  CHECK_NOTNULL ac ;;;
  let* ad := gets active_demon_ in
  CHECK (bool_decide (ad = None)) ;;;
  let* c := CHECK_NOTNULL constraint in
  CHECK (bool_decide (constraint = ac)) ;;;
  let* ct_run := constraint_map_at c in
  CHECK_NOTNULL ct_run ;;;
  let* now := CurrentTime wall in
  update_ct ct_run (ConstraintRuns.set_initial_propagation_end_time now) ;;;
  update_ct ct_run (ConstraintRuns.set_failures 0) ;;;
  modify (set_active_constraint None).

(** [demon_map_.find(demon) == demon_map_.end()]: a null pointer is
    never a key, only identities are. *)
Definition demon_map_find (demon : option Demon) (m : DemonMonitor) : bool :=
  match demon with
  | Some d => bool_decide (is_Some (demon_map_ m !! d))
  | None => false
  end.

Definition RegisterDemon (demon : option Demon) : Op unit :=
  let* found := gets (demon_map_find demon) in
  if found then ret tt
  else
    let* ac := gets active_constraint_ in
    let* c := CHECK_NOTNULL ac in
    let* ad := gets active_demon_ in
    CHECK (bool_decide (ad = None)) ;;;
    let* d := CHECK_NOTNULL demon in
    let* ct_run := constraint_map_at c in
    let* demon_run := add_demons ct_run in
    update_dr (Some demon_run) (DemonRuns.set_demon_id (Demon_DebugString d)) ;;;
    update_dr (Some demon_run) (DemonRuns.set_failures 0) ;;;
    modify (fun m => set_demon_map (<[d := Some demon_run]> (demon_map_ m)) m) ;;;
    let* v := demons_per_constraint_at c in
    modify (fun m => set_demons_per_constraint
                       (<[c := v ++ [demon_run]]> (demons_per_constraint_ m)) m).

Definition StartDemonRun (demon : option Demon) (wall : Z) : Op unit :=
  let* ad := gets active_demon_ in
  CHECK (bool_decide (ad = None)) ;;;
  let* d := CHECK_NOTNULL demon in
  modify (set_active_demon (Some d)) ;;;
  let* demon_run := demon_map_at d in
  let* now := CurrentTime wall in
  update_dr demon_run (DemonRuns.add_start_time now).

Definition EndDemonRun (demon : option Demon) (wall : Z) : Op unit :=
  let* ad := gets active_demon_ in
  CHECK (bool_decide (ad = demon)) ;;;
  let* d := CHECK_NOTNULL demon in
  let* demon_run := demon_map_at d in
  CHECK_NOTNULL demon_run ;;;
  let* now := CurrentTime wall in
  update_dr demon_run (DemonRuns.add_end_time now) ;;;
  modify (set_active_demon None).

Definition RaiseFailure (wall : Z) : Op unit :=
  let* ac := gets active_constraint_ in
  match ac with
  | Some c =>
      let* ad := gets active_demon_ in
      CHECK_NOTNULL ad ;;;
      let* ct_run := constraint_map_at c in
      CHECK_NOTNULL ct_run ;;;
      let* now := CurrentTime wall in
      update_ct ct_run (ConstraintRuns.set_initial_propagation_end_time now) ;;;
      update_ct ct_run (ConstraintRuns.set_failures 1) ;;;
      modify (set_active_constraint None)
  | None =>
      let* ad := gets active_demon_ in
      match ad with
      | Some d =>
          let* demon_run := demon_map_at d in
          let* now := CurrentTime wall in
          update_dr demon_run (DemonRuns.add_end_time now) ;;;
          let* r := read_dr demon_run in
          update_dr demon_run
            (DemonRuns.set_failures (add64 (DemonRuns.failures r) 1)) ;;;
          modify (set_active_demon None)
      | None => ret tt
      end
  end.

Definition AddFakeRun (demon : option Demon) (start_time end_time : Z)
    (is_fail : bool) : Op unit :=
  let* d := CHECK_NOTNULL demon in
  let* demon_run := demon_map_at d in
  CHECK_NOTNULL demon_run ;;;
  update_dr demon_run (DemonRuns.add_start_time start_time) ;;;
  update_dr demon_run (DemonRuns.add_end_time end_time) ;;;
  if is_fail then
    let* r := read_dr demon_run in
    update_dr demon_run (DemonRuns.set_failures (add64 (DemonRuns.failures r) 1))
  else ret tt.

(** [delete] of a [ConstraintRuns]: the record and the elements of
    its repeated field leave the store; [delete] of a null pointer
    does nothing (nor does the model touch an address that holds no
    record). *)
Definition delete_ConstraintRuns (p : option addr) (m : DemonMonitor)
    : DemonMonitor :=
  match p with
  | Some a =>
      match constraint_runs m !! a with
      | Some r =>
          set_demon_runs (foldr delete (demon_runs m) (ConstraintRuns.demons r))
            (set_constraint_runs (delete a (constraint_runs m)) m)
      | None => m
      end
  | None => m
  end.

(** [STLDeleteContainerPairSecondPointers] over [constraint_map_]. *)
Definition STLDeleteContainerPairSecondPointers (m : DemonMonitor) : DemonMonitor :=
  foldr (fun kv acc => delete_ConstraintRuns (snd kv) acc) m
        (map_to_list (constraint_map_ m)).

Definition RestartSearch : Op unit :=
  modify STLDeleteContainerPairSecondPointers ;;;
  modify (set_constraint_map ∅) ;;;
  modify (set_demon_map ∅) ;;;
  modify (set_demons_per_constraint ∅).

End Methods.

(** ** Floating point

    A [double] is an IEEE 754 binary64 number, given by the kernel's
    specification of floating-point arithmetic ([prec = 53],
    [emax = 1024], rounding to nearest even); [long double] is the
    64-bit-mantissa extended format ([prec = 64], [emax = 16384]). *)

Abbreviation double := spec_float (only parsing).

Definition double_of_Z (z : Z) : double := binary_normalize 53 1024 z 0 false.
Definition long_double_of_Z (z : Z) : spec_float :=
  binary_normalize 64 16384 z 0 false.
Definition double_of_long_double (x : spec_float) : double :=
  match x with
  | S754_finite s m e => binary_round 53 1024 s m e
  | _ => x
  end.
Definition fadd : double -> double -> double := SFadd 53 1024.
Definition fsub : double -> double -> double := SFsub 53 1024.
Definition fmul : double -> double -> double := SFmul 53 1024.
Definition fdiv : double -> double -> double := SFdiv 53 1024.
Definition fsqrt : double -> double := SFsqrt 53 1024.
Definition flt : double -> double -> bool := SFltb.
Definition fzero : double := S754_zero false.

(** [std::sort] on a [vector<double>] with [operator<]: the result is
    the ascending arrangement of the elements, here obtained by
    insertion. *)
Fixpoint insert (x : double) (l : list double) : list double :=
  match l with
  | [] => [x]
  | y :: l' => if flt x y then x :: y :: l' else y :: insert x l'
  end.
Definition sort (l : list double) : list double := foldr insert [] l.

(** The order [std::sort] establishes: [fle x y] when [y < x] does not
    hold.  On numbers (everything but NaN) it is a total preorder. *)
Definition not_nan (x : double) : Prop := x <> S754_nan.
Definition fle (x y : double) : Prop := flt y x = false.

(** [v[i]] of a vector, undefined outside its bounds. *)
Definition vector_at {A} (v : list A) (i : nat) : Op A :=
  match v !! i with
  | Some x => ret x
  | None => undefined
  end.

(** A loop over the elements of a sequence that carries the variables
    it updates. *)
Fixpoint for_each {A S} (l : list A) (body : A -> S -> Op S) (s : S) : Op S :=
  match l with
  | [] => ret s
  | x :: l' => let* s' := body x s in for_each l' body s'
  end.

(** The run times of a record, [end_time(i) - start_time(i)] for
    [i] below the common size of the two sequences. *)
Definition demon_times (r : DemonRuns.t) : list Z :=
  zip_with sub64 (DemonRuns.end_time r) (DemonRuns.start_time r).

Module DemonExport.
(** The values [ExportInformation(DemonRuns*, ...)] stores through
    its output parameters. *)
Record t := mk {
  demon_invocations : Z;
  fails : Z;
  total_demon_runtime : Z;
  mean_demon_runtime : double;
  median_demon_runtime : double;
  stddev_demon_runtime : double
}.
End DemonExport.

Module ConstraintExport.
(** The values [ExportInformation(Constraint*, ...)] stores through
    its output parameters. *)
Record t := mk {
  fails : Z;
  initial_propagation_runtime : Z;
  demon_invocations : Z;
  total_demon_runtime : Z;
  demons : nat
}.
End ConstraintExport.

(** Division by the number of runs, and the mean
    [(1.0L * total) / size] computed in [long double]. *)
Definition div_by_size (x : double) (size : nat) : Op double :=
  match size with
  | O => fun _ => DivisionByZero
  | S _ => ret (fdiv x (double_of_Z (Z.of_nat size)))
  end.
Definition mean_of (total : Z) (size : nat) : Op double :=
  match size with
  | O => fun _ => DivisionByZero
  | S _ => ret (double_of_long_double
                  (SFdiv 64 16384 (SFmul 64 16384 (long_double_of_Z 1)
                                                   (long_double_of_Z total))
                                  (long_double_of_Z (Z.of_nat size))))
  end.

Definition median_of (runtimes : list double) : Op double :=
  let pivot := (length runtimes / 2)%nat in
  if bool_decide (length runtimes = 1%nat) then vector_at runtimes 0
  else if bool_decide ((length runtimes mod 2)%nat = 1%nat)
       then vector_at runtimes pivot
       else let* a := vector_at runtimes (pivot - 1) in
            let* b := vector_at runtimes pivot in
            ret (fdiv (fadd a b) (double_of_Z 2)).

(** [pow(x, 2)], the rounded square. *)
Definition pow2 (x : double) : double := fmul x x.

Definition ExportInformation_demon (demon_runs : option addr) : Op DemonExport.t :=
  CHECK_NOTNULL demon_runs ;;;
  let* r := read_dr demon_runs in
  CHECK (bool_decide (DemonRuns.start_time_size r = DemonRuns.end_time_size r)) ;;;
  let runs := DemonRuns.start_time_size r in
  let total := foldl add64 0 (demon_times r) in
  let runtimes := map double_of_Z (demon_times r) in
  match length runtimes with
  | O => ret (DemonExport.mk (Z.of_nat runs) (DemonRuns.failures r) total
                fzero fzero fzero)
  | S _ =>
      let* mean := mean_of total (length runtimes) in
      let runtimes := sort runtimes in
      let* median := median_of runtimes in
      let total_deviation :=
        foldl (fun acc x => fadd acc (pow2 (fsub x mean))) fzero runtimes in
      let* variance := div_by_size total_deviation (length runtimes) in
      ret (DemonExport.mk (Z.of_nat runs) (DemonRuns.failures r) total
             mean median (fsqrt variance))
  end.

(** The body of the loop over the demons of a constraint; it carries
    [*fails], [*demon_invocations] and [*total_demon_runtime]. *)
Definition gather_information (a : addr) (acc : Z * Z * Z)
    : Op (Z * Z * Z) :=
  let '(fails, demon_invocations, total_demon_runtime) := acc in
  let* demon_runs := read_dr (Some a) in
  let fails := add64 fails (DemonRuns.failures demon_runs) in
  CHECK (bool_decide (DemonRuns.start_time_size demon_runs
                      = DemonRuns.end_time_size demon_runs)) ;;;
  let runs := DemonRuns.start_time_size demon_runs in
  ret (fails,
       add64 demon_invocations (Z.of_nat runs),
       foldl add64 total_demon_runtime (demon_times demon_runs)).

Definition ExportInformation (constraint : option Constraint)
    : Op ConstraintExport.t :=
  let* c := CHECK_NOTNULL constraint in
  let* ct_run := constraint_map_at c in
  CHECK_NOTNULL ct_run ;;;
  let* ct := read_ct ct_run in
  let fails := ConstraintRuns.failures ct in
  let initial_propagation_runtime :=
    sub64 (ConstraintRuns.initial_propagation_end_time ct)
          (ConstraintRuns.initial_propagation_start_time ct) in
  let demons := ConstraintRuns.demons_size ct in
  let* per_constraint := demons_per_constraint_at c in
  CHECK (bool_decide (demons = length per_constraint)) ;;;
  let* (fails, demon_invocations, total_demon_runtime) :=
    for_each (ConstraintRuns.demons ct) gather_information (fails, 0, 0) in
  ret (ConstraintExport.mk fails initial_propagation_runtime demon_invocations
         total_demon_runtime demons).

(** The vector [runtimes] of [ExportInformation(DemonRuns*, ...)] after
    [std::sort]. *)
Definition sorted_runtimes (r : DemonRuns.t) : list double :=
  sort (map double_of_Z (demon_times r)).

(** The exact quantities the summary of a constraint is about: the
    differences and sums as integers, before any wrap-around. *)
Definition exact_times (r : DemonRuns.t) : list Z :=
  zip_with Z.sub (DemonRuns.end_time r) (DemonRuns.start_time r).
Definition exact_runtime (r : DemonRuns.t) : Z := sumZ (exact_times r).
Definition invocations (r : DemonRuns.t) : Z :=
  Z.of_nat (DemonRuns.start_time_size r).

(** No sum the summary of a constraint forms leaves the [int64] range. *)
Definition no_overflow (ct : ConstraintRuns.t) (rs : list DemonRuns.t) : Prop :=
  in_int64 (ConstraintRuns.failures ct)
  /\ in_int64 (ConstraintRuns.failures ct + sumZ (map DemonRuns.failures rs))
  /\ in_int64 (ConstraintRuns.initial_propagation_end_time ct
               - ConstraintRuns.initial_propagation_start_time ct)
  /\ in_int64 (sumZ (map invocations rs))
  /\ in_int64 (sumZ (map exact_runtime rs)).

(** ** The overview *)

(** The conversions of [StringPrintf] the two formats use: [%lld],
    [%d], and [%.2lf], which prints the exact value rounded to two
    decimals, ties to even. *)
Definition printf_lld (z : Z) : string := pretty z.
Definition printf_d (n : nat) : string := pretty n.
Definition round_to_cents (m : positive) (e : Z) : Z :=
  if 0 <=? e then Z.pos m * 2 ^ e * 100
  else
    let q := (Z.pos m * 100) / 2 ^ (- e) in
    let r := (Z.pos m * 100) mod 2 ^ (- e) in
    match 2 * r ?= 2 ^ (- e) with
    | Lt => q
    | Gt => q + 1
    | Eq => if Z.even q then q else q + 1
    end.
Definition printf_2lf (x : double) : string :=
  match x with
  | S754_nan => "nan"
  | S754_infinity s => if s then "-inf" else "inf"
  | S754_zero s => if s then "-0.00" else "0.00"
  | S754_finite s m e =>
      let cents := round_to_cents m e in
      (if s then "-" else "") +:+ pretty (cents / 100) +:+ "."
      +:+ (if cents mod 100 <? 10 then "0" else "") +:+ pretty (cents mod 100)
  end.

Definition newline : string := String "010"%char EmptyString.

Definition kConstraintFormat (id : string) (fails runtime : Z) (demons : nat)
    (invocations total : Z) : string :=
  "  - Constraint: " +:+ id +:+ newline
  +:+ "                failures=" +:+ printf_lld fails
  +:+ ", initial propagation runtime=" +:+ printf_lld runtime
  +:+ " us, demons=" +:+ printf_d demons
  +:+ ", demon invocations=" +:+ printf_lld invocations
  +:+ ", total demon runtime=" +:+ printf_lld total +:+ " us" +:+ newline.

Definition kDemonFormat (id : string) (invocations fails runtime : Z)
    (mean median stddev : double) : string :=
  "    - Demon: " +:+ id +:+ newline
  +:+ "             invocations=" +:+ printf_lld invocations
  +:+ ", failures=" +:+ printf_lld fails
  +:+ ", total runtime=" +:+ printf_lld runtime
  +:+ " us, [average=" +:+ printf_2lf mean
  +:+ ", median=" +:+ printf_2lf median
  +:+ ", stddev=" +:+ printf_2lf stddev +:+ "]" +:+ newline.

(** What [PrintOverview] leaves behind: the text written to the file,
    or the message logged when the file cannot be opened. *)
Inductive Overview :=
  | Written (file : string)
  | Logged (message : string).

Section Overview.
Context `{host : Host}.

(** [is_open] tells whether the output stream could be opened.  The
    constraints come in the order of the hash map, which the map
    enumeration stands for. *)
Definition PrintOverview (filename : string) (is_open : bool) : Op Overview :=
  if negb is_open
  then ret (Logged ("Failed to gain write access to file: " +:+ filename))
  else
    let* entries := gets (fun m => map_to_list (constraint_map_ m)) in
    let* file :=
      for_each entries
        (fun it file =>
           let* info := ExportInformation (Some (fst it)) in
           let constraint_message :=
             kConstraintFormat (Constraint_DebugString (fst it))
               (ConstraintExport.fails info)
               (ConstraintExport.initial_propagation_runtime info)
               (ConstraintExport.demons info)
               (ConstraintExport.demon_invocations info)
               (ConstraintExport.total_demon_runtime info) in
           let file := file +:+ constraint_message in
           let* demons := demons_per_constraint_at (fst it) in
           for_each demons
             (fun demon_runs file =>
                let* info := ExportInformation_demon (Some demon_runs) in
                let* r := read_dr (Some demon_runs) in
                let runs :=
                  kDemonFormat (DemonRuns.demon_id r)
                    (DemonExport.demon_invocations info)
                    (DemonExport.fails info)
                    (DemonExport.total_demon_runtime info)
                    (DemonExport.mean_demon_runtime info)
                    (DemonExport.median_demon_runtime info)
                    (DemonExport.stddev_demon_runtime info) in
                ret (file +:+ runs))
             file)
        EmptyString in
    ret (Written file).

End Overview.

(** ** Calls and reachable states *)

Inductive Call :=
  | CallStartInitialPropagation (constraint : option Constraint) (wall : Z)
  | CallEndInitialPropagation (constraint : option Constraint) (wall : Z)
  | CallRegisterDemon (demon : option Demon)
  | CallStartDemonRun (demon : option Demon) (wall : Z)
  | CallEndDemonRun (demon : option Demon) (wall : Z)
  | CallRaiseFailure (wall : Z)
  | CallAddFakeRun (demon : option Demon) (start_time end_time : Z) (is_fail : bool)
  | CallRestartSearch
  | CallExportInformation (constraint : option Constraint)
  | CallPrintOverview (filename : string) (is_open : bool).

Section Calls.
Context `{host : Host}.

Definition call (c : Call) : Op unit :=
  match c with
  | CallStartInitialPropagation constraint wall =>
      StartInitialPropagation constraint wall
  | CallEndInitialPropagation constraint wall =>
      EndInitialPropagation constraint wall
  | CallRegisterDemon demon => RegisterDemon demon
  | CallStartDemonRun demon wall => StartDemonRun demon wall
  | CallEndDemonRun demon wall => EndDemonRun demon wall
  | CallRaiseFailure wall => RaiseFailure wall
  | CallAddFakeRun demon s e f => AddFakeRun demon s e f
  | CallRestartSearch => RestartSearch
  | CallExportInformation constraint => ExportInformation constraint ;;; ret tt
  | CallPrintOverview filename is_open => PrintOverview filename is_open ;;; ret tt
  end.

Fixpoint run (cs : list Call) : Op unit :=
  match cs with
  | [] => ret tt
  | c :: cs' => call c ;;; run cs'
  end.

(** The states a monitor can be in: those a sequence of calls that
    all return leads to from a new monitor. *)
Definition reachable (m : DemonMonitor) : Prop :=
  exists wall cs, run cs (new_DemonMonitor wall) = Ok (tt, m).

End Calls.

(** ** Sample sessions

    States of a monitor of [plain_host] after a sequence of calls, for
    use as concrete inputs. *)

Definition after_calls (cs : list Call) (wall : Z) : DemonMonitor :=
  match run (host := plain_host) cs (new_DemonMonitor wall) with
  | Ok (_, m) => m
  | _ => new_DemonMonitor wall
  end.

(** A constraint is in its initial propagation, no demon runs. *)
Definition constraint_open : DemonMonitor :=
  Eval vm_compute in
  after_calls [CallStartInitialPropagation (Some 1%positive) 100] 0.

(** A demon was registered while its constraint is in its initial
    propagation. *)
Definition registered_open : DemonMonitor :=
  Eval vm_compute in
  after_calls [CallStartInitialPropagation (Some 1%positive) 100;
               CallRegisterDemon (Some 2%positive)] 0.

(** A demon was registered and runs while its constraint is still in
    its initial propagation. *)
Definition both_open : DemonMonitor :=
  Eval vm_compute in
  after_calls [CallStartInitialPropagation (Some 1%positive) 100;
               CallRegisterDemon (Some 2%positive);
               CallStartDemonRun (Some 2%positive) 105] 0.

(** The initial propagation has ended and the registered demon runs. *)
Definition demon_open : DemonMonitor :=
  Eval vm_compute in
  after_calls [CallStartInitialPropagation (Some 1%positive) 100;
               CallRegisterDemon (Some 2%positive);
               CallEndInitialPropagation (Some 1%positive) 110;
               CallStartDemonRun (Some 2%positive) 120] 0.

(** A finished session: one constraint, one demon with the run times
    5 and 15. *)
Definition session_done : DemonMonitor :=
  Eval vm_compute in
  after_calls [CallStartInitialPropagation (Some 1%positive) 100;
               CallRegisterDemon (Some 2%positive);
               CallEndInitialPropagation (Some 1%positive) 110;
               CallAddFakeRun (Some 2%positive) 200 205 false;
               CallAddFakeRun (Some 2%positive) 300 315 true] 0.

(** A demon with three runs of 10, 20 and 30 microseconds. *)
Definition three_runs : DemonMonitor :=
  Eval vm_compute in
  after_calls [CallStartInitialPropagation (Some 1%positive) 100;
               CallRegisterDemon (Some 2%positive);
               CallEndInitialPropagation (Some 1%positive) 110;
               CallAddFakeRun (Some 2%positive) 200 210 false;
               CallAddFakeRun (Some 2%positive) 300 320 false;
               CallAddFakeRun (Some 2%positive) 400 430 false] 0.

(** A demon registered and run to its end within the initial
    propagation of its constraint. *)
Definition run_within_propagation : DemonMonitor :=
  Eval vm_compute in
  after_calls [CallStartInitialPropagation (Some 1%positive) 100;
               CallRegisterDemon (Some 2%positive);
               CallStartDemonRun (Some 2%positive) 102;
               CallEndDemonRun (Some 2%positive) 105;
               CallEndInitialPropagation (Some 1%positive) 110] 0.

(** The initial propagation of a constraint that owns a demon was begun
    and ended a second time. *)
Definition propagated_twice : DemonMonitor :=
  Eval vm_compute in
  after_calls [CallStartInitialPropagation (Some 1%positive) 100;
               CallRegisterDemon (Some 2%positive);
               CallEndInitialPropagation (Some 1%positive) 110;
               CallStartInitialPropagation (Some 1%positive) 120;
               CallEndInitialPropagation (Some 1%positive) 130] 0.

(** Unfolds the plumbing of the monad, so that a method applied to a
    state becomes a cascade of matches on the state's fields. *)
Ltac unfold_op :=
  repeat (progress (unfold bind, gets, modify, ret, abort, undefined, CHECK,
                      CHECK_NOTNULL, constraint_map_at, demon_map_at,
                      demons_per_constraint_at, update_ct, update_dr,
                      read_ct, read_dr, CurrentTime in *; simpl in *)).

(** ** The profiler of a demon *)

Module DemonProfiler.
(** A [DemonProfiler] holds the demon it wraps; its [monitor_] is the
    monitor the methods act on. *)
Record t := mk {
  demon_ : option Demon
}.
End DemonProfiler.

(** The constructor, with its check of the demon. *)
Definition new_DemonProfiler (demon : option Demon) : Op DemonProfiler.t :=
  CHECK_NOTNULL demon ;;;
  ret (DemonProfiler.mk demon).

(** [DemonProfiler::Run]: [demon_Run] is what the wrapped demon's own
    [Run] does to the monitor; [wall_start] and [wall_end] are the wall
    clock at the two calls of the monitor. *)
Definition DemonProfiler_Run (p : DemonProfiler.t) (demon_Run : Op unit)
    (wall_start wall_end : Z) : Op unit :=
  StartDemonRun (DemonProfiler.demon_ p) wall_start ;;;
  demon_Run ;;;
  EndDemonRun (DemonProfiler.demon_ p) wall_end.

Section Build.
Context `{host : Host}.

(** [BuildDemonProfiler]: the demon is registered, then wrapped; the
    result is the profiler the function hands to [RevAlloc]. *)
Definition BuildDemonProfiler (demon : option Demon) : Op DemonProfiler.t :=
  RegisterDemon demon ;;;
  new_DemonProfiler demon.

End Build.

(** ** More sample sessions *)

(** [RestartSearch] within the initial propagation of a constraint. *)
Definition constraint_open_restarted : DemonMonitor :=
  Eval vm_compute in
  after_calls [CallStartInitialPropagation (Some 1%positive) 100;
               CallRestartSearch] 0.

(** [RestartSearch] within the run of a demon that runs within the
    initial propagation of its constraint. *)
Definition both_open_restarted : DemonMonitor :=
  Eval vm_compute in
  after_calls [CallStartInitialPropagation (Some 1%positive) 100;
               CallRegisterDemon (Some 2%positive);
               CallStartDemonRun (Some 2%positive) 105;
               CallRestartSearch] 0.

(** [RestartSearch] within the run of a demon. *)
Definition demon_open_restarted : DemonMonitor :=
  Eval vm_compute in
  after_calls [CallStartInitialPropagation (Some 1%positive) 100;
               CallRegisterDemon (Some 2%positive);
               CallEndInitialPropagation (Some 1%positive) 110;
               CallStartDemonRun (Some 2%positive) 120;
               CallRestartSearch] 0.

(** The demon of [session_done] has been started again. *)
Definition session_running : DemonMonitor :=
  Eval vm_compute in
  after_calls [CallStartInitialPropagation (Some 1%positive) 100;
               CallRegisterDemon (Some 2%positive);
               CallEndInitialPropagation (Some 1%positive) 110;
               CallAddFakeRun (Some 2%positive) 200 205 false;
               CallAddFakeRun (Some 2%positive) 300 315 true;
               CallStartDemonRun (Some 2%positive) 400] 0.

(** The initial propagation of the constraint of [session_done] has
    been begun again. *)
Definition session_repropagating : DemonMonitor :=
  Eval vm_compute in
  after_calls [CallStartInitialPropagation (Some 1%positive) 100;
               CallRegisterDemon (Some 2%positive);
               CallEndInitialPropagation (Some 1%positive) 110;
               CallAddFakeRun (Some 2%positive) 200 205 false;
               CallAddFakeRun (Some 2%positive) 300 315 true;
               CallStartInitialPropagation (Some 1%positive) 400] 0.

(** It has been ended as well, another demon having been registered
    meanwhile. *)
Definition session_repropagated : DemonMonitor :=
  Eval vm_compute in
  after_calls [CallStartInitialPropagation (Some 1%positive) 100;
               CallRegisterDemon (Some 2%positive);
               CallEndInitialPropagation (Some 1%positive) 110;
               CallAddFakeRun (Some 2%positive) 200 205 false;
               CallAddFakeRun (Some 2%positive) 300 315 true;
               CallStartInitialPropagation (Some 1%positive) 400;
               CallRegisterDemon (Some 3%positive);
               CallEndInitialPropagation (Some 1%positive) 410] 0.

(** ** The invariant of the monitor *)

(** The record of demon [d] has as many start as end times, and one
    start time more while [d] is the active demon. *)
Definition balanced (m : DemonMonitor) (d : Demon) (r : DemonRuns.t) : Prop :=
  length (DemonRuns.start_time r)
  = if bool_decide (active_demon_ m = Some d)
    then S (length (DemonRuns.end_time r))
    else length (DemonRuns.end_time r).

(** What the maps and the store of a monitor have to do with each
    other: the maps hold no null and no dangling pointer, no record is
    shared, and the demons a constraint's record lists are the last
    entries of [demons_per_constraint_] for the constraint. *)
Record consistent (m : DemonMonitor) : Prop := mk_consistent {
  demon_record :
    forall d p, demon_map_ m !! d = Some p ->
      exists q r, p = Some q /\ demon_runs m !! q = Some r /\ balanced m d r;
  demon_record_own :
    forall d d' q, demon_map_ m !! d = Some (Some q) ->
                   demon_map_ m !! d' = Some (Some q) -> d = d';
  constraint_record :
    forall c p, constraint_map_ m !! c = Some p ->
      exists a ct, p = Some a /\ constraint_runs m !! a = Some ct;
  constraint_record_own :
    forall c c' a, constraint_map_ m !! c = Some (Some a) ->
                   constraint_map_ m !! c' = Some (Some a) -> c = c';
  owned_demons :
    forall c a ct q, constraint_map_ m !! c = Some (Some a) ->
                     constraint_runs m !! a = Some ct ->
                     q ∈ ConstraintRuns.demons ct ->
                     is_Some (demon_runs m !! q);
  listed_demons :
    forall c v q, demons_per_constraint_ m !! c = Some v -> q ∈ v ->
                  is_Some (demon_runs m !! q);
  owned_listed :
    forall c a ct, constraint_map_ m !! c = Some (Some a) ->
                   constraint_runs m !! a = Some ct ->
                   exists older,
                     default [] (demons_per_constraint_ m !! c)
                     = older ++ ConstraintRuns.demons ct
}.

(** The active constraint and the active demon are keys of their
    maps. *)
Definition latched_records (m : DemonMonitor) : Prop :=
  (forall c, active_constraint_ m = Some c -> is_Some (constraint_map_ m !! c))
  /\ (forall d, active_demon_ m = Some d -> is_Some (demon_map_ m !! d)).

(** A constraint, resp. a demon, that is active without an entry in
    its map: the state [RestartSearch] leaves when called in a phase. *)
Definition constraint_wedged (m : DemonMonitor) (c : Constraint) : Prop :=
  active_constraint_ m = Some c /\ constraint_map_ m !! c = None.
Definition demon_wedged (m : DemonMonitor) (d : Demon) : Prop :=
  active_demon_ m = Some d /\ demon_map_ m !! d = None.

(** The record of a constraint lists fewer demons than
    [demons_per_constraint_] holds for it. *)
Definition stale (m : DemonMonitor) (c : Constraint) : Prop :=
  exists a ct,
    constraint_map_ m !! c = Some (Some a)
    /\ constraint_runs m !! a = Some ct
    /\ (length (ConstraintRuns.demons ct)
        < length (default [] (demons_per_constraint_ m !! c)))%nat.

(** The record at [q] is allocated and has as many start as end times. *)
Definition finished (m : DemonMonitor) (q : addr) : Prop :=
  exists r, demon_runs m !! q = Some r
            /\ length (DemonRuns.start_time r) = length (DemonRuns.end_time r).

(** What [ExportInformation] of a constraint checks on its way. *)
Definition exportable (m : DemonMonitor) (c : Constraint) : Prop :=
  exists a ct,
    constraint_map_ m !! c = Some (Some a)
    /\ constraint_runs m !! a = Some ct
    /\ length (ConstraintRuns.demons ct)
       = length (default [] (demons_per_constraint_ m !! c))
    /\ Forall (finished m) (ConstraintRuns.demons ct).

(** ** The end of a monitor *)

(** [~DemonMonitor], which [DeleteDemonMonitor] runs on a monitor: the
    records that [constraint_map_] points to are deleted; the result is
    what stays allocated. *)
Definition delete_DemonMonitor (m : DemonMonitor)
    : gmap addr ConstraintRuns.t * gmap addr DemonRuns.t :=
  let m' := STLDeleteContainerPairSecondPointers m in
  (constraint_runs m', demon_runs m').

(** Every record of the store is held by the maps. *)
Definition tight (m : DemonMonitor) : Prop :=
  (forall a, is_Some (constraint_runs m !! a) ->
             exists c, constraint_map_ m !! c = Some (Some a))
  /\ (forall q, is_Some (demon_runs m !! q) ->
                exists c a ct,
                  constraint_map_ m !! c = Some (Some a)
                  /\ constraint_runs m !! a = Some ct
                  /\ q ∈ ConstraintRuns.demons ct).

(** A record that no constraint is mapped to. *)
Definition orphan (m : DemonMonitor) (a : addr) (ct : ConstraintRuns.t) : Prop :=
  constraint_runs m !! a = Some ct
  /\ forall c, constraint_map_ m !! c <> Some (Some a).

(** The call is not the begin of the initial propagation of a
    constraint that [constraint_map_] holds already. *)
Definition begins_anew (cl : Call) (m : DemonMonitor) : bool :=
  match cl with
  | CallStartInitialPropagation (Some c) _ =>
      bool_decide (constraint_map_ m !! c = None)
  | _ => true
  end.

Section Anew.
Context `{host : Host}.

(** No call of the sequence, run from [m], begins the initial
    propagation of a constraint that [constraint_map_] holds then. *)
Fixpoint all_anew (cs : list Call) (m : DemonMonitor) : bool :=
  match cs with
  | [] => true
  | cl :: cs' =>
      begins_anew cl m
      && match call cl m with
         | Ok (_, m1) => all_anew cs' m1
         | _ => true
         end
  end.

End Anew.

(** ** Frames and outcomes *)

(** The second state is the first one, but for empty vectors that
    [demons_per_constraint_[c]] has inserted for constraints without an
    entry. *)
Definition adds_empty_vectors (m m' : DemonMonitor) : Prop :=
  active_constraint_ m' = active_constraint_ m
  /\ active_demon_ m' = active_demon_ m
  /\ start_time_ m' = start_time_ m
  /\ constraint_map_ m' = constraint_map_ m
  /\ demon_map_ m' = demon_map_ m
  /\ constraint_runs m' = constraint_runs m
  /\ demon_runs m' = demon_runs m
  /\ forall c, demons_per_constraint_ m' !! c = demons_per_constraint_ m !! c
               \/ (demons_per_constraint_ m !! c = None
                   /\ demons_per_constraint_ m' !! c = Some []).

(** Operations that keep a relation between the state they find and the
    state they leave. *)
Definition keeps {A} (R : DemonMonitor -> DemonMonitor -> Prop) (x : Op A) : Prop :=
  forall m a m', x m = Ok (a, m') -> R m m'.

(** An outcome that is a return or a failed check. *)
Definition checked {A} (o : outcome A) : Prop :=
  o <> Undefined /\ o <> DivisionByZero.

(** From a state that satisfies [P], [x] returns in a state that
    satisfies [Q] or fails a check. *)
Definition safe {A} (P : DemonMonitor -> Prop) (x : Op A)
    (Q : A -> DemonMonitor -> Prop) : Prop :=
  forall m, P m ->
    match x m with
    | Ok (a, m') => Q a m'
    | CheckFailed => True
    | _ => False
    end.

(** The calls that check every pointer they follow: [RegisterDemon]
    reads [constraint_map_[active_constraint_]], and [StartDemonRun] and
    the demon branch of [RaiseFailure] read [demon_map_[demon]], without
    a [CHECK_NOTNULL]. *)
Definition checks_its_pointers (c : Call) : bool :=
  match c with
  | CallRegisterDemon _ | CallStartDemonRun _ _ | CallRaiseFailure _ => false
  | _ => true
  end.

(** ** Tactics *)

(** Case analysis on the innermost scrutinee of a cascade of matches. *)
Ltac case_innermost H :=
  match type of H with
  | context [match ?x with _ => _ end] =>
      lazymatch x with
      | context [match _ with _ => _ end] => fail
      | _ => destruct x eqn:?
      end
  end.

(** Projections of a state built by the setters. *)
Ltac simpl_state :=
  cbn [active_constraint_ active_demon_ start_time_ constraint_map_ demon_map_
       demons_per_constraint_ constraint_runs demon_runs set_active_constraint
       set_active_demon set_constraint_map set_demon_map
       set_demons_per_constraint set_constraint_runs set_demon_runs
       current_time fst snd] in *.

(** Equality of two states built by the setters. *)
Ltac state_eq :=
  unfold set_active_constraint, set_active_demon, set_constraint_map,
    set_demon_map, set_demons_per_constraint, set_constraint_runs,
    set_demon_runs;
  simpl_state; f_equal; rewrite ?insert_insert_eq; reflexivity.

(** All the ways in which the method of [H : method m = outcome] can
    have come to its outcome. *)
Ltac op_cases H :=
  unfold_op;
  repeat (simpl in H; simpl_state; rewrite ?lookup_insert_eq in H;
          first [ discriminate H | case_innermost H ]);
  repeat match goal with
    | E : bool_decide _ = true |- _ => apply bool_decide_eq_true in E
    | E : bool_decide _ = false |- _ => apply bool_decide_eq_false in E
    end;
  try (injection H as <-); subst; simpl_state;
  repeat match goal with
    | E : context [<[?k:=?x]> ?mm !! ?k] |- _ =>
        rewrite (lookup_insert_eq mm k x) in E
    end;
  simplify_eq.

(** Closes a goal in which a map of a consistent monitor points to an
    address without a record. *)
Ltac dangling_record :=
  match goal with
  | Hm : consistent ?m, H1 : constraint_map_ ?m !! ?c = Some (Some ?a),
    H2 : constraint_runs ?m !! ?a = None |- _ =>
      destruct (constraint_record m Hm c _ H1) as (? & ? & ? & ?); simplify_eq
  | Hm : consistent ?m, H1 : demon_map_ ?m !! ?d = Some (Some ?q),
    H2 : demon_runs ?m !! ?q = None |- _ =>
      destruct (demon_record m Hm d _ H1) as (? & ? & ? & ? & ?); simplify_eq
  end.

(** The lemmas on operations that leave the state as they find it. *)
Create HintDb reads.

(** * Properties *)

(** ** Arithmetic on [int64] *)

Lemma wrap64_exact (z : Z) : in_int64 z -> wrap64 z = z.
Proof.
  unfold in_int64, wrap64. intros Hz.
  rewrite Z.mod_small by lia. lia.
Qed.

Lemma wrap64_range (z : Z) : in_int64 (wrap64 z).
Proof.
  unfold in_int64, wrap64.
  pose proof (Z.mod_pos_bound (z + 2 ^ 63) (2 ^ 64)). lia.
Qed.

Lemma wrap64_add_l (a b : Z) : wrap64 (wrap64 a + b) = wrap64 (a + b).
Proof.
  unfold wrap64. f_equal.
  replace ((a + 2 ^ 63) mod 2 ^ 64 - 2 ^ 63 + b + 2 ^ 63)
    with ((a + 2 ^ 63) mod 2 ^ 64 + b) by lia.
  replace (a + b + 2 ^ 63) with ((a + 2 ^ 63) + b) by lia.
  apply Zplus_mod_idemp_l.
Qed.

Lemma wrap64_add_r (a b : Z) : wrap64 (a + wrap64 b) = wrap64 (a + b).
Proof. rewrite (Z.add_comm a), wrap64_add_l. f_equal. lia. Qed.

Lemma add64_exact (a b : Z) : in_int64 (a + b) -> add64 a b = a + b.
Proof. apply wrap64_exact. Qed.

Lemma sub64_exact (a b : Z) : in_int64 (a - b) -> sub64 a b = a - b.
Proof. apply wrap64_exact. Qed.

Lemma sumZ_app (l k : list Z) : sumZ (l ++ k) = sumZ l + sumZ k.
Proof. induction l as [|x l IH]; simpl; [reflexivity | rewrite IH; lia]. Qed.

Lemma foldl_add64_wrapped (l : list Z) (a : Z) :
  foldl add64 (wrap64 a) l = wrap64 (a + sumZ l).
Proof.
  revert a. induction l as [|x l IH]; intros a; simpl.
  - f_equal. lia.
  - unfold add64 at 2. rewrite wrap64_add_l, IH. f_equal. lia.
Qed.

Lemma foldl_add64_zero (l : list Z) : foldl add64 0 l = wrap64 (sumZ l).
Proof. exact (foldl_add64_wrapped l 0). Qed.

Lemma foldl_add64_exact (l : list Z) (a : Z) :
  in_int64 a -> in_int64 (a + sumZ l) -> foldl add64 a l = a + sumZ l.
Proof.
  intros Ha Hs. transitivity (foldl add64 (wrap64 a) l).
  - rewrite (wrap64_exact a Ha). reflexivity.
  - rewrite foldl_add64_wrapped. apply wrap64_exact, Hs.
Qed.

Lemma zip_with_shorter {A B C} (f : A -> B -> C) (l : list A) (k k' : list B) :
  length l = length k -> zip_with f l (k ++ k') = zip_with f l k.
Proof.
  intros Hlen. rewrite <- (app_nil_r l) at 1.
  rewrite zip_with_app by exact Hlen. simpl. apply app_nil_r.
Qed.

(** ** Equations of the primitives *)


Lemma bind_Ok {A B} (x : Op A) (k : A -> Op B) (m m' : DemonMonitor) (a : A) :
  x m = Ok (a, m') -> bind x k m = k a m'.
Proof. unfold bind. intros ->. reflexivity. Qed.

Lemma bind_CheckFailed {A B} (x : Op A) (k : A -> Op B) (m : DemonMonitor) :
  x m = CheckFailed -> bind x k m = CheckFailed.
Proof. unfold bind. intros ->. reflexivity. Qed.

Lemma read_ct_Some (m : DemonMonitor) (p : addr) (r : ConstraintRuns.t) :
  constraint_runs m !! p = Some r -> read_ct (Some p) m = Ok (r, m).
Proof. unfold read_ct. intros ->. reflexivity. Qed.

Lemma read_dr_Some (m : DemonMonitor) (p : addr) (r : DemonRuns.t) :
  demon_runs m !! p = Some r -> read_dr (Some p) m = Ok (r, m).
Proof. unfold read_dr. intros ->. reflexivity. Qed.

Lemma update_ct_Some (m : DemonMonitor) (p : addr) (r : ConstraintRuns.t) f :
  constraint_runs m !! p = Some r ->
  update_ct (Some p) f m
  = Ok (tt, set_constraint_runs (<[p := f r]> (constraint_runs m)) m).
Proof.
  intros Hr. unfold update_ct. rewrite (bind_Ok _ _ _ _ _ (read_ct_Some _ _ _ Hr)).
  reflexivity.
Qed.

Lemma update_dr_Some (m : DemonMonitor) (p : addr) (r : DemonRuns.t) f :
  demon_runs m !! p = Some r ->
  update_dr (Some p) f m
  = Ok (tt, set_demon_runs (<[p := f r]> (demon_runs m)) m).
Proof.
  intros Hr. unfold update_dr. rewrite (bind_Ok _ _ _ _ _ (read_dr_Some _ _ _ Hr)).
  reflexivity.
Qed.

Lemma update_dr_null (m : DemonMonitor) f : update_dr None f m = Undefined.
Proof. reflexivity. Qed.

Lemma constraint_map_at_Some (m : DemonMonitor) (c : Constraint) (p : option addr) :
  constraint_map_ m !! c = Some p -> constraint_map_at c m = Ok (p, m).
Proof. unfold constraint_map_at. intros ->. reflexivity. Qed.

Lemma demon_map_at_Some (m : DemonMonitor) (d : Demon) (p : option addr) :
  demon_map_ m !! d = Some p -> demon_map_at d m = Ok (p, m).
Proof. unfold demon_map_at. intros ->. reflexivity. Qed.

Lemma demon_map_at_None (m : DemonMonitor) (d : Demon) :
  demon_map_ m !! d = None ->
  demon_map_at d m = Ok (None, set_demon_map (<[d := None]> (demon_map_ m)) m).
Proof. unfold demon_map_at. intros ->. reflexivity. Qed.

(** ** Failure while only a constraint is active *)

(** C1.  In a state in which a constraint is active and no demon is,
    [RaiseFailure] stops at [CHECK_NOTNULL(active_demon_)]: the
    constraint's record is not closed as failed, the call aborts. *)
Theorem RaiseFailure_constraint_only (m : DemonMonitor) (wall : Z)
    (c : Constraint) :
  active_constraint_ m = Some c ->
  active_demon_ m = None ->
  RaiseFailure wall m = CheckFailed.
Proof.
  intros Hc Hd. unfold RaiseFailure. unfold_op. rewrite Hc, Hd. reflexivity.
Qed.

(** The sibling that closes the same phase on success does run in
    that state: [EndInitialPropagation] asks for no active demon. *)
Lemma EndInitialPropagation_constraint_only (m : DemonMonitor) (wall : Z)
    (c : Constraint) (p : addr) (ct : ConstraintRuns.t) :
  active_constraint_ m = Some c ->
  active_demon_ m = None ->
  constraint_map_ m !! c = Some (Some p) ->
  constraint_runs m !! p = Some ct ->
  EndInitialPropagation (Some c) wall m
  = Ok (tt, set_active_constraint None
              (set_constraint_runs
                 (<[p := ConstraintRuns.set_failures 0
                           (ConstraintRuns.set_initial_propagation_end_time
                              (current_time m wall) ct)]>
                    (constraint_runs m)) m)).
Proof.
  intros Hc Hd Hp Hct. unfold EndInitialPropagation. unfold_op.
  rewrite Hc, Hd. simpl. rewrite bool_decide_eq_true_2 by reflexivity.
  rewrite Hp. simpl. rewrite Hct. simpl.
  rewrite lookup_insert_eq. simpl. rewrite insert_insert_eq. reflexivity.
Qed.

(** C10, as the code has it.  With a constraint and a demon both
    active, and the constraint mapped to a record that is allocated,
    [RaiseFailure] closes the constraint's record as failed and clears
    the active constraint; the demon map and the store of demon records
    are untouched, so the record of the demon is as it was, a run that
    is open stays open, and the demon stays active. *)
Theorem RaiseFailure_both_active (m : DemonMonitor) (wall : Z)
    (c : Constraint) (d : Demon) (p : addr) (ct : ConstraintRuns.t) :
  active_constraint_ m = Some c ->
  active_demon_ m = Some d ->
  constraint_map_ m !! c = Some (Some p) ->
  constraint_runs m !! p = Some ct ->
  exists m',
    RaiseFailure wall m = Ok (tt, m')
    /\ m' = set_active_constraint None
              (set_constraint_runs
                 (<[p := ConstraintRuns.set_failures 1
                           (ConstraintRuns.set_initial_propagation_end_time
                              (current_time m wall) ct)]>
                    (constraint_runs m)) m)
    /\ active_constraint_ m' = None
    /\ active_demon_ m' = Some d
    /\ demon_runs m' = demon_runs m
    /\ demon_map_ m' = demon_map_ m
    /\ (forall p', p' <> p -> constraint_runs m' !! p' = constraint_runs m !! p')
    /\ (forall q r,
          demon_map_ m !! d = Some (Some q) ->
          demon_runs m !! q = Some r ->
          length (DemonRuns.start_time r) = S (length (DemonRuns.end_time r)) ->
          demon_map_ m' !! d = Some (Some q)
          /\ demon_runs m' !! q = Some r
          /\ forall r', demon_runs m' !! q = Some r' ->
                        length (DemonRuns.start_time r')
                        = S (length (DemonRuns.end_time r'))).
Proof.
  intros Hc Hd Hp Hct. eexists. split; [|split; [reflexivity|]].
  - unfold RaiseFailure. unfold_op. rewrite Hc, Hd. simpl.
    rewrite Hp. simpl. rewrite Hct. simpl.
    rewrite lookup_insert_eq. simpl. rewrite insert_insert_eq. reflexivity.
  - simpl. repeat split; auto.
    + intros p' Hne. rewrite lookup_insert_ne by congruence. reflexivity.
    + intros r' Hr'. assert (r' = r) by congruence. subst r'. assumption.
Qed.

(** C4, as the code has it.  With a demon active that is mapped to a
    record that is allocated, and no constraint active, [RaiseFailure]
    appends the current time to the end times of the demon's record,
    which closes its open run, adds one to the record's failure
    count, clears the active demon, and leaves every other record and
    every map as it was. *)
Theorem RaiseFailure_demon_only (m : DemonMonitor) (wall : Z)
    (d : Demon) (q : addr) (r : DemonRuns.t) :
  active_constraint_ m = None ->
  active_demon_ m = Some d ->
  demon_map_ m !! d = Some (Some q) ->
  demon_runs m !! q = Some r ->
  in_int64 (DemonRuns.failures r + 1) ->
  exists m',
    RaiseFailure wall m = Ok (tt, m')
    /\ demon_runs m' !! q
       = Some (DemonRuns.mk (DemonRuns.demon_id r) (DemonRuns.start_time r)
                 (DemonRuns.end_time r ++ [current_time m wall])
                 (DemonRuns.failures r + 1))
    /\ (forall starts s,
          DemonRuns.start_time r = starts ++ [s] ->
          length starts = length (DemonRuns.end_time r) ->
          zip_with sub64 (DemonRuns.end_time r ++ [current_time m wall])
                         (DemonRuns.start_time r)
          = demon_times r ++ [sub64 (current_time m wall) s])
    /\ (forall q', q' <> q -> demon_runs m' !! q' = demon_runs m !! q')
    /\ active_demon_ m' = None
    /\ active_constraint_ m' = None
    /\ constraint_runs m' = constraint_runs m
    /\ constraint_map_ m' = constraint_map_ m
    /\ demon_map_ m' = demon_map_ m
    /\ demons_per_constraint_ m' = demons_per_constraint_ m.
Proof.
  intros Hc Hd Hq Hr Hf. eexists. split.
  - unfold RaiseFailure. unfold_op. rewrite Hc, Hd. simpl.
    rewrite Hq. simpl. rewrite Hr. simpl.
    rewrite !lookup_insert_eq. simpl. rewrite !lookup_insert_eq. simpl.
    reflexivity.
  - simpl. rewrite !insert_insert_eq.
    repeat split; try reflexivity.
    + rewrite lookup_insert_eq. unfold DemonRuns.set_failures,
        DemonRuns.add_end_time. simpl. rewrite add64_exact by exact Hf.
      reflexivity.
    + intros starts s Hs Hlen. unfold demon_times. rewrite Hs.
      rewrite zip_with_app by (symmetry; exact Hlen).
      rewrite zip_with_shorter by (symmetry; exact Hlen). reflexivity.
    + intros q' Hne. rewrite lookup_insert_ne by congruence. reflexivity.
    + exact Hc.
Qed.

Lemma RaiseFailure_constraint_only_witness :
  active_constraint_ constraint_open = Some 1%positive
  /\ active_demon_ constraint_open = None
  /\ RaiseFailure 107 constraint_open = CheckFailed.
Proof.
  split; [reflexivity | split; [reflexivity |]].
  apply (RaiseFailure_constraint_only constraint_open 107 1%positive);
    reflexivity.
Defined.

Lemma RaiseFailure_both_active_witness :
  exists m',
    RaiseFailure 107 both_open = Ok (tt, m')
    /\ active_constraint_ m' = None
    /\ active_demon_ m' = Some 2%positive
    /\ demon_runs m' = demon_runs both_open
    /\ demon_runs m' !! 1%positive = Some (DemonRuns.mk "demon" [105] [] 0).
Proof.
  edestruct (RaiseFailure_both_active both_open 107
               1%positive 2%positive 1%positive)
    as (m' & Hrun & _ & Hc & Hd & Hruns & _ & _ & Hrec);
    [reflexivity | reflexivity | reflexivity | reflexivity |].
  destruct (Hrec 1%positive (DemonRuns.mk "demon" [105] [] 0))
    as (_ & Hopen & _); [reflexivity | reflexivity | reflexivity |].
  exists m'. repeat split; assumption.
Defined.

(** C10 as stated fails: after [RestartSearch] within the run of a
    demon within the initial propagation of its constraint, a
    constraint and a demon are both active, and [RaiseFailure] stops at
    [CHECK_NOTNULL(ct_run)]: the active constraint is not cleared. *)
Lemma RaiseFailure_both_active_after_restart :
  reachable (host := plain_host) both_open_restarted
  /\ active_constraint_ both_open_restarted = Some 1%positive
  /\ active_demon_ both_open_restarted = Some 2%positive
  /\ RaiseFailure 107 both_open_restarted = CheckFailed.
Proof.
  split; [| split; [reflexivity | split; [reflexivity |]]].
  - exists 0, [CallStartInitialPropagation (Some 1%positive) 100;
               CallRegisterDemon (Some 2%positive);
               CallStartDemonRun (Some 2%positive) 105;
               CallRestartSearch].
    vm_compute. reflexivity.
  - vm_compute. reflexivity.
Qed.

Lemma RaiseFailure_demon_only_witness :
  exists m',
    RaiseFailure 125 demon_open = Ok (tt, m')
    /\ demon_runs m' !! 1%positive
       = Some (DemonRuns.mk "demon" [120] [125] 1)
    /\ active_demon_ m' = None.
Proof.
  edestruct (RaiseFailure_demon_only demon_open 125
               2%positive 1%positive)
    as (m' & Hrun & Hrec & _ & _ & Hd & _);
    [reflexivity | reflexivity | reflexivity | reflexivity
    | unfold in_int64; simpl; lia |].
  exists m'. repeat split; assumption.
Defined.

(** C4 as stated fails: after [RestartSearch] within the run of a
    demon, the demon is active and no constraint is, and [RaiseFailure]
    reads [demon_map_[active_demon_]], a null pointer, and calls
    [add_end_time] through it. *)
Lemma RaiseFailure_demon_only_after_restart :
  reachable (host := plain_host) demon_open_restarted
  /\ active_constraint_ demon_open_restarted = None
  /\ active_demon_ demon_open_restarted = Some 2%positive
  /\ RaiseFailure 125 demon_open_restarted = Undefined.
Proof.
  split; [| split; [reflexivity | split; [reflexivity |]]].
  - exists 0, [CallStartInitialPropagation (Some 1%positive) 100;
               CallRegisterDemon (Some 2%positive);
               CallEndInitialPropagation (Some 1%positive) 110;
               CallStartDemonRun (Some 2%positive) 120;
               CallRestartSearch].
    vm_compute. reflexivity.
  - vm_compute. reflexivity.
Qed.

(** ** The latches *)

Section Latches.
Context `{host : Host}.

Lemma StartInitialPropagation_latched (m : DemonMonitor)
    (constraint : option Constraint) (wall : Z) :
  is_Some (active_constraint_ m) \/ is_Some (active_demon_ m) ->
  StartInitialPropagation constraint wall m = CheckFailed.
Proof.
  intros [[c Hc] | [d Hd]]; unfold StartInitialPropagation; unfold_op.
  - rewrite Hc. reflexivity.
  - destruct (active_constraint_ m); [reflexivity |]. simpl.
    rewrite Hd. reflexivity.
Qed.

Lemma StartDemonRun_latched (m : DemonMonitor) (demon : option Demon)
    (wall : Z) :
  is_Some (active_demon_ m) -> StartDemonRun demon wall m = CheckFailed.
Proof.
  intros [d Hd]. unfold StartDemonRun. unfold_op. rewrite Hd. reflexivity.
Qed.

(** The second half of C3: on a registered demon, with no demon
    active, [StartDemonRun] appends exactly one start time, the
    current time, to the demon's record, and marks the demon active,
    whatever the active constraint is. *)
Lemma StartDemonRun_registered (m : DemonMonitor) (d : Demon) (q : addr)
    (r : DemonRuns.t) (wall : Z) :
  active_demon_ m = None ->
  demon_map_ m !! d = Some (Some q) ->
  demon_runs m !! q = Some r ->
  StartDemonRun (Some d) wall m
  = Ok (tt, set_demon_runs
              (<[q := DemonRuns.add_start_time (current_time m wall) r]>
                 (demon_runs m))
              (set_active_demon (Some d) m)).
Proof.
  intros Hd Hq Hr. unfold StartDemonRun. unfold_op.
  rewrite Hd. simpl. rewrite Hq. simpl. rewrite Hr. reflexivity.
Qed.

(** C2, as the code has it.  Each latch holds at most one identity.
    [StartInitialPropagation] fails, whatever its argument, when a
    constraint or a demon is active.  [StartDemonRun] fails, whatever
    its argument, when a demon is active, but it does not look at the
    active constraint: on a demon mapped to an allocated record it
    returns when no demon is active, and the constraint latch is as it
    was, so that a constraint that was active stays active. *)
Theorem latch_guards (m : DemonMonitor) :
  (forall c c', active_constraint_ m = Some c ->
                active_constraint_ m = Some c' -> c = c')
  /\ (forall d d', active_demon_ m = Some d ->
                   active_demon_ m = Some d' -> d = d')
  /\ (forall constraint wall,
        is_Some (active_constraint_ m) \/ is_Some (active_demon_ m) ->
        StartInitialPropagation constraint wall m = CheckFailed)
  /\ (forall demon wall,
        is_Some (active_demon_ m) ->
        StartDemonRun demon wall m = CheckFailed)
  /\ (forall d q r wall,
        active_demon_ m = None ->
        demon_map_ m !! d = Some (Some q) ->
        demon_runs m !! q = Some r ->
        exists m', StartDemonRun (Some d) wall m = Ok (tt, m')
                   /\ active_demon_ m' = Some d
                   /\ active_constraint_ m' = active_constraint_ m).
Proof.
  repeat split.
  - intros c c' Hc Hc'. congruence.
  - intros d1 d2 Hd1 Hd2. congruence.
  - intros constraint wall. apply StartInitialPropagation_latched.
  - intros demon wall. apply StartDemonRun_latched.
  - intros d q r wall Hd Hq Hr. eexists. split.
    + apply (StartDemonRun_registered m d q r wall Hd Hq Hr).
    + split; reflexivity.
Qed.

(** C3.  On a demon that is not a key of [demon_map_], with no demon
    active, [StartDemonRun] passes its two checks, inserts a null
    entry for the demon and calls [add_start_time] through it: the
    outcome is undefined behaviour, not a failed check. *)
Theorem StartDemonRun_unregistered (m : DemonMonitor) (d : Demon) (wall : Z) :
  active_demon_ m = None ->
  demon_map_ m !! d = None ->
  StartDemonRun (Some d) wall m = Undefined.
Proof.
  intros Hd Hq. unfold StartDemonRun. unfold_op.
  rewrite Hd. simpl. rewrite Hq. reflexivity.
Qed.

(** The siblings that look a demon up do check the record they find:
    [EndDemonRun] and [AddFakeRun] fail a check on such a demon. *)
Lemma EndDemonRun_unregistered (m : DemonMonitor) (d : Demon) (wall : Z) :
  demon_map_ m !! d = None ->
  EndDemonRun (Some d) wall m = CheckFailed.
Proof.
  intros Hq. unfold EndDemonRun. unfold_op.
  case_bool_decide; [|reflexivity]. simpl. rewrite Hq. reflexivity.
Qed.

Lemma AddFakeRun_unregistered (m : DemonMonitor) (d : Demon)
    (start_time end_time : Z) (is_fail : bool) :
  demon_map_ m !! d = None ->
  AddFakeRun (Some d) start_time end_time is_fail m = CheckFailed.
Proof.
  intros Hq. unfold AddFakeRun. unfold_op. rewrite Hq. reflexivity.
Qed.

(** C8.  [RegisterDemon] on a demon that is already a key of
    [demon_map_] returns with the state unchanged. *)
Theorem RegisterDemon_known (m : DemonMonitor) (d : Demon) :
  is_Some (demon_map_ m !! d) ->
  RegisterDemon (Some d) m = Ok (tt, m).
Proof.
  intros Hd. unfold RegisterDemon. unfold_op.
  rewrite bool_decide_eq_true_2 by exact Hd. reflexivity.
Qed.

End Latches.

Lemma latch_guards_witness :
  StartInitialPropagation (host := plain_host) (Some 3%positive) 103
    constraint_open = CheckFailed
  /\ StartDemonRun (Some 3%positive) 121 demon_open = CheckFailed
  /\ is_Some (active_constraint_ registered_open)
  /\ exists m',
       StartDemonRun (Some 2%positive) 105 registered_open
       = Ok (tt, m')
       /\ active_demon_ m' = Some 2%positive
       /\ active_constraint_ m' = Some 1%positive.
Proof.
  destruct (latch_guards (host := plain_host) constraint_open)
    as (_ & _ & Hconstraint & _).
  destruct (latch_guards (host := plain_host) demon_open)
    as (_ & _ & _ & Hdemon & _).
  destruct (latch_guards (host := plain_host) registered_open)
    as (_ & _ & _ & _ & Hstart).
  split; [apply Hconstraint; left; exists 1%positive; reflexivity |].
  split; [apply Hdemon; exists 2%positive; reflexivity |].
  split; [exists 1%positive; reflexivity |].
  destruct (Hstart 2%positive 1%positive (DemonRuns.mk "demon" [] [] 0) 105)
    as (m' & Hrun & Hd & Hc); [reflexivity | reflexivity | reflexivity |].
  exists m'. repeat split; assumption.
Defined.

(** C2 as stated fails: a state in which a constraint and a demon are
    both active is reachable. *)
Lemma mutual_exclusion_fails :
  ~ (forall m : DemonMonitor,
       reachable (host := plain_host) m ->
       ~ (is_Some (active_constraint_ m) /\ is_Some (active_demon_ m))).
Proof.
  intros Hall. apply (Hall both_open).
  - exists 0, [CallStartInitialPropagation (Some 1%positive) 100;
               CallRegisterDemon (Some 2%positive);
               CallStartDemonRun (Some 2%positive) 105].
    vm_compute. reflexivity.
  - split; [exists 1%positive | exists 2%positive]; reflexivity.
Qed.

Lemma StartDemonRun_unregistered_witness :
  active_demon_ (new_DemonMonitor 0) = None
  /\ demon_map_ (new_DemonMonitor 0) !! 2%positive = None
  /\ StartDemonRun (Some 2%positive) 5 (new_DemonMonitor 0)
     = Undefined.
Proof.
  split; [reflexivity | split; [reflexivity |]].
  apply (StartDemonRun_unregistered); reflexivity.
Defined.

Lemma RegisterDemon_known_witness :
  is_Some (demon_map_ session_done !! 2%positive)
  /\ RegisterDemon (host := plain_host) (Some 2%positive) session_done
     = Ok (tt, session_done).
Proof.
  assert (Hk : is_Some (demon_map_ session_done !! 2%positive))
    by (exists (Some 1%positive); reflexivity).
  split; [exact Hk |].
  apply (RegisterDemon_known (host := plain_host) session_done 2%positive Hk).
Defined.

(** ** Statistics of a demon *)

(** *** The order on doubles *)

Lemma flt_asym (x y : double) : flt x y = true -> flt y x = false.
Proof.
  unfold flt, SFltb, SFcompare.
  destruct x as [sx|sx| |sx mx ex], y as [sy|sy| |sy my ey];
    try destruct sx; try destruct sy; simpl; try congruence;
    change (Pos.compare_cont Eq) with Pos.compare;
    destruct (Z.compare_spec ex ey), (Z.compare_spec ey ex);
    try lia; try congruence;
    destruct (Pos.compare_spec mx my), (Pos.compare_spec my mx);
    simpl; try lia; congruence.
Qed.

Lemma fle_trans (x y z : double) : not_nan y -> fle x y -> fle y z -> fle x z.
Proof.
  unfold not_nan, fle, flt, SFltb, SFcompare. intros Hy.
  destruct x as [sx|sx| |sx mx ex], y as [sy|sy| |sy my ey],
           z as [sz|sz| |sz mz ez];
    try congruence;
    try destruct sx; try destruct sy; try destruct sz; simpl; try congruence;
    change (Pos.compare_cont Eq) with Pos.compare;
    repeat match goal with
      | |- context [Z.compare ?a ?b] => destruct (Z.compare_spec a b)
      | |- context [Pos.compare ?a ?b] => destruct (Pos.compare_spec a b)
      end; simpl; try congruence; lia.
Qed.

(** *** Conversion of an integer never yields NaN *)

Lemma shr_1_nonneg (mrs : shr_record) : 0 <= shr_m mrs -> 0 <= shr_m (shr_1 mrs).
Proof.
  destruct mrs as [m r s]. simpl. intros Hm.
  destruct m as [|p|p]; [simpl; lia | destruct p; simpl; lia | lia].
Qed.

Lemma iter_pos_shr_1_nonneg (p : positive) (mrs : shr_record) :
  0 <= shr_m mrs -> 0 <= shr_m (SpecFloat.iter_pos shr_1 p mrs).
Proof.
  revert mrs. induction p as [p IH | p IH |]; intros mrs Hm; simpl.
  - apply IH, IH, shr_1_nonneg, Hm.
  - apply IH, IH, Hm.
  - apply shr_1_nonneg, Hm.
Qed.

Lemma shr_fexp_nonneg (prec emax m e : Z) (l : location) :
  0 <= m -> 0 <= shr_m (fst (shr_fexp prec emax m e l)).
Proof.
  intros Hm. unfold shr_fexp, shr.
  assert (Hrec : 0 <= shr_m (shr_record_of_loc m l))
    by (destruct l as [|[]]; simpl; exact Hm).
  destruct (fexp prec emax (Zdigits2 m + e) - e); simpl;
    [exact Hrec | apply iter_pos_shr_1_nonneg, Hrec | exact Hrec].
Qed.

Lemma round_nearest_even_nonneg (m : Z) (l : location) :
  0 <= m -> 0 <= round_nearest_even m l.
Proof.
  intros Hm. unfold round_nearest_even.
  destruct l as [|[]]; try destruct (Z.even m); lia.
Qed.

Lemma binary_round_aux_not_nan (prec emax : Z) (s : bool) (m e : Z) (l : location) :
  0 <= m -> not_nan (binary_round_aux prec emax s m e l).
Proof.
  intros Hm. unfold not_nan, binary_round_aux.
  pose proof (shr_fexp_nonneg prec emax m e l Hm) as H1.
  destruct (shr_fexp prec emax m e l) as [mrs' e']. simpl in H1.
  pose proof (shr_fexp_nonneg prec emax
                (round_nearest_even (shr_m mrs') (loc_of_shr_record mrs'))
                e' loc_Exact (round_nearest_even_nonneg _ _ H1)) as H2.
  destruct (shr_fexp prec emax _ e' loc_Exact) as [mrs'' e'']. simpl in H2.
  destruct (shr_m mrs''); [discriminate | | lia].
  destruct (e'' <=? emax - prec); discriminate.
Qed.

Lemma double_of_Z_not_nan (z : Z) : not_nan (double_of_Z z).
Proof.
  unfold double_of_Z, binary_normalize.
  destruct z as [|p|p]; [discriminate | |];
    unfold binary_round; destruct (shl_align _ _ _) as [mz ez];
    apply binary_round_aux_not_nan; lia.
Qed.

(** *** Sorting *)

Lemma insert_Permutation (x : double) (l : list double) :
  Permutation (insert x l) (x :: l).
Proof.
  induction l as [|y l IH]; simpl; [reflexivity |].
  destruct (flt x y); [reflexivity |].
  rewrite IH. apply perm_swap.
Qed.

Lemma sort_Permutation (l : list double) : Permutation (sort l) l.
Proof.
  induction l as [|x l IH]; simpl; [reflexivity |].
  rewrite insert_Permutation. apply perm_skip, IH.
Qed.

Lemma sort_length (l : list double) : length (sort l) = length l.
Proof. apply Permutation_length, sort_Permutation. Qed.

Lemma insert_StronglySorted (x : double) (l : list double) :
  Forall not_nan l -> StronglySorted fle l -> StronglySorted fle (insert x l).
Proof.
  intros Hnan Hs. induction Hs as [|y l Hs IH Hy]; simpl.
  - constructor; constructor.
  - apply Forall_cons in Hnan as [Hny Hnl].
    destruct (flt x y) eqn:Hlt.
    + constructor; [constructor; assumption |].
      assert (Hxy : fle x y) by (apply flt_asym, Hlt).
      constructor; [exact Hxy |].
      eapply Forall_impl; [exact Hy |]. intros z Hz.
      apply (fle_trans x y z Hny Hxy Hz).
    + constructor; [apply IH, Hnl |].
      rewrite insert_Permutation. constructor; assumption.
Qed.

Lemma sort_StronglySorted (l : list double) :
  Forall not_nan l -> StronglySorted fle (sort l).
Proof.
  induction l as [|x l IH]; intros Hnan; simpl; [constructor |].
  apply Forall_cons in Hnan as [_ Hnl].
  apply insert_StronglySorted; [| apply IH, Hnl].
  rewrite sort_Permutation. exact Hnl.
Qed.

Lemma runtimes_not_nan (l : list Z) : Forall not_nan (map double_of_Z l).
Proof. apply Forall_map, Forall_forall. intros z _. apply double_of_Z_not_nan. Qed.

(** *** The median *)

Lemma vector_at_Some {A} (v : list A) (i : nat) (x : A) (m : DemonMonitor) :
  v !! i = Some x -> vector_at v i m = Ok (x, m).
Proof. unfold vector_at. intros ->. reflexivity. Qed.

Lemma median_of_middle (l : list double) (m : DemonMonitor) :
  (0 < length l)%nat ->
  exists median,
    median_of l m = Ok (median, m)
    /\ ((length l mod 2)%nat = 1%nat -> l !! (length l / 2)%nat = Some median)
    /\ ((length l mod 2)%nat = 0%nat ->
        exists x y,
          l !! (length l / 2 - 1)%nat = Some x
          /\ l !! (length l / 2)%nat = Some y
          /\ median = fdiv (fadd x y) (double_of_Z 2)).
Proof.
  intros Hpos. unfold median_of.
  case_bool_decide as Hone.
  - destruct l as [|x [|y l]]; simpl in Hone; try discriminate.
    exists x. split; [reflexivity |]. split; [reflexivity |].
    simpl. discriminate.
  - case_bool_decide as Hodd.
    + destruct (lookup_lt_is_Some_2 l (length l / 2)%nat) as [x Hx].
      { apply Nat.div_lt; lia. }
      exists x. split; [apply vector_at_Some, Hx |].
      split; [intros _; exact Hx | intros Heven; lia].
    + assert (Heven : (length l mod 2)%nat = 0%nat).
      { pose proof (Nat.mod_upper_bound (length l) 2). lia. }
      assert (Htwo : (2 <= length l)%nat).
      { destruct l as [|x [|y l]]; simpl in *; try lia; discriminate. }
      assert (Hhalf : (length l / 2 < length l)%nat) by (apply Nat.div_lt; lia).
      destruct (lookup_lt_is_Some_2 l (length l / 2 - 1)%nat) as [x Hx]; [lia |].
      destruct (lookup_lt_is_Some_2 l (length l / 2)%nat) as [y Hy]; [lia |].
      exists (fdiv (fadd x y) (double_of_Z 2)). split.
      * rewrite (bind_Ok _ _ _ _ _ (vector_at_Some _ _ _ m Hx)).
        rewrite (bind_Ok _ _ _ _ _ (vector_at_Some _ _ _ m Hy)). reflexivity.
      * split; [intros Hodd'; lia |].
        intros _. exists x, y. auto.
Qed.

Lemma demon_times_length (r : DemonRuns.t) :
  length (DemonRuns.start_time r) = length (DemonRuns.end_time r) ->
  length (demon_times r) = length (DemonRuns.start_time r).
Proof. intros Hlen. unfold demon_times. rewrite length_zip_with. lia. Qed.

(** C5.  For a record with no run, [ExportInformation] returns with
    invocations [0], total run time [0], and mean, median and standard
    deviation [0.0]; the record's failure count is passed through.  The
    outcome is a return, so no division by a zero count took place. *)
Theorem ExportInformation_demon_no_runs (m : DemonMonitor) (q : addr)
    (r : DemonRuns.t) :
  demon_runs m !! q = Some r ->
  DemonRuns.start_time r = [] ->
  DemonRuns.end_time r = [] ->
  ExportInformation_demon (Some q) m
  = Ok (DemonExport.mk 0 (DemonRuns.failures r) 0 fzero fzero fzero, m).
Proof.
  intros Hr Hs He. unfold ExportInformation_demon. unfold_op.
  rewrite Hr. simpl. unfold DemonRuns.start_time_size, DemonRuns.end_time_size,
    demon_times. rewrite Hs, He. reflexivity.
Qed.

(** Whatever the record, the divisions by the number of runs are never
    by zero. *)
Lemma ExportInformation_demon_divides (p : option addr) (m : DemonMonitor) :
  ExportInformation_demon p m <> DivisionByZero.
Proof.
  unfold ExportInformation_demon. unfold_op.
  destruct p as [q|]; simpl; [| discriminate].
  destruct (demon_runs m !! q) as [r|]; simpl; [| discriminate].
  case_bool_decide as Hlen; simpl; [| discriminate].
  rewrite length_map.
  destruct (length (demon_times r)) as [|n] eqn:Hn; simpl; [discriminate |].
  assert (Hpos : (0 < length (sort (map double_of_Z (demon_times r))))%nat)
    by (rewrite sort_length, length_map; lia).
  destruct (median_of_middle _ m Hpos) as (median & Hmed & _).
  unfold ret in Hmed. rewrite Hmed.
  unfold div_by_size.
  destruct (length (sort (map double_of_Z (demon_times r)))); [lia | discriminate].
Qed.

(** C6.  For a record with [N > 0] runs, [ExportInformation] returns,
    and its median is read off the run times sorted in ascending order
    (a sorted permutation of the run times): the element at [N / 2]
    when [N] is odd, the mean of the elements at [N / 2 - 1] and [N / 2]
    when [N] is even.  Two runs with the times 5 and 15 have the
    median 10.0. *)
Theorem median_is_middle (m : DemonMonitor) (q : addr) (r : DemonRuns.t) :
  demon_runs m !! q = Some r ->
  length (DemonRuns.start_time r) = length (DemonRuns.end_time r) ->
  (0 < length (DemonRuns.start_time r))%nat ->
  exists info,
    ExportInformation_demon (Some q) m = Ok (info, m)
    /\ Permutation (sorted_runtimes r) (map double_of_Z (demon_times r))
    /\ StronglySorted fle (sorted_runtimes r)
    /\ length (sorted_runtimes r) = length (DemonRuns.start_time r)
    /\ ((length (sorted_runtimes r) mod 2)%nat = 1%nat ->
        sorted_runtimes r !! (length (sorted_runtimes r) / 2)%nat
        = Some (DemonExport.median_demon_runtime info))
    /\ ((length (sorted_runtimes r) mod 2)%nat = 0%nat ->
        exists x y,
          sorted_runtimes r !! (length (sorted_runtimes r) / 2 - 1)%nat = Some x
          /\ sorted_runtimes r !! (length (sorted_runtimes r) / 2)%nat = Some y
          /\ DemonExport.median_demon_runtime info
             = fdiv (fadd x y) (double_of_Z 2))
    /\ (Permutation (demon_times r) [5; 15] ->
        DemonExport.median_demon_runtime info = double_of_Z 10).
Proof.
  intros Hr Hlen Hpos. unfold sorted_runtimes.
  pose proof (demon_times_length r Hlen) as Htimes.
  set (runtimes := map double_of_Z (demon_times r)).
  assert (Hsize : length (sort runtimes) = length (DemonRuns.start_time r))
    by (unfold runtimes; rewrite sort_length, length_map; exact Htimes).
  assert (Hsorted_pos : (0 < length (sort runtimes))%nat) by lia.
  destruct (median_of_middle (sort runtimes) m Hsorted_pos)
    as (median & Hmed & Hodd & Heven).
  assert (Hrun : exists mean stddev,
             ExportInformation_demon (Some q) m
             = Ok (DemonExport.mk (Z.of_nat (DemonRuns.start_time_size r))
                     (DemonRuns.failures r) (foldl add64 0 (demon_times r))
                     mean median stddev, m)).
  { unfold ExportInformation_demon. unfold_op. rewrite Hr. simpl.
    unfold DemonRuns.start_time_size, DemonRuns.end_time_size.
    rewrite bool_decide_eq_true_2 by exact Hlen. simpl.
    fold runtimes. unfold ret in Hmed.
    destruct (length runtimes) as [|n] eqn:Hn.
    { unfold runtimes in Hn. rewrite length_map in Hn. lia. }
    simpl. rewrite Hmed. unfold div_by_size.
    destruct (length (sort runtimes)) as [|k]; [lia |].
    eexists _, _. reflexivity. }
  destruct Hrun as (mean & stddev & Hrun).
  eexists. split; [exact Hrun |].
  split; [apply sort_Permutation |].
  split; [apply sort_StronglySorted, runtimes_not_nan |].
  split; [exact Hsize |]. simpl.
  split; [exact Hodd |]. split; [exact Heven |].
  intros Hperm.
  assert (Hcases : demon_times r = [5; 15] \/ demon_times r = [15; 5]).
  { pose proof (Permutation_length Hperm) as Hl.
    destruct (demon_times r) as [|a [|b [|c l]]]; simpl in Hl; try lia.
    apply Permutation_length_2_inv in Hperm as [Hp | Hp];
      inversion Hp; subst; auto. }
  assert (Hs : sort runtimes = [double_of_Z 5; double_of_Z 15])
    by (unfold runtimes; destruct Hcases as [-> | ->]; vm_compute; reflexivity).
  rewrite Hs in Heven.
  destruct (Heven eq_refl) as (x & y & Hx & Hy & ->).
  simpl in Hx, Hy. inversion Hx. inversion Hy. subst.
  vm_compute. reflexivity.
Qed.

Lemma ExportInformation_demon_no_runs_witness :
  ExportInformation_demon (Some 1%positive) registered_open
  = Ok (DemonExport.mk 0 0 0 fzero fzero fzero, registered_open).
Proof.
  apply (ExportInformation_demon_no_runs registered_open 1%positive
           (DemonRuns.mk "demon" [] [] 0)); reflexivity.
Defined.

Lemma median_is_middle_witness :
  exists info,
    ExportInformation_demon (Some 1%positive) session_done
    = Ok (info, session_done)
    /\ DemonExport.median_demon_runtime info = double_of_Z 10.
Proof.
  destruct (median_is_middle session_done 1%positive
              (DemonRuns.mk "demon" [200; 300] [205; 315] 1))
    as (info & Hrun & _ & _ & _ & _ & _ & Hexample);
    [reflexivity | reflexivity | simpl; lia |].
  exists info. split; [exact Hrun |].
  apply Hexample. reflexivity.
Defined.

(** ** The summary of a constraint *)

Lemma demon_times_wrap (r : DemonRuns.t) :
  demon_times r = map wrap64 (exact_times r).
Proof.
  unfold demon_times, exact_times.
  generalize (DemonRuns.start_time r) as ss.
  induction (DemonRuns.end_time r) as [|e es IH]; intros [|s ss]; simpl;
    try reflexivity.
  f_equal. apply IH.
Qed.

Lemma wrap64_sumZ_wrap (l : list Z) :
  wrap64 (sumZ (map wrap64 l)) = wrap64 (sumZ l).
Proof.
  induction l as [|x l IH]; simpl; [reflexivity |].
  rewrite wrap64_add_l, <- wrap64_add_r, IH, wrap64_add_r. reflexivity.
Qed.

Lemma sumZ_concat_exact_times (rs : list DemonRuns.t) :
  sumZ (concat (map exact_times rs)) = sumZ (map exact_runtime rs).
Proof.
  induction rs as [|r rs IH]; simpl; [reflexivity |].
  rewrite sumZ_app, IH. reflexivity.
Qed.

Lemma concat_demon_times (rs : list DemonRuns.t) :
  concat (map demon_times rs) = map wrap64 (concat (map exact_times rs)).
Proof.
  induction rs as [|r rs IH]; simpl; [reflexivity |].
  rewrite map_app, IH, demon_times_wrap. reflexivity.
Qed.

(** What the loop over the demons leaves in its three accumulators. *)
Lemma gather_information_loop (m : DemonMonitor) (addrs : list addr)
    (rs : list DemonRuns.t) (fails demon_invocations total : Z) :
  Forall2 (fun a r => demon_runs m !! a = Some r) addrs rs ->
  Forall (fun r => length (DemonRuns.start_time r)
                   = length (DemonRuns.end_time r)) rs ->
  for_each addrs gather_information (fails, demon_invocations, total) m
  = Ok ((foldl add64 fails (map DemonRuns.failures rs),
         foldl add64 demon_invocations (map invocations rs),
         foldl add64 total (concat (map demon_times rs))), m).
Proof.
  intros Hrs. revert fails demon_invocations total.
  induction Hrs as [|a r addrs rs Ha Hrs IH];
    intros fails demon_invocations total Hlen; simpl; [reflexivity |].
  apply Forall_cons in Hlen as [Hr Hlen].
  unfold bind at 1. unfold gather_information at 1. unfold_op.
  rewrite Ha. simpl.
  unfold DemonRuns.start_time_size, DemonRuns.end_time_size.
  rewrite bool_decide_eq_true_2 by exact Hr. simpl.
  rewrite IH by exact Hlen. rewrite foldl_app. reflexivity.
Qed.

(** C7, as the code has it.  For a constraint with a record, whose
    record lists as many demons as [demons_per_constraint_] does for
    it, and whose demons all have as many start as end times,
    [ExportInformation] returns: the failures are the record's own
    plus the sum of the demons' failure counts, the run time of the
    initial propagation is its end time minus its start time, the
    number of demons is that of the record, and the invocations and
    the total run time are the sums over all runs of all its demons
    (as long as these sums fit [int64]).  No record is changed. *)
Theorem ExportInformation_sums (m : DemonMonitor) (c : Constraint) (p : addr)
    (ct : ConstraintRuns.t) (rs : list DemonRuns.t) :
  constraint_map_ m !! c = Some (Some p) ->
  constraint_runs m !! p = Some ct ->
  Forall2 (fun a r => demon_runs m !! a = Some r) (ConstraintRuns.demons ct) rs ->
  Forall (fun r => length (DemonRuns.start_time r)
                   = length (DemonRuns.end_time r)) rs ->
  length (default [] (demons_per_constraint_ m !! c))
  = length (ConstraintRuns.demons ct) ->
  no_overflow ct rs ->
  exists info m',
    ExportInformation (Some c) m = Ok (info, m')
    /\ ConstraintExport.fails info
       = ConstraintRuns.failures ct + sumZ (map DemonRuns.failures rs)
    /\ ConstraintExport.initial_propagation_runtime info
       = ConstraintRuns.initial_propagation_end_time ct
         - ConstraintRuns.initial_propagation_start_time ct
    /\ ConstraintExport.demons info = length rs
    /\ ConstraintExport.demon_invocations info = sumZ (map invocations rs)
    /\ ConstraintExport.total_demon_runtime info = sumZ (map exact_runtime rs)
    /\ constraint_runs m' = constraint_runs m
    /\ demon_runs m' = demon_runs m.
Proof.
  intros Hp Hct Hrs Hlen Hsize (Hf & Hfs & Hrt & Hinv & Htot).
  assert (Hloop : forall m0, demon_runs m0 = demon_runs m ->
            for_each (ConstraintRuns.demons ct) gather_information
              (ConstraintRuns.failures ct, 0, 0) m0
            = Ok ((ConstraintRuns.failures ct + sumZ (map DemonRuns.failures rs),
                   sumZ (map invocations rs),
                   sumZ (map exact_runtime rs)), m0)).
  { intros m0 Hm0. rewrite (gather_information_loop m0 _ rs).
    - rewrite (foldl_add64_exact _ _ Hf Hfs).
      rewrite !foldl_add64_zero, (wrap64_exact _ Hinv).
      rewrite concat_demon_times, wrap64_sumZ_wrap.
      rewrite sumZ_concat_exact_times, (wrap64_exact _ Htot). reflexivity.
    - rewrite Hm0. exact Hrs.
    - exact Hlen. }
  pose proof (Forall2_length _ _ _ Hrs) as Hcount.
  unfold ExportInformation. unfold_op. rewrite Hp. simpl. rewrite Hct. simpl.
  unfold ConstraintRuns.demons_size.
  destruct (demons_per_constraint_ m !! c) as [v|] eqn:Hv; simpl in *.
  - rewrite bool_decide_eq_true_2 by lia. simpl.
    rewrite (Hloop m eq_refl). simpl.
    eexists _, _. split; [reflexivity |]. simpl.
    rewrite (sub64_exact _ _ Hrt). repeat split; auto.
  - rewrite bool_decide_eq_true_2 by lia. simpl.
    rewrite Hloop by reflexivity. simpl.
    eexists _, _. split; [reflexivity |]. simpl.
    rewrite (sub64_exact _ _ Hrt). repeat split; auto.
Qed.

Lemma ExportInformation_sums_witness :
  exists info m',
    ExportInformation (Some 1%positive) session_done = Ok (info, m')
    /\ ConstraintExport.fails info = 1
    /\ ConstraintExport.initial_propagation_runtime info = 10
    /\ ConstraintExport.demons info = 1%nat
    /\ ConstraintExport.demon_invocations info = 2
    /\ ConstraintExport.total_demon_runtime info = 20.
Proof.
  destruct (ExportInformation_sums session_done 1%positive 1%positive
              (ConstraintRuns.mk "constraint" 100 110 0 [1%positive])
              [DemonRuns.mk "demon" [200; 300] [205; 315] 1])
    as (info & m' & Hrun & Hf & Hrt & Hd & Hi & Ht & _).
  - reflexivity.
  - reflexivity.
  - repeat constructor.
  - repeat constructor.
  - reflexivity.
  - vm_compute. repeat split; (reflexivity || discriminate).
  - exists info, m'. repeat split; assumption.
Defined.

(** C7 as stated fails: after the initial propagation of a constraint
    that owns a demon was begun a second time, the constraint has a
    record and its demon has as many start as end times, yet
    [ExportInformation] fails the check that compares the record's
    number of demons with that of [demons_per_constraint_]. *)
Lemma ExportInformation_propagated_twice :
  reachable (host := plain_host) propagated_twice
  /\ (exists p ct,
        constraint_map_ propagated_twice !! 1%positive = Some (Some p)
        /\ constraint_runs propagated_twice !! p = Some ct)
  /\ map_Forall (fun _ r => length (DemonRuns.start_time r)
                            = length (DemonRuns.end_time r))
                (demon_runs propagated_twice)
  /\ ExportInformation (Some 1%positive) propagated_twice = CheckFailed.
Proof.
  split; [| split; [| split]].
  - exists 0, [CallStartInitialPropagation (Some 1%positive) 100;
               CallRegisterDemon (Some 2%positive);
               CallEndInitialPropagation (Some 1%positive) 110;
               CallStartInitialPropagation (Some 1%positive) 120;
               CallEndInitialPropagation (Some 1%positive) 130].
    vm_compute. reflexivity.
  - eexists _, _. split; reflexivity.
  - change (demon_runs propagated_twice)
      with ({[ 1%positive := DemonRuns.mk "demon" [] [] 0 ]}
            : gmap positive DemonRuns.t).
    apply map_Forall_singleton. reflexivity.
  - vm_compute. reflexivity.
Qed.

(** ** Restarting the search *)

(** What the deletions leave of the store: nothing new, no record a
    deleted pointer pointed to, and no demon of a record that is gone. *)
Lemma delete_all_spec (m : DemonMonitor) (l : list (Constraint * option addr)) :
  let m' := foldr (fun kv acc => delete_ConstraintRuns (snd kv) acc) m l in
  (forall p r, constraint_runs m' !! p = Some r -> constraint_runs m !! p = Some r)
  /\ (forall q r, demon_runs m' !! q = Some r -> demon_runs m !! q = Some r)
  /\ (forall k p, (k, Some p) ∈ l -> constraint_runs m' !! p = None)
  /\ (forall p ct q, constraint_runs m !! p = Some ct ->
                     constraint_runs m' !! p = None ->
                     q ∈ ConstraintRuns.demons ct ->
                     demon_runs m' !! q = None).
Proof.
  induction l as [|[k0 ptr] l IH]; simpl.
  - repeat split; try (intros; assumption).
    + intros k p Hin. inversion Hin.
    + intros p ct q Hsome Hnone. congruence.
  - simpl in IH. destruct IH as (Ha & Hb & Hc & Hd).
    set (acc := foldr (fun kv acc => delete_ConstraintRuns (snd kv) acc) m l) in *.
    assert (Hkeep : forall k p, (k, Some p) ∈ (k0, ptr) :: l ->
              constraint_runs acc !! p = None \/ ptr = Some p).
    { intros k p Hin. apply elem_of_cons in Hin as [Heq | Hin].
      - right. congruence.
      - left. eapply Hc, Hin. }
    unfold delete_ConstraintRuns.
    destruct ptr as [p0|]; [| repeat split; try assumption;
      intros k p Hin; destruct (Hkeep k p Hin); [assumption | discriminate]].
    destruct (constraint_runs acc !! p0) as [r0|] eqn:Hp0;
      [| repeat split; try assumption;
         intros k p Hin; destruct (Hkeep k p Hin) as [|Heq];
         [assumption | congruence]].
    simpl. repeat split.
    + intros p r Hp. apply lookup_delete_Some in Hp as [_ Hp]. apply Ha, Hp.
    + intros q r Hq. apply lookup_foldr_delete_Some in Hq as [_ Hq]. apply Hb, Hq.
    + intros k p Hin. apply lookup_delete_None.
      destruct (Hkeep k p Hin) as [Hnone | Heq]; [right; exact Hnone |].
      left. congruence.
    + intros p ct q Hm Hgone Hq.
      apply lookup_delete_None in Hgone as [<- | Hgone].
      * apply Ha in Hp0. assert (ct = r0) by congruence. subst ct.
        apply lookup_foldr_delete, Hq.
      * pose proof (Hd p ct q Hm Hgone Hq) as Hnone.
        destruct (foldr delete (demon_runs acc) (ConstraintRuns.demons r0) !! q)
          as [r|] eqn:Hr; [| reflexivity].
        apply lookup_foldr_delete_Some in Hr as [_ Hr]. congruence.
Qed.

(** What the deletions keep: a record no deleted pointer points to, and
    a demon record that no deleted record lists. *)
Lemma delete_all_keeps (m : DemonMonitor) (l : list (Constraint * option addr))
    (a : addr) (ct : ConstraintRuns.t) :
  constraint_runs m !! a = Some ct ->
  (forall k, (k, Some a) ∉ l) ->
  constraint_runs (foldr (fun kv acc => delete_ConstraintRuns (snd kv) acc) m l) !! a
  = Some ct.
Proof.
  intros Ha. induction l as [|[k0 p] l IH]; intros Hl; simpl; [exact Ha |].
  assert (IH' : constraint_runs
                  (foldr (fun kv acc => delete_ConstraintRuns (snd kv) acc) m l) !! a
                = Some ct).
  { apply IH. intros k Hk. apply (Hl k), list_elem_of_further, Hk. }
  unfold delete_ConstraintRuns. destruct p as [p0|]; [| exact IH'].
  destruct (constraint_runs _ !! p0) eqn:Hp0; [| exact IH'].
  simpl. rewrite lookup_delete_ne; [exact IH' |].
  intros ->. apply (Hl k0), list_elem_of_here.
Qed.

Lemma delete_all_keeps_demon (m : DemonMonitor)
    (l : list (Constraint * option addr)) (q : addr) (r : DemonRuns.t) :
  demon_runs m !! q = Some r ->
  (forall k p ct, (k, Some p) ∈ l -> constraint_runs m !! p = Some ct ->
                  q ∉ ConstraintRuns.demons ct) ->
  demon_runs (foldr (fun kv acc => delete_ConstraintRuns (snd kv) acc) m l) !! q
  = Some r.
Proof.
  intros Hq. induction l as [|[k0 p] l IH]; intros Hl; simpl; [exact Hq |].
  assert (IH' : demon_runs
                  (foldr (fun kv acc => delete_ConstraintRuns (snd kv) acc) m l) !! q
                = Some r).
  { apply IH. intros k p' ct Hk. apply (Hl k), list_elem_of_further, Hk. }
  pose proof (delete_all_spec m l) as (Ha & _). simpl in Ha.
  unfold delete_ConstraintRuns. destruct p as [p0|]; [| exact IH'].
  destruct (constraint_runs _ !! p0) as [r0|] eqn:Hp0; [| exact IH'].
  simpl. rewrite lookup_foldr_delete_not_elem_of; [exact IH' |].
  apply (Hl k0 p0 r0 (list_elem_of_here _ _)), Ha, Hp0.
Qed.

Section Restart.
Context `{host : Host}.

(** C9, as the code has it.  After [RestartSearch] (called with no
    phase active) the three maps are empty; every [ConstraintRuns] the
    constraint map pointed to has left the store, and its demons with
    it; [PrintOverview] writes an empty file.  [ExportInformation] on
    a constraint does not return zeros: it finds no record and fails
    [CHECK_NOTNULL], for every constraint; on a null demon record it
    fails its check, and on a demon record that has been deleted it
    reads a deleted record.  No other record is deleted: a
    [ConstraintRuns] that no constraint was mapped to, and a
    [DemonRuns] that no record the map pointed to lists, stay in the
    store as they were. *)
Theorem RestartSearch_clears (m : DemonMonitor) :
  active_constraint_ m = None ->
  active_demon_ m = None ->
  exists m',
    RestartSearch m = Ok (tt, m')
    /\ constraint_map_ m' = ∅
    /\ demon_map_ m' = ∅
    /\ demons_per_constraint_ m' = ∅
    /\ (forall c p, constraint_map_ m !! c = Some (Some p) ->
                    constraint_runs m' !! p = None)
    /\ (forall c p ct q, constraint_map_ m !! c = Some (Some p) ->
                         constraint_runs m !! p = Some ct ->
                         q ∈ ConstraintRuns.demons ct ->
                         demon_runs m' !! q = None)
    /\ (forall filename,
          PrintOverview filename true m' = Ok (Written EmptyString, m'))
    /\ (forall constraint, ExportInformation constraint m' = CheckFailed)
    /\ ExportInformation_demon None m' = CheckFailed
    /\ (forall c p ct q, constraint_map_ m !! c = Some (Some p) ->
                         constraint_runs m !! p = Some ct ->
                         q ∈ ConstraintRuns.demons ct ->
                         ExportInformation_demon (Some q) m' = Undefined)
    /\ (forall a ct, constraint_runs m !! a = Some ct ->
                     (forall c, constraint_map_ m !! c <> Some (Some a)) ->
                     constraint_runs m' !! a = Some ct)
    /\ (forall q r, demon_runs m !! q = Some r ->
                    (forall c p ct, constraint_map_ m !! c = Some (Some p) ->
                                    constraint_runs m !! p = Some ct ->
                                    q ∉ ConstraintRuns.demons ct) ->
                    demon_runs m' !! q = Some r).
Proof.
  intros _ _. eexists. split; [reflexivity |]. simpl.
  pose proof (delete_all_spec m (map_to_list (constraint_map_ m)))
    as (_ & _ & Hc & Hd). simpl in Hc, Hd.
  split; [reflexivity |]. split; [reflexivity |]. split; [reflexivity |].
  assert (Hgone : forall c p, constraint_map_ m !! c = Some (Some p) ->
            constraint_runs (STLDeleteContainerPairSecondPointers m) !! p = None).
  { intros c p Hp. apply (Hc c p). apply elem_of_map_to_list, Hp. }
  split; [exact Hgone |].
  assert (Hdemons : forall c p ct q, constraint_map_ m !! c = Some (Some p) ->
            constraint_runs m !! p = Some ct ->
            q ∈ ConstraintRuns.demons ct ->
            demon_runs (STLDeleteContainerPairSecondPointers m) !! q = None).
  { intros c p ct q Hp Hct Hq. exact (Hd p ct q Hct (Hgone c p Hp) Hq). }
  split; [exact Hdemons |].
  split; [| split; [| split; [reflexivity | split; [| split]]]].
  - intros filename. unfold PrintOverview. unfold_op.
    rewrite map_to_list_empty. reflexivity.
  - intros [c|]; unfold ExportInformation; unfold_op; [| reflexivity].
    rewrite lookup_empty. reflexivity.
  - intros c p ct q Hp Hct Hq. unfold ExportInformation_demon. unfold_op.
    rewrite (Hdemons c p ct q Hp Hct Hq). reflexivity.
  - intros a ct Ha Hfree. apply delete_all_keeps; [exact Ha |].
    intros k Hk. apply elem_of_map_to_list in Hk. exact (Hfree k Hk).
  - intros q r Hq Hfree. apply delete_all_keeps_demon; [exact Hq |].
    intros k p ct Hk. apply elem_of_map_to_list in Hk. exact (Hfree k p ct Hk).
Qed.

End Restart.

Lemma RestartSearch_clears_witness :
  exists m',
    RestartSearch session_done = Ok (tt, m')
    /\ constraint_map_ m' = ∅
    /\ PrintOverview (host := plain_host) "overview" true m'
       = Ok (Written EmptyString, m')
    /\ ExportInformation (Some 1%positive) m' = CheckFailed.
Proof.
  destruct (RestartSearch_clears (host := plain_host) session_done)
    as (m' & Hrun & Hc & _ & _ & _ & _ & Hprint & Hexport & _);
    [reflexivity | reflexivity |].
  exists m'. repeat split; [exact Hrun | exact Hc | apply Hprint | apply Hexport].
Defined.

(** C9 as stated fails: after a finished session and [RestartSearch],
    [ExportInformation] on the session's constraint does not return
    an all-zero summary, it stops the process on a failed check. *)
Lemma ExportInformation_after_restart :
  active_constraint_ session_done = None
  /\ active_demon_ session_done = None
  /\ exists m',
       RestartSearch session_done = Ok (tt, m')
       /\ ExportInformation (Some 1%positive) m' = CheckFailed.
Proof.
  split; [reflexivity | split; [reflexivity |]].
  eexists. split; [reflexivity |]. vm_compute. reflexivity.
Qed.

(** ** A failure with both latches set leaves the monitor stuck

    Whenever [RaiseFailure] returns from a state in which a constraint
    and a demon are both active, the demon is still marked active:
    every later [StartDemonRun] fails its first check. *)
Lemma RaiseFailure_keeps_demon_latched (m m' : DemonMonitor) (wall : Z)
    (c : Constraint) (d : Demon) :
  active_constraint_ m = Some c ->
  active_demon_ m = Some d ->
  RaiseFailure wall m = Ok (tt, m') ->
  forall demon wall', StartDemonRun demon wall' m' = CheckFailed.
Proof.
  intros Hc Hd Hrun demon wall'. apply StartDemonRun_latched. exists d.
  unfold RaiseFailure in Hrun. unfold_op. rewrite Hc, Hd in Hrun. simpl in Hrun.
  destruct (constraint_map_ m !! c) as [[p|]|]; simpl in Hrun; try discriminate.
  destruct (constraint_runs m !! p) as [ct|]; simpl in Hrun; try discriminate.
  rewrite lookup_insert_eq in Hrun. simpl in Hrun.
  inversion Hrun. subst m'. simpl. exact Hd.
Qed.

(** ** Two sessions worked out

    Three runs of 10, 20 and 30 microseconds: total 60, mean 20.0,
    median 20.0, and a standard deviation that prints as 8.16. *)
Example three_runs_summary :
  exists info,
    ExportInformation_demon (Some 1%positive) three_runs = Ok (info, three_runs)
    /\ DemonExport.demon_invocations info = 3
    /\ DemonExport.total_demon_runtime info = 60
    /\ DemonExport.mean_demon_runtime info = double_of_Z 20
    /\ DemonExport.median_demon_runtime info = double_of_Z 20
    /\ printf_2lf (DemonExport.stddev_demon_runtime info) = "8.16".
Proof. eexists. split; [vm_compute; reflexivity |]. repeat split. Qed.

(** A demon registered, started and ended within the initial
    propagation of its constraint: every call returns, and the summary
    of the constraint has no failure, one demon and one invocation. *)
Example run_within_propagation_summary :
  reachable (host := plain_host) run_within_propagation
  /\ exists info m',
       ExportInformation (Some 1%positive) run_within_propagation = Ok (info, m')
       /\ ConstraintExport.fails info = 0
       /\ ConstraintExport.demons info = 1%nat
       /\ ConstraintExport.demon_invocations info = 1.
Proof.
  split.
  - exists 0, [CallStartInitialPropagation (Some 1%positive) 100;
               CallRegisterDemon (Some 2%positive);
               CallStartDemonRun (Some 2%positive) 102;
               CallEndDemonRun (Some 2%positive) 105;
               CallEndInitialPropagation (Some 1%positive) 110].
    vm_compute. reflexivity.
  - eexists _, _. split; [vm_compute; reflexivity |]. repeat split.
Qed.

(** * Further properties *)

(** ** What a method that returns has done *)

Section Returned.
Context `{host : Host}.

Lemma StartInitialPropagation_Ok (constraint : option Constraint) (wall : Z)
    (m m' : DemonMonitor) :
  StartInitialPropagation constraint wall m = Ok (tt, m') ->
  exists c,
    constraint = Some c /\ active_constraint_ m = None /\ active_demon_ m = None
    /\ m' = set_constraint_map
              (<[c := Some (fresh (dom (constraint_runs m)))]> (constraint_map_ m))
              (set_active_constraint (Some c)
                 (set_constraint_runs
                    (<[fresh (dom (constraint_runs m))
                       := ConstraintRuns.mk (Constraint_DebugString c)
                            (current_time m wall) 0 0 []]> (constraint_runs m)) m)).
Proof.
  unfold StartInitialPropagation, new_ConstraintRuns. intros H. op_cases H.
  eexists. repeat split; try eassumption. state_eq.
Qed.

Lemma EndInitialPropagation_Ok (constraint : option Constraint) (wall : Z)
    (m m' : DemonMonitor) :
  EndInitialPropagation constraint wall m = Ok (tt, m') ->
  exists c a ct,
    constraint = Some c /\ active_constraint_ m = Some c /\ active_demon_ m = None
    /\ constraint_map_ m !! c = Some (Some a) /\ constraint_runs m !! a = Some ct
    /\ m' = set_active_constraint None
              (set_constraint_runs
                 (<[a := ConstraintRuns.set_failures 0
                           (ConstraintRuns.set_initial_propagation_end_time
                              (current_time m wall) ct)]> (constraint_runs m)) m).
Proof.
  unfold EndInitialPropagation. intros H. op_cases H.
  eexists _, _, _. repeat split; try eassumption; try congruence. state_eq.
Qed.

Lemma RegisterDemon_Ok (demon : option Demon) (m m' : DemonMonitor) :
  RegisterDemon demon m = Ok (tt, m') ->
  (exists d, demon = Some d /\ is_Some (demon_map_ m !! d) /\ m' = m)
  \/ (exists d c a ct,
        demon = Some d /\ demon_map_ m !! d = None
        /\ active_constraint_ m = Some c /\ active_demon_ m = None
        /\ constraint_map_ m !! c = Some (Some a)
        /\ constraint_runs m !! a = Some ct
        /\ m' = set_demons_per_constraint
                  (<[c := default [] (demons_per_constraint_ m !! c)
                          ++ [fresh (dom (demon_runs m))]]>
                     (demons_per_constraint_ m))
                  (set_demon_map
                     (<[d := Some (fresh (dom (demon_runs m)))]> (demon_map_ m))
                     (set_demon_runs
                        (<[fresh (dom (demon_runs m))
                           := DemonRuns.mk (Demon_DebugString d) [] [] 0]>
                           (demon_runs m))
                        (set_constraint_runs
                           (<[a := ConstraintRuns.push_demon
                                     (fresh (dom (demon_runs m))) ct]>
                              (constraint_runs m)) m)))).
Proof.
  unfold RegisterDemon, add_demons, demon_map_find. intros H. op_cases H.
  - left. eexists. repeat split. assumption.
  - right. eexists _, _, _, _. repeat split; try eassumption.
    + apply eq_None_not_Some. assumption.
    + match goal with
      | E : demons_per_constraint_ _ !! _ = _ |- _ => rewrite E
      end.
      state_eq.
  - right. eexists _, _, _, _. repeat split; try eassumption.
    + apply eq_None_not_Some. assumption.
    + match goal with
      | E : demons_per_constraint_ _ !! _ = _ |- _ => rewrite E
      end.
      state_eq.
Qed.

Lemma StartDemonRun_Ok (demon : option Demon) (wall : Z) (m m' : DemonMonitor) :
  StartDemonRun demon wall m = Ok (tt, m') ->
  exists d q r,
    demon = Some d /\ active_demon_ m = None
    /\ demon_map_ m !! d = Some (Some q) /\ demon_runs m !! q = Some r
    /\ m' = set_demon_runs
              (<[q := DemonRuns.add_start_time (current_time m wall) r]> (demon_runs m))
              (set_active_demon (Some d) m).
Proof.
  unfold StartDemonRun. intros H. op_cases H.
  eexists _, _, _. repeat split; eassumption.
Qed.

Lemma EndDemonRun_Ok (demon : option Demon) (wall : Z) (m m' : DemonMonitor) :
  EndDemonRun demon wall m = Ok (tt, m') ->
  exists d q r,
    demon = Some d /\ active_demon_ m = Some d
    /\ demon_map_ m !! d = Some (Some q) /\ demon_runs m !! q = Some r
    /\ m' = set_active_demon None
              (set_demon_runs
                 (<[q := DemonRuns.add_end_time (current_time m wall) r]>
                    (demon_runs m)) m).
Proof.
  unfold EndDemonRun. intros H. op_cases H.
  eexists _, _, _. repeat split; eassumption.
Qed.

Lemma RaiseFailure_Ok (wall : Z) (m m' : DemonMonitor) :
  RaiseFailure wall m = Ok (tt, m') ->
  (exists c d a ct,
     active_constraint_ m = Some c /\ active_demon_ m = Some d
     /\ constraint_map_ m !! c = Some (Some a) /\ constraint_runs m !! a = Some ct
     /\ m' = set_active_constraint None
               (set_constraint_runs
                  (<[a := ConstraintRuns.set_failures 1
                            (ConstraintRuns.set_initial_propagation_end_time
                               (current_time m wall) ct)]> (constraint_runs m)) m))
  \/ (exists d q r,
        active_constraint_ m = None /\ active_demon_ m = Some d
        /\ demon_map_ m !! d = Some (Some q) /\ demon_runs m !! q = Some r
        /\ m' = set_active_demon None
                  (set_demon_runs
                     (<[q := DemonRuns.set_failures (add64 (DemonRuns.failures r) 1)
                               (DemonRuns.add_end_time (current_time m wall) r)]>
                        (demon_runs m)) m))
  \/ (active_constraint_ m = None /\ active_demon_ m = None /\ m' = m).
Proof.
  unfold RaiseFailure. intros H. op_cases H.
  - left. eexists _, _, _, _. repeat split; try eassumption. state_eq.
  - right. left. eexists _, _, _. repeat split; try eassumption. state_eq.
  - right. right. auto.
Qed.

Lemma AddFakeRun_Ok (demon : option Demon) (start_time end_time : Z)
    (is_fail : bool) (m m' : DemonMonitor) :
  AddFakeRun demon start_time end_time is_fail m = Ok (tt, m') ->
  exists d q r,
    demon = Some d
    /\ demon_map_ m !! d = Some (Some q) /\ demon_runs m !! q = Some r
    /\ m' = set_demon_runs
              (<[q := DemonRuns.mk (DemonRuns.demon_id r)
                        (DemonRuns.start_time r ++ [start_time])
                        (DemonRuns.end_time r ++ [end_time])
                        (if is_fail then add64 (DemonRuns.failures r) 1
                         else DemonRuns.failures r)]> (demon_runs m)) m.
Proof.
  unfold AddFakeRun. intros H. op_cases H.
  - eexists _, _, _. repeat split; try eassumption. state_eq.
  - eexists _, _, _. repeat split; try eassumption. state_eq.
Qed.
End Returned.

(** ** The invariant is kept *)

Lemma consistent_new (wall : Z) : consistent (new_DemonMonitor wall).
Proof.
  constructor; simpl; intros; try (rewrite lookup_empty in *; discriminate).
Qed.

Lemma consistent_cleared (m : DemonMonitor) :
  consistent (set_demons_per_constraint ∅ (set_demon_map ∅ (set_constraint_map ∅ m))).
Proof.
  constructor; simpl; intros; try (rewrite lookup_empty in *; discriminate).
Qed.

Lemma consistent_demon_step (m : DemonMonitor) (d : Demon) (q : addr)
    (r r' : DemonRuns.t) (ad' : option Demon) :
  consistent m ->
  demon_map_ m !! d = Some (Some q) ->
  demon_runs m !! q = Some r ->
  (length (DemonRuns.start_time r')
   = if bool_decide (ad' = Some d) then S (length (DemonRuns.end_time r'))
     else length (DemonRuns.end_time r')) ->
  (forall d', d' <> d ->
     bool_decide (ad' = Some d') = bool_decide (active_demon_ m = Some d')) ->
  consistent (set_demon_runs (<[q := r']> (demon_runs m)) (set_active_demon ad' m)).
Proof.
  intros [Hd Hown Hc Hcown Howned Hlisted Hsuffix] Hq Hr Hbal Hothers.
  constructor; simpl.
  - intros d' p Hp. destruct (Hd d' p Hp) as (q' & r0 & -> & Hr0 & Hb0).
    destruct (decide (d' = d)) as [-> | Hne].
    + assert (q' = q) by congruence. subst q'.
      exists q, r'. rewrite lookup_insert_eq. repeat split. exact Hbal.
    + assert (q' <> q) by (intros ->; apply Hne; eapply Hown; eassumption).
      exists q', r0. rewrite lookup_insert_ne by congruence.
      repeat split; [exact Hr0 |]. unfold balanced in *. simpl.
      rewrite (Hothers d' Hne). exact Hb0.
  - exact Hown.
  - exact Hc.
  - exact Hcown.
  - intros c a ct q' Hca Hct Hin. apply lookup_insert_is_Some'. right.
    eapply Howned; eassumption.
  - intros c v q' Hv Hin. apply lookup_insert_is_Some'. right.
    eapply Hlisted; eassumption.
  - exact Hsuffix.
Qed.

Lemma consistent_constraint_step (m : DemonMonitor) (a : addr)
    (ct ct' : ConstraintRuns.t) (ac' : option Constraint) :
  consistent m ->
  constraint_runs m !! a = Some ct ->
  ConstraintRuns.demons ct' = ConstraintRuns.demons ct ->
  consistent (set_active_constraint ac'
                (set_constraint_runs (<[a := ct']> (constraint_runs m)) m)).
Proof.
  intros [Hd Hown Hc Hcown Howned Hlisted Hsuffix] Ha Hdemons.
  assert (Hsame : forall a0 ct0, <[a := ct']> (constraint_runs m) !! a0 = Some ct0 ->
            exists ct1, constraint_runs m !! a0 = Some ct1
                        /\ ConstraintRuns.demons ct0 = ConstraintRuns.demons ct1).
  { intros a0 ct0 H0. destruct (decide (a0 = a)) as [-> | Hne].
    - rewrite lookup_insert_eq in H0. simplify_eq. eauto.
    - rewrite lookup_insert_ne in H0 by congruence. eauto. }
  constructor; simpl.
  - exact Hd.
  - exact Hown.
  - intros c p Hp. destruct (Hc c p Hp) as (a0 & ct0 & -> & H0).
    destruct (decide (a0 = a)) as [-> | Hne].
    + exists a, ct'. rewrite lookup_insert_eq. auto.
    + exists a0, ct0. rewrite lookup_insert_ne by congruence. auto.
  - exact Hcown.
  - intros c a0 ct0 q Hca H0 Hin. destruct (Hsame a0 ct0 H0) as (ct1 & H1 & Heq).
    rewrite Heq in Hin. eapply Howned; eassumption.
  - exact Hlisted.
  - intros c a0 ct0 Hca H0. destruct (Hsame a0 ct0 H0) as (ct1 & H1 & Heq).
    rewrite Heq. eapply Hsuffix; eassumption.
Qed.

Lemma fresh_not_live {A} (h : gmap positive A) : h !! fresh (dom h) = None.
Proof. apply not_elem_of_dom, is_fresh. Qed.

Lemma consistent_new_constraint (m : DemonMonitor) (c : Constraint)
    (ct : ConstraintRuns.t) (ac' : option Constraint) :
  consistent m ->
  ConstraintRuns.demons ct = [] ->
  consistent
    (set_constraint_map
       (<[c := Some (fresh (dom (constraint_runs m)))]> (constraint_map_ m))
       (set_active_constraint ac'
          (set_constraint_runs
             (<[fresh (dom (constraint_runs m)) := ct]> (constraint_runs m)) m))).
Proof.
  intros [Hd Hown Hc Hcown Howned Hlisted Hsuffix] Hdemons.
  pose proof (fresh_not_live (constraint_runs m)) as Hfresh.
  set (a := fresh (dom (constraint_runs m))) in *.
  assert (Hold : forall c0 a0, c0 <> c ->
            <[c := Some a]> (constraint_map_ m) !! c0 = Some (Some a0) ->
            constraint_map_ m !! c0 = Some (Some a0) /\ a0 <> a).
  { intros c0 a0 Hne H0. rewrite lookup_insert_ne in H0 by congruence.
    split; [exact H0 |]. destruct (Hc c0 _ H0) as (a1 & ct1 & Heq & H1).
    simplify_eq. congruence. }
  constructor; simpl.
  - exact Hd.
  - exact Hown.
  - intros c0 p Hp. destruct (decide (c0 = c)) as [-> | Hne].
    + rewrite lookup_insert_eq in Hp. simplify_eq.
      exists a, ct. rewrite lookup_insert_eq. auto.
    + rewrite lookup_insert_ne in Hp by congruence.
      destruct (Hc c0 p Hp) as (a0 & ct0 & -> & H0).
      exists a0, ct0. rewrite lookup_insert_ne by congruence. auto.
  - intros c0 c1 a0 H0 H1.
    destruct (decide (c0 = c)) as [-> | Hne0];
      destruct (decide (c1 = c)) as [-> | Hne1]; try reflexivity.
    + rewrite lookup_insert_eq in H0. simplify_eq.
      destruct (Hold c1 _ Hne1 H1) as [_ Hne]. congruence.
    + rewrite lookup_insert_eq in H1. simplify_eq.
      destruct (Hold c0 _ Hne0 H0) as [_ Hne]. congruence.
    + destruct (Hold c0 _ Hne0 H0) as [H0' _].
      destruct (Hold c1 _ Hne1 H1) as [H1' _]. eapply Hcown; eassumption.
  - intros c0 a0 ct0 q Hca H0 Hin. destruct (decide (c0 = c)) as [-> | Hne].
    + rewrite lookup_insert_eq in Hca. simplify_eq.
      rewrite lookup_insert_eq in H0. simplify_eq.
      rewrite Hdemons in Hin. inversion Hin.
    + destruct (Hold c0 _ Hne Hca) as [Hca' Hne'].
      rewrite lookup_insert_ne in H0 by congruence. eapply Howned; eassumption.
  - exact Hlisted.
  - intros c0 a0 ct0 Hca H0. destruct (decide (c0 = c)) as [-> | Hne].
    + rewrite lookup_insert_eq in Hca. simplify_eq.
      rewrite lookup_insert_eq in H0. simplify_eq.
      rewrite Hdemons. eexists. rewrite app_nil_r. reflexivity.
    + destruct (Hold c0 _ Hne Hca) as [Hca' Hne'].
      rewrite lookup_insert_ne in H0 by congruence. eapply Hsuffix; eassumption.
Qed.

Lemma consistent_register (m : DemonMonitor) (d : Demon) (c : Constraint)
    (a : addr) (ct : ConstraintRuns.t) (r : DemonRuns.t) :
  consistent m ->
  demon_map_ m !! d = None ->
  active_demon_ m = None ->
  constraint_map_ m !! c = Some (Some a) ->
  constraint_runs m !! a = Some ct ->
  length (DemonRuns.start_time r) = length (DemonRuns.end_time r) ->
  consistent
    (set_demons_per_constraint
       (<[c := default [] (demons_per_constraint_ m !! c)
               ++ [fresh (dom (demon_runs m))]]> (demons_per_constraint_ m))
       (set_demon_map
          (<[d := Some (fresh (dom (demon_runs m)))]> (demon_map_ m))
          (set_demon_runs
             (<[fresh (dom (demon_runs m)) := r]> (demon_runs m))
             (set_constraint_runs
                (<[a := ConstraintRuns.push_demon (fresh (dom (demon_runs m))) ct]>
                   (constraint_runs m)) m)))).
Proof.
  intros [Hd Hown Hc Hcown Howned Hlisted Hsuffix] Hnew Had Hca Hct Hbal.
  pose proof (fresh_not_live (demon_runs m)) as Hfresh.
  set (q := fresh (dom (demon_runs m))) in *.
  assert (Hlive : forall q', is_Some (demon_runs m !! q') ->
            is_Some (<[q := r]> (demon_runs m) !! q')).
  { intros q' Hq'. apply lookup_insert_is_Some'. right. exact Hq'. }
  assert (Hold : forall d0 q0, d0 <> d ->
            <[d := Some q]> (demon_map_ m) !! d0 = Some (Some q0) ->
            demon_map_ m !! d0 = Some (Some q0) /\ q0 <> q).
  { intros d0 q0 Hne H0. rewrite lookup_insert_ne in H0 by congruence.
    split; [exact H0 |]. destruct (Hd d0 _ H0) as (q1 & r1 & Heq & H1 & _).
    simplify_eq. congruence. }
  assert (Hrec : forall c0 a0 ct0,
            constraint_map_ m !! c0 = Some (Some a0) ->
            <[a := ConstraintRuns.push_demon q ct]> (constraint_runs m) !! a0
            = Some ct0 ->
            (c0 = c /\ a0 = a /\ ct0 = ConstraintRuns.push_demon q ct)
            \/ (c0 <> c /\ constraint_runs m !! a0 = Some ct0)).
  { intros c0 a0 ct0 H0 H1. destruct (decide (a0 = a)) as [-> | Hne].
    - left. rewrite lookup_insert_eq in H1. simplify_eq.
      repeat split. eapply Hcown; eassumption.
    - right. rewrite lookup_insert_ne in H1 by congruence.
      split; [| exact H1]. intros ->. congruence. }
  constructor; simpl.
  - intros d0 p Hp. destruct (decide (d0 = d)) as [-> | Hne].
    + rewrite lookup_insert_eq in Hp. simplify_eq.
      exists q, r. rewrite lookup_insert_eq. repeat split.
      unfold balanced. simpl. rewrite Had.
      rewrite bool_decide_eq_false_2 by discriminate. exact Hbal.
    + rewrite lookup_insert_ne in Hp by congruence.
      destruct (Hd d0 p Hp) as (q0 & r0 & -> & H0 & Hb0).
      exists q0, r0. rewrite lookup_insert_ne by congruence. auto.
  - intros d0 d1 q0 H0 H1.
    destruct (decide (d0 = d)) as [-> | Hne0];
      destruct (decide (d1 = d)) as [-> | Hne1]; try reflexivity.
    + rewrite lookup_insert_eq in H0. simplify_eq.
      destruct (Hold d1 _ Hne1 H1) as [_ Hne]. congruence.
    + rewrite lookup_insert_eq in H1. simplify_eq.
      destruct (Hold d0 _ Hne0 H0) as [_ Hne]. congruence.
    + destruct (Hold d0 _ Hne0 H0) as [H0' _].
      destruct (Hold d1 _ Hne1 H1) as [H1' _]. eapply Hown; eassumption.
  - intros c0 p Hp. destruct (Hc c0 p Hp) as (a0 & ct0 & -> & H0).
    destruct (decide (a0 = a)) as [-> | Hne].
    + eexists _, _. rewrite lookup_insert_eq. auto.
    + exists a0, ct0. rewrite lookup_insert_ne by congruence. auto.
  - exact Hcown.
  - intros c0 a0 ct0 q0 H0 H1 Hin.
    destruct (Hrec c0 a0 ct0 H0 H1) as [(-> & -> & ->) | [Hne H1']].
    + simpl in Hin. apply elem_of_app in Hin as [Hin | Hin].
      * apply Hlive. eapply Howned; eassumption.
      * apply list_elem_of_singleton in Hin as ->.
        rewrite lookup_insert_eq. eauto.
    + apply Hlive. eapply Howned; eassumption.
  - intros c0 v q0 Hv Hin. destruct (decide (c0 = c)) as [-> | Hne].
    + rewrite lookup_insert_eq in Hv. simplify_eq.
      apply elem_of_app in Hin as [Hin | Hin].
      * apply Hlive. destruct (demons_per_constraint_ m !! c) as [l|] eqn:Hl;
          simpl in Hin; [| inversion Hin].
        eapply Hlisted; eassumption.
      * apply list_elem_of_singleton in Hin as ->.
        rewrite lookup_insert_eq. eauto.
    + rewrite lookup_insert_ne in Hv by congruence.
      apply Hlive. eapply Hlisted; eassumption.
  - intros c0 a0 ct0 H0 H1.
    destruct (Hrec c0 a0 ct0 H0 H1) as [(-> & -> & ->) | [Hne H1']].
    + rewrite lookup_insert_eq. simpl.
      destruct (Hsuffix c a ct Hca Hct) as [older Holder].
      exists older. rewrite Holder, app_assoc. reflexivity.
    + rewrite lookup_insert_ne by congruence. eapply Hsuffix; eassumption.
Qed.

(** Queries *)

(** ** Queries leave the records alone *)

Lemma adds_empty_vectors_refl (m : DemonMonitor) : adds_empty_vectors m m.
Proof. unfold adds_empty_vectors. repeat split; auto. Qed.

Lemma adds_empty_vectors_trans (m1 m2 m3 : DemonMonitor) :
  adds_empty_vectors m1 m2 -> adds_empty_vectors m2 m3 -> adds_empty_vectors m1 m3.
Proof.
  intros (A1 & A2 & A3 & A4 & A5 & A6 & A7 & A8) (B1 & B2 & B3 & B4 & B5 & B6 & B7 & B8).
  unfold adds_empty_vectors. repeat split; try congruence.
  intros c. destruct (A8 c) as [Ha | [Ha Ha']], (B8 c) as [Hb | [Hb Hb']].
  - left. congruence.
  - right. split; congruence.
  - right. split; congruence.
  - congruence.
Qed.

Lemma adds_empty_vectors_consistent (m m' : DemonMonitor) :
  adds_empty_vectors m m' -> consistent m -> consistent m'.
Proof.
  intros (A1 & A2 & A3 & A4 & A5 & A6 & A7 & A8)
         [Hd Hown Hc Hcown Howned Hlisted Hsuffix].
  constructor; rewrite ?A4, ?A5, ?A6, ?A7; unfold balanced; rewrite ?A2;
    try assumption.
  - intros c v q Hv Hin. destruct (A8 c) as [Heq | [_ Hnew]].
    + rewrite Heq in Hv. eapply Hlisted; eassumption.
    + rewrite Hnew in Hv. simplify_eq. inversion Hin.
  - intros c a ct Hca Hct.
    assert (Hsame : default [] (demons_per_constraint_ m' !! c)
                    = default [] (demons_per_constraint_ m !! c)).
    { destruct (A8 c) as [-> | [-> ->]]; reflexivity. }
    rewrite Hsame. eapply Hsuffix; eassumption.
Qed.

Section Keeps.
Context (R : DemonMonitor -> DemonMonitor -> Prop).
Context (R_refl : forall m, R m m).
Context (R_trans : forall m1 m2 m3, R m1 m2 -> R m2 m3 -> R m1 m3).

Lemma keeps_bind {A B} (x : Op A) (k : A -> Op B) :
  keeps R x -> (forall a, keeps R (k a)) -> keeps R (bind x k).
Proof.
  intros Hx Hk m b m'' H. unfold bind in H.
  destruct (x m) as [[a m'] | | |] eqn:Hxm; try discriminate.
  eapply R_trans; [eapply Hx, Hxm | eapply Hk, H].
Qed.

Lemma keeps_reads {A} (x : Op A) : keeps eq x -> keeps R x.
Proof. intros Hx m a m' H. rewrite <- (Hx m a m' H). apply R_refl. Qed.

Lemma keeps_for_each {A S} (l : list A) (body : A -> S -> Op S) (s : S) :
  (forall x s0, keeps R (body x s0)) -> keeps R (for_each l body s).
Proof.
  intros Hbody. revert s. induction l as [|x l IH]; intros s; simpl.
  - intros m a m' H. unfold ret in H. injection H as _ <-. apply R_refl.
  - apply keeps_bind; [apply Hbody | intros s'; apply IH].
Qed.
End Keeps.

Lemma reads_bind {A B} (x : Op A) (k : A -> Op B) :
  keeps eq x -> (forall a, keeps eq (k a)) -> keeps eq (bind x k).
Proof. apply keeps_bind. intros m1 m2 m3. apply eq_trans. Qed.

Lemma reads_for_each {A S} (l : list A) (body : A -> S -> Op S) (s : S) :
  (forall x s0, keeps eq (body x s0)) -> keeps eq (for_each l body s).
Proof.
  apply keeps_for_each; [reflexivity | intros m1 m2 m3; apply eq_trans].
Qed.

Lemma reads_ret {A} (a : A) : keeps eq (ret a).
Proof. intros m b m' H. unfold ret in H. congruence. Qed.
Lemma reads_gets {A} (f : DemonMonitor -> A) : keeps eq (gets f).
Proof. intros m b m' H. unfold gets in H. congruence. Qed.
Lemma reads_CHECK (b : bool) : keeps eq (CHECK b).
Proof.
  intros m u m' H. destruct b; [| discriminate]. unfold CHECK, ret in H. congruence.
Qed.
Lemma reads_CHECK_NOTNULL {A} (p : option A) : keeps eq (CHECK_NOTNULL p).
Proof.
  intros m u m' H. destruct p; [| discriminate].
  unfold CHECK_NOTNULL, ret in H. congruence.
Qed.
Lemma reads_read_dr (p : option addr) : keeps eq (read_dr p).
Proof.
  intros m r m' H. unfold read_dr in H. destruct p; [| discriminate].
  destruct (demon_runs m !! _); [congruence | discriminate].
Qed.
Lemma reads_read_ct (p : option addr) : keeps eq (read_ct p).
Proof.
  intros m r m' H. unfold read_ct in H. destruct p; [| discriminate].
  destruct (constraint_runs m !! _); [congruence | discriminate].
Qed.
Lemma reads_vector_at {A} (v : list A) (i : nat) : keeps eq (vector_at v i).
Proof.
  unfold vector_at. destruct (v !! i); [apply reads_ret |].
  intros m a m' H. discriminate.
Qed.
Lemma reads_mean_of (total : Z) (size : nat) : keeps eq (mean_of total size).
Proof.
  destruct size; [intros m a m' H; discriminate | apply reads_ret].
Qed.
Lemma reads_div_by_size (x : spec_float) (size : nat) : keeps eq (div_by_size x size).
Proof.
  destruct size; [intros m a m' H; discriminate | apply reads_ret].
Qed.

#[global] Hint Resolve reads_ret reads_gets reads_CHECK reads_CHECK_NOTNULL
  reads_read_dr reads_read_ct reads_vector_at reads_mean_of reads_div_by_size
  reads_bind : reads.

Lemma reads_median_of (l : list spec_float) : keeps eq (median_of l).
Proof.
  unfold median_of. repeat case_bool_decide; eauto 10 with reads.
Qed.

#[global] Hint Resolve reads_median_of : reads.

Lemma reads_ExportInformation_demon (p : option addr) :
  keeps eq (ExportInformation_demon p).
Proof.
  unfold ExportInformation_demon.
  do 3 (apply reads_bind; [auto with reads | intros ?]). cbv zeta.
  destruct (length _); eauto 10 with reads.
Qed.

Lemma reads_gather_information (a : addr) (acc : Z * Z * Z) :
  keeps eq (gather_information a acc).
Proof.
  unfold gather_information. destruct acc as [[f i] t]. eauto 10 with reads.
Qed.

Lemma keeps_demons_per_constraint_at (c : Constraint) :
  keeps adds_empty_vectors (demons_per_constraint_at c).
Proof.
  intros m v m' H. unfold demons_per_constraint_at in H.
  destruct (demons_per_constraint_ m !! c) as [l|] eqn:Hl; injection H as _ <-.
  - apply adds_empty_vectors_refl; fail.
  - unfold adds_empty_vectors. simpl. repeat split; try reflexivity.
    intros c'. destruct (decide (c' = c)) as [-> | Hne].
    + right. rewrite lookup_insert_eq. auto.
    + left. rewrite lookup_insert_ne by congruence. reflexivity.
Qed.

Lemma reads_constraint_map_at_found (c : Constraint) (m m' : DemonMonitor)
    (p : addr) :
  constraint_map_at c m = Ok (Some p, m') -> m' = m.
Proof.
  unfold constraint_map_at. destruct (constraint_map_ m !! c); intros H;
    injection H as H1 H2; congruence.
Qed.

Lemma keeps_adds_bind {A B} (x : Op A) (k : A -> Op B) :
  keeps adds_empty_vectors x -> (forall a, keeps adds_empty_vectors (k a)) ->
  keeps adds_empty_vectors (bind x k).
Proof. apply keeps_bind, adds_empty_vectors_trans. Qed.

Lemma keeps_adds_reads {A} (x : Op A) :
  keeps eq x -> keeps adds_empty_vectors x.
Proof. apply keeps_reads, adds_empty_vectors_refl. Qed.

Lemma keeps_adds_for_each {A S} (l : list A) (body : A -> S -> Op S) (s : S) :
  (forall x s0, keeps adds_empty_vectors (body x s0)) ->
  keeps adds_empty_vectors (for_each l body s).
Proof.
  apply keeps_for_each; [apply adds_empty_vectors_refl | apply adds_empty_vectors_trans].
Qed.

Lemma keeps_constraint_map_at_checked {B} (c : Constraint)
    (k : option addr -> Op B) :
  (forall p, keeps adds_empty_vectors (k (Some p))) ->
  keeps adds_empty_vectors
    (let* ct_run := constraint_map_at c in CHECK_NOTNULL ct_run ;;; k ct_run).
Proof.
  intros Hk m b m' H. unfold bind at 1 in H.
  destruct (constraint_map_at c m) as [[[p|] m0] | | |] eqn:Hc; try discriminate.
  apply reads_constraint_map_at_found in Hc as ->.
  unfold bind at 1 in H. simpl in H. eapply Hk, H.
Qed.

Lemma keeps_ExportInformation (constraint : option Constraint) :
  keeps adds_empty_vectors (ExportInformation constraint).
Proof.
  unfold ExportInformation.
  apply keeps_adds_bind; [apply keeps_adds_reads; auto with reads | intros c].
  apply keeps_constraint_map_at_checked. intros p.
  apply keeps_adds_bind; [apply keeps_adds_reads; auto with reads | intros ct].
  cbv zeta.
  apply keeps_adds_bind; [apply keeps_demons_per_constraint_at | intros v].
  apply keeps_adds_bind; [apply keeps_adds_reads; auto with reads | intros _].
  apply keeps_adds_bind;
    [| intros [[f i] t]; apply keeps_adds_reads; auto with reads].
  apply keeps_adds_reads, reads_for_each. intros. apply reads_gather_information.
Qed.

Lemma registered_balanced (m : DemonMonitor) (d : Demon) (q : addr)
    (r : DemonRuns.t) :
  consistent m -> demon_map_ m !! d = Some (Some q) ->
  demon_runs m !! q = Some r -> balanced m d r.
Proof.
  intros Hm Hq Hr. destruct (demon_record m Hm d _ Hq) as (q' & r' & Heq & Hr' & Hbal).
  simplify_eq. exact Hbal.
Qed.

(** ** Every state a monitor reaches is consistent *)

Section Invariant.
Context `{host : Host}.

Lemma keeps_PrintOverview (filename : string) (is_open : bool) :
  keeps adds_empty_vectors (PrintOverview filename is_open).
Proof.
  unfold PrintOverview. destruct is_open; simpl.
  - apply keeps_adds_bind; [apply keeps_adds_reads, reads_gets | intros entries].
    apply keeps_adds_bind; [| intros file; apply keeps_adds_reads, reads_ret].
    apply keeps_adds_for_each. intros it file.
    apply keeps_adds_bind; [apply keeps_ExportInformation | intros info].
    cbv zeta.
    apply keeps_adds_bind; [apply keeps_demons_per_constraint_at | intros demons].
    apply keeps_adds_for_each. intros demon_runs file'.
    apply keeps_adds_reads.
    apply reads_bind; [apply reads_ExportInformation_demon | intros info'].
    apply reads_bind; [apply reads_read_dr | intros r].
    apply reads_ret.
  - apply keeps_adds_reads, reads_ret.
Qed.

Lemma call_consistent (c : Call) (m m' : DemonMonitor) :
  consistent m -> call c m = Ok (tt, m') -> consistent m'.
Proof.
  intros Hm H. destruct c; simpl in H.
  - apply StartInitialPropagation_Ok in H as (c & -> & _ & _ & ->).
    apply consistent_new_constraint; [exact Hm | reflexivity].
  - apply EndInitialPropagation_Ok in H as (c & a & ct & -> & _ & _ & _ & Hct & ->).
    eapply consistent_constraint_step; [exact Hm | exact Hct | reflexivity].
  - apply RegisterDemon_Ok in H
      as [(d & -> & _ & ->) | (d & c & a & ct & -> & Hd & Hc & Had & Hca & Hct & ->)].
    + exact Hm.
    + apply consistent_register; auto.
  - apply StartDemonRun_Ok in H as (d & q & r & -> & Had & Hq & Hr & ->).
    pose proof (registered_balanced m d q r Hm Hq Hr) as Hbal.
    unfold balanced in Hbal. rewrite Had in Hbal.
    rewrite bool_decide_eq_false_2 in Hbal by discriminate.
    eapply consistent_demon_step; [exact Hm | exact Hq | exact Hr | |].
    + rewrite bool_decide_eq_true_2 by reflexivity. simpl.
      rewrite length_app. simpl. lia.
    + intros d' Hne. rewrite Had.
      rewrite !bool_decide_eq_false_2 by congruence. reflexivity.
  - apply EndDemonRun_Ok in H as (d & q & r & -> & Had & Hq & Hr & ->).
    pose proof (registered_balanced m d q r Hm Hq Hr) as Hbal.
    unfold balanced in Hbal. rewrite Had in Hbal.
    rewrite bool_decide_eq_true_2 in Hbal by reflexivity.
    apply (consistent_demon_step m d q r _ None Hm Hq Hr).
    + rewrite bool_decide_eq_false_2 by discriminate. simpl.
      rewrite length_app. simpl. lia.
    + intros d' Hne. rewrite Had.
      rewrite !bool_decide_eq_false_2 by congruence. reflexivity.
  - apply RaiseFailure_Ok in H
      as [(c & d & a & ct & _ & _ & _ & Hct & ->)
         | [(d & q & r & _ & Had & Hq & Hr & ->) | (_ & _ & ->)]].
    + eapply consistent_constraint_step; [exact Hm | exact Hct | reflexivity].
    + pose proof (registered_balanced m d q r Hm Hq Hr) as Hbal.
      unfold balanced in Hbal. rewrite Had in Hbal.
      rewrite bool_decide_eq_true_2 in Hbal by reflexivity.
      apply (consistent_demon_step m d q r _ None Hm Hq Hr).
      * rewrite bool_decide_eq_false_2 by discriminate. simpl.
        rewrite length_app. simpl. lia.
      * intros d' Hne. rewrite Had.
        rewrite !bool_decide_eq_false_2 by congruence. reflexivity.
    + exact Hm.
  - apply AddFakeRun_Ok in H as (d & q & r & -> & Hq & Hr & ->).
    pose proof (registered_balanced m d q r Hm Hq Hr) as Hbal.
    unfold balanced in Hbal.
    apply (consistent_demon_step m d q r _ (active_demon_ m) Hm Hq Hr).
    + simpl. rewrite !length_app. simpl.
      destruct (bool_decide (active_demon_ m = Some d)); lia.
    + reflexivity.
  - unfold RestartSearch in H. unfold_op. injection H as <-.
    apply consistent_cleared.
  - apply (keeps_adds_bind _ _ (keeps_ExportInformation constraint)
             (fun _ => keeps_adds_reads _ (reads_ret tt))) in H.
    eapply adds_empty_vectors_consistent; eassumption.
  - apply (keeps_adds_bind _ _ (keeps_PrintOverview filename is_open)
             (fun _ => keeps_adds_reads _ (reads_ret tt))) in H.
    eapply adds_empty_vectors_consistent; eassumption.
Qed.

Lemma run_consistent (cs : list Call) (m m' : DemonMonitor) :
  consistent m -> run cs m = Ok (tt, m') -> consistent m'.
Proof.
  revert m. induction cs as [|c cs IH]; intros m Hm H; simpl in H.
  - unfold ret in H. congruence.
  - unfold bind in H. destruct (call c m) as [[[] m1] | | |] eqn:Hc; try discriminate.
    eapply IH; [eapply call_consistent; eassumption | exact H].
Qed.

Lemma reachable_consistent (m : DemonMonitor) : reachable m -> consistent m.
Proof.
  intros (wall & cs & H). eapply run_consistent; [apply consistent_new | exact H].
Qed.
End Invariant.

(** ** Outcomes within the checks *)

Lemma safe_checked {A} (P : DemonMonitor -> Prop) (x : Op A) Q (m : DemonMonitor) :
  safe P x Q -> P m -> checked (x m).
Proof.
  intros Hx Hm. specialize (Hx m Hm). unfold checked.
  destruct (x m) as [[a m'] | | |]; try contradiction; split; discriminate.
Qed.

Lemma safe_bind {A B} (P : DemonMonitor -> Prop) (x : Op A) Q (k : A -> Op B) R :
  safe P x Q -> (forall a, safe (Q a) (k a) R) -> safe P (bind x k) R.
Proof.
  intros Hx Hk m Hm. specialize (Hx m Hm). unfold bind.
  destruct (x m) as [[a m'] | | |]; try contradiction; [| exact I].
  apply (Hk a m' Hx).
Qed.

Lemma safe_weaken {A} (P P' : DemonMonitor -> Prop) (x : Op A)
    (Q Q' : A -> DemonMonitor -> Prop) :
  safe P x Q -> (forall m, P' m -> P m) -> (forall a m, Q a m -> Q' a m) ->
  safe P' x Q'.
Proof.
  intros Hx HP HQ m Hm. specialize (Hx m (HP m Hm)).
  destruct (x m) as [[a m'] | | |]; auto.
Qed.

Lemma safe_ret {A} (P : DemonMonitor -> Prop) (a : A) :
  safe P (ret a) (fun _ m => P m).
Proof. intros m Hm. exact Hm. Qed.

Lemma safe_gets {A} (P : DemonMonitor -> Prop) (f : DemonMonitor -> A) :
  safe P (gets f) (fun a m => P m /\ a = f m).
Proof. intros m Hm. simpl. auto. Qed.

Lemma safe_CHECK (P : DemonMonitor -> Prop) (b : bool) :
  safe P (CHECK b) (fun _ m => P m /\ b = true).
Proof. intros m Hm. destruct b; simpl; auto. Qed.

Lemma safe_CHECK_NOTNULL {A} (P : DemonMonitor -> Prop) (p : option A) :
  safe P (CHECK_NOTNULL p) (fun a m => P m /\ p = Some a).
Proof. intros m Hm. destruct p; simpl; auto. Qed.

Lemma safe_for_each {A S} (P : DemonMonitor -> Prop) (l : list A)
    (body : A -> S -> Op S) (s : S) :
  (forall x s0, x ∈ l -> safe P (body x s0) (fun _ m => P m)) ->
  safe P (for_each l body s) (fun _ m => P m).
Proof.
  revert s. induction l as [|x l IH]; intros s Hbody; simpl.
  - apply safe_ret.
  - eapply safe_bind; [apply Hbody, list_elem_of_here |].
    intros s'. apply IH. intros y s0 Hy. apply Hbody, list_elem_of_further, Hy.
Qed.

Lemma safe_read_dr_live (P : DemonMonitor -> Prop) (q : addr) :
  (forall m, P m -> is_Some (demon_runs m !! q)) ->
  safe P (read_dr (Some q)) (fun _ m => P m).
Proof.
  intros Hlive m Hm. unfold read_dr. destruct (Hlive m Hm) as [r ->]. exact Hm.
Qed.

Lemma safe_reads {A} (P : DemonMonitor -> Prop) (x : Op A) :
  keeps eq x -> (forall m, P m -> checked (x m)) -> safe P x (fun _ m => P m).
Proof.
  intros Hreads Hchecked m Hm. destruct (Hchecked m Hm) as [H1 H2].
  destruct (x m) as [[a m'] | | |] eqn:Hx; try congruence; [| exact I].
  rewrite (Hreads m a m' Hx) in Hm. exact Hm.
Qed.

(** [ExportInformation] of a demon on a live record never leaves the
    checked outcomes, and returns when the sizes agree. *)
Lemma ExportInformation_demon_returns (m : DemonMonitor) (q : addr)
    (r : DemonRuns.t) :
  demon_runs m !! q = Some r ->
  length (DemonRuns.start_time r) = length (DemonRuns.end_time r) ->
  exists mean median stddev,
    ExportInformation_demon (Some q) m
    = Ok (DemonExport.mk (Z.of_nat (length (DemonRuns.start_time r)))
            (DemonRuns.failures r) (foldl add64 0 (demon_times r))
            mean median stddev, m).
Proof.
  intros Hr Hlen. unfold ExportInformation_demon. unfold_op. rewrite Hr. simpl.
  unfold DemonRuns.start_time_size, DemonRuns.end_time_size.
  rewrite bool_decide_eq_true_2 by exact Hlen. simpl.
  destruct (length (map double_of_Z (demon_times r))) as [|n] eqn:Hn.
  - eexists _, _, _. reflexivity.
  - assert (Hpos : (0 < length (sort (map double_of_Z (demon_times r))))%nat)
      by (rewrite sort_length, Hn; lia).
    destruct (median_of_middle _ m Hpos) as (median & Hmed & _).
    unfold ret in Hmed. simpl. rewrite Hmed. unfold div_by_size.
    destruct (length (sort (map double_of_Z (demon_times r)))); [lia |].
    eexists _, _, _. reflexivity.
Qed.

Lemma ExportInformation_demon_unbalanced (m : DemonMonitor) (q : addr)
    (r : DemonRuns.t) :
  demon_runs m !! q = Some r ->
  length (DemonRuns.start_time r) <> length (DemonRuns.end_time r) ->
  ExportInformation_demon (Some q) m = CheckFailed.
Proof.
  intros Hr Hlen. unfold ExportInformation_demon. unfold_op. rewrite Hr. simpl.
  unfold DemonRuns.start_time_size, DemonRuns.end_time_size.
  rewrite bool_decide_eq_false_2 by exact Hlen. reflexivity.
Qed.

Lemma ExportInformation_demon_checked (m : DemonMonitor) (q : addr) :
  is_Some (demon_runs m !! q) -> checked (ExportInformation_demon (Some q) m).
Proof.
  intros [r Hr].
  destruct (decide (length (DemonRuns.start_time r) = length (DemonRuns.end_time r)))
    as [Hlen | Hlen].
  - destruct (ExportInformation_demon_returns m q r Hr Hlen) as (a & b & c & ->).
    split; discriminate.
  - rewrite (ExportInformation_demon_unbalanced m q r Hr Hlen). split; discriminate.
Qed.

Lemma gather_information_checked (m : DemonMonitor) (q : addr) (acc : Z * Z * Z) :
  is_Some (demon_runs m !! q) -> checked (gather_information q acc m).
Proof.
  intros [r Hr]. unfold gather_information. destruct acc as [[f i] t].
  unfold_op. rewrite Hr. simpl.
  destruct (bool_decide _); simpl; split; discriminate.
Qed.

Lemma ExportInformation_checked (constraint : option Constraint)
    (m : DemonMonitor) :
  consistent m -> checked (ExportInformation constraint m).
Proof.
  intros Hm. split; intros H.
  all: unfold ExportInformation in H; destruct constraint as [c|]; [| discriminate].
  all: unfold bind at 1 in H; simpl in H; unfold bind at 1 in H.
  all: unfold constraint_map_at at 1 in H.
  all: destruct (constraint_map_ m !! c) as [p|] eqn:Hc; [| discriminate].
  all: destruct (constraint_record m Hm c p Hc) as (a & ct & -> & Hct).
  all: unfold bind at 1 in H; simpl in H; unfold bind at 1 in H.
  all: unfold read_ct in H; rewrite Hct in H.
  all: unfold bind at 1 in H.
  all: destruct (demons_per_constraint_at c m) as [[v m1] | | |] eqn:Hv;
    try (unfold demons_per_constraint_at in Hv;
         destruct (demons_per_constraint_ m !! c); discriminate).
  all: pose proof (keeps_demons_per_constraint_at c m v m1 Hv) as Hadd.
  all: unfold bind at 1 in H; destruct (CHECK _ m1) as [[[] m2] | | |] eqn:Hck;
    try discriminate;
    try (unfold CHECK in Hck; destruct (bool_decide _); discriminate).
  all: apply reads_CHECK in Hck as <-.
  all: assert (Hloop : safe (fun m0 => demon_runs m0 = demon_runs m)
                (for_each (ConstraintRuns.demons ct) gather_information
                   (ConstraintRuns.failures ct, 0, 0))
                (fun _ m0 => demon_runs m0 = demon_runs m))
    by (apply safe_for_each; intros q acc Hq; apply safe_reads;
        [ apply reads_gather_information
        | intros m0 Hm0; apply gather_information_checked; rewrite Hm0;
          eapply owned_demons; eassumption ]).
  all: assert (Hdr : demon_runs m1 = demon_runs m) by (apply Hadd).
  all: specialize (Hloop m1 Hdr); unfold bind at 1 in H.
  all: destruct (for_each _ _ _ m1) as [[[[f i] t] m3] | | |]; try contradiction;
    discriminate.
Qed.

Lemma safe_ExportInformation (constraint : option Constraint) :
  safe consistent (ExportInformation constraint) (fun _ m => consistent m).
Proof.
  intros m Hm. destruct (ExportInformation_checked constraint m Hm) as [H1 H2].
  destruct (ExportInformation constraint m) as [[info m'] | | |] eqn:H;
    try congruence; [| exact I].
  eapply adds_empty_vectors_consistent; [eapply keeps_ExportInformation, H | exact Hm].
Qed.

Lemma safe_demons_per_constraint_at (c : Constraint) :
  safe consistent (demons_per_constraint_at c)
    (fun v m => consistent m /\ forall q, q ∈ v -> is_Some (demon_runs m !! q)).
Proof.
  intros m Hm. unfold demons_per_constraint_at.
  destruct (demons_per_constraint_ m !! c) as [v|] eqn:Hv.
  - split; [exact Hm |]. intros q Hq. eapply listed_demons; eassumption.
  - split; [| intros q Hq; inversion Hq].
    eapply adds_empty_vectors_consistent; [| exact Hm].
    eapply (keeps_demons_per_constraint_at c m []).
    unfold demons_per_constraint_at. rewrite Hv. reflexivity.
Qed.

Section OverviewChecked.
Context `{host : Host}.

Lemma safe_PrintOverview (filename : string) (is_open : bool) :
  safe consistent (PrintOverview filename is_open) (fun _ m => consistent m).
Proof.
  unfold PrintOverview. destruct is_open; simpl; [| apply safe_ret].
  apply (safe_bind _ _ (fun _ m => consistent m)).
  { intros m Hm. exact Hm. }
  intros entries.
  apply (safe_bind _ _ (fun _ m => consistent m)); [| intros file; apply safe_ret].
  apply safe_for_each. intros it file _.
  apply (safe_bind _ _ (fun _ m => consistent m)); [apply safe_ExportInformation |].
  intros info. cbv zeta.
  eapply safe_bind; [apply safe_demons_per_constraint_at |]. intros demons.
  apply (safe_weaken
           (fun m => consistent m
                     /\ forall q, q ∈ demons -> is_Some (demon_runs m !! q))
           _ _
           (fun _ m => consistent m
                       /\ forall q, q ∈ demons -> is_Some (demon_runs m !! q)));
    [| intros m H; exact H | intros a m [Hm _]; exact Hm].
  apply safe_for_each. intros q file' Hq. apply safe_reads.
  - apply reads_bind; [apply reads_ExportInformation_demon | intros info'].
    apply reads_bind; [apply reads_read_dr | intros r]. apply reads_ret.
  - intros m [Hm Hlive]. specialize (Hlive q Hq).
    pose proof (ExportInformation_demon_checked m q Hlive) as [H1 H2].
    unfold bind at 1.
    destruct (ExportInformation_demon (Some q) m) as [[info' m'] | | |] eqn:Hx;
      try congruence; [| split; discriminate].
    apply reads_ExportInformation_demon in Hx as <-.
    unfold bind at 1, read_dr. destruct Hlive as [r ->]. split; discriminate.
Qed.
End OverviewChecked.

Section Safety.
Context `{host : Host}.

Lemma call_checked (c : Call) (m : DemonMonitor) :
  consistent m -> checks_its_pointers c = true -> checked (call c m).
Proof.
  intros Hm Hc. destruct c; try discriminate Hc; simpl.
  - unfold checked.
    split; intros H; unfold StartInitialPropagation, new_ConstraintRuns in H;
      op_cases H.
  - unfold checked.
    split; intros H; unfold EndInitialPropagation in H; op_cases H.
    all: dangling_record.
  - unfold checked.
    split; intros H; unfold EndDemonRun in H; op_cases H.
    all: dangling_record.
  - unfold checked.
    split; intros H; unfold AddFakeRun in H; op_cases H.
    all: dangling_record.
  - split; discriminate.
  - pose proof (safe_checked _ _ _ m (safe_ExportInformation constraint) Hm) as [H1 H2].
    unfold bind. destruct (ExportInformation constraint m) as [[a m'] | | |];
      try congruence; split; discriminate.
  - pose proof (safe_checked _ _ _ m (safe_PrintOverview filename is_open) Hm)
      as [H1 H2].
    unfold bind. destruct (PrintOverview filename is_open m) as [[a m'] | | |];
      try congruence; split; discriminate.
Qed.
End Safety.

(** ** [RestartSearch] within a phase *)

Section Wedged.
Context `{host : Host}.

Lemma call_constraint_wedged (cl : Call) (m m' : DemonMonitor) (c : Constraint) :
  constraint_wedged m c -> call cl m = Ok (tt, m') -> constraint_wedged m' c.
Proof.
  intros [Hac Hmap] H. destruct cl; simpl in H.
  - apply StartInitialPropagation_Ok in H as (c0 & _ & Hnone & _). congruence.
  - apply EndInitialPropagation_Ok in H as (c0 & a & ct & _ & Hc0 & _ & Hca & _).
    congruence.
  - apply RegisterDemon_Ok in H
      as [(d & _ & _ & ->) | (d & c0 & a & ct & _ & _ & Hc0 & _ & Hca & _)].
    + split; assumption.
    + congruence.
  - apply StartDemonRun_Ok in H as (d & q & r & _ & _ & _ & _ & ->).
    split; assumption.
  - apply EndDemonRun_Ok in H as (d & q & r & _ & _ & _ & _ & ->).
    split; assumption.
  - apply RaiseFailure_Ok in H
      as [(c0 & d & a & ct & Hc0 & _ & Hca & _)
         | [(d & q & r & Hnone & _) | (_ & _ & ->)]].
    + congruence.
    + congruence.
    + split; assumption.
  - apply AddFakeRun_Ok in H as (d & q & r & _ & _ & _ & ->).
    split; assumption.
  - unfold RestartSearch in H. unfold_op. injection H as <-.
    split; simpl; [| apply lookup_empty].
    unfold STLDeleteContainerPairSecondPointers.
    induction (map_to_list (constraint_map_ m)) as [|[k p] l IH]; simpl; [exact Hac |].
    unfold delete_ConstraintRuns. destruct p as [a|]; [| exact IH].
    destruct (constraint_runs _ !! a); exact IH.
  - apply (keeps_adds_bind _ _ (keeps_ExportInformation constraint)
             (fun _ => keeps_adds_reads _ (reads_ret tt))) in H
      as (H1 & _ & _ & H4 & _).
    split; congruence.
  - apply (keeps_adds_bind _ _ (keeps_PrintOverview filename is_open)
             (fun _ => keeps_adds_reads _ (reads_ret tt))) in H
      as (H1 & _ & _ & H4 & _).
    split; congruence.
Qed.

Lemma call_demon_wedged (cl : Call) (m m' : DemonMonitor) (d : Demon) :
  demon_wedged m d -> call cl m = Ok (tt, m') -> demon_wedged m' d.
Proof.
  intros [Had Hmap] H. destruct cl; simpl in H.
  - apply StartInitialPropagation_Ok in H as (c0 & _ & _ & Hnone & _). congruence.
  - apply EndInitialPropagation_Ok in H as (c0 & a & ct & _ & _ & Hnone & _).
    congruence.
  - apply RegisterDemon_Ok in H
      as [(d0 & _ & _ & ->) | (d0 & c0 & a & ct & _ & _ & _ & Hnone & _)].
    + split; assumption.
    + congruence.
  - apply StartDemonRun_Ok in H as (d0 & q & r & _ & Hnone & _). congruence.
  - apply EndDemonRun_Ok in H as (d0 & q & r & _ & Hd0 & Hq & _). congruence.
  - apply RaiseFailure_Ok in H
      as [(c0 & d0 & a & ct & _ & _ & _ & _ & ->)
         | [(d0 & q & r & _ & Hd0 & Hq & _) | (_ & Hnone & _)]].
    + split; assumption.
    + congruence.
    + congruence.
  - apply AddFakeRun_Ok in H as (d0 & q & r & _ & _ & _ & ->).
    split; assumption.
  - unfold RestartSearch in H. unfold_op. injection H as <-.
    split; simpl; [| apply lookup_empty].
    unfold STLDeleteContainerPairSecondPointers.
    induction (map_to_list (constraint_map_ m)) as [|[k p] l IH]; simpl; [exact Had |].
    unfold delete_ConstraintRuns. destruct p as [a|]; [| exact IH].
    destruct (constraint_runs _ !! a); exact IH.
  - apply (keeps_adds_bind _ _ (keeps_ExportInformation constraint)
             (fun _ => keeps_adds_reads _ (reads_ret tt))) in H
      as (_ & H2 & _ & _ & H5 & _).
    split; congruence.
  - apply (keeps_adds_bind _ _ (keeps_PrintOverview filename is_open)
             (fun _ => keeps_adds_reads _ (reads_ret tt))) in H
      as (_ & H2 & _ & _ & H5 & _).
    split; congruence.
Qed.

Lemma run_invariant (P : DemonMonitor -> Prop) (cs : list Call)
    (m m' : DemonMonitor) :
  (forall cl m0 m1, P m0 -> call cl m0 = Ok (tt, m1) -> P m1) ->
  P m -> run cs m = Ok (tt, m') -> P m'.
Proof.
  intros Hstep. revert m. induction cs as [|cl cs IH]; intros m Hm H; simpl in H.
  - unfold ret in H. congruence.
  - unfold bind in H. destruct (call cl m) as [[[] m1] | | |] eqn:Hc; try discriminate.
    eapply IH; [eapply Hstep; eassumption | exact H].
Qed.

(** [RestartSearch] keeps both latches. *)
Lemma RestartSearch_latches (m m' : DemonMonitor) :
  RestartSearch m = Ok (tt, m') ->
  active_constraint_ m' = active_constraint_ m
  /\ active_demon_ m' = active_demon_ m
  /\ constraint_map_ m' = ∅ /\ demon_map_ m' = ∅.
Proof.
  intros H. unfold RestartSearch in H. unfold_op. injection H as <-. simpl.
  assert (Hl : active_constraint_ (STLDeleteContainerPairSecondPointers m)
               = active_constraint_ m
               /\ active_demon_ (STLDeleteContainerPairSecondPointers m)
                  = active_demon_ m).
  { unfold STLDeleteContainerPairSecondPointers.
    induction (map_to_list (constraint_map_ m)) as [|[k p] l IH]; simpl; [auto |].
    unfold delete_ConstraintRuns. destruct p as [a|]; [| exact IH].
    destruct (constraint_runs _ !! a); exact IH. }
  destruct Hl. auto.
Qed.

(** X7.  [RestartSearch] called while a constraint is in its initial
    propagation leaves that constraint active without a record.
    Whatever calls return afterwards, the constraint stays active: no
    [StartInitialPropagation] returns any more, [EndInitialPropagation]
    of it fails, and registering a new demon dereferences a null
    record. *)
Theorem restart_in_propagation_wedges (m m1 m2 : DemonMonitor) (c : Constraint)
    (cs : list Call) :
  active_constraint_ m = Some c ->
  RestartSearch m = Ok (tt, m1) ->
  run cs m1 = Ok (tt, m2) ->
  active_constraint_ m2 = Some c
  /\ (forall constraint wall,
        StartInitialPropagation constraint wall m2 = CheckFailed)
  /\ (forall wall, EndInitialPropagation (Some c) wall m2 = CheckFailed)
  /\ (forall d, active_demon_ m2 = None -> demon_map_ m2 !! d = None ->
                RegisterDemon (Some d) m2 = Undefined).
Proof.
  intros Hc Hrestart Hrun.
  apply RestartSearch_latches in Hrestart as (Hac & _ & Hmap & _).
  assert (Hw : constraint_wedged m2 c).
  { eapply (run_invariant (fun m0 => constraint_wedged m0 c));
      [intros cl m0 m1' H0 H1; eapply call_constraint_wedged; eassumption
      | | exact Hrun].
    split; [congruence |]. rewrite Hmap. apply lookup_empty. }
  destruct Hw as [Hac2 Hmap2]. split; [exact Hac2 |].
  split; [| split].
  - intros constraint wall. apply StartInitialPropagation_latched.
    left. rewrite Hac2. eauto.
  - intros wall. unfold EndInitialPropagation. unfold_op. rewrite Hac2. simpl.
    destruct (active_demon_ m2); [reflexivity |]. simpl.
    rewrite bool_decide_eq_true_2 by reflexivity. rewrite Hmap2. reflexivity.
  - intros d Had Hd. unfold RegisterDemon, demon_map_find, add_demons. unfold_op.
    rewrite bool_decide_eq_false_2 by (rewrite Hd; intros [x Hx]; discriminate).
    rewrite Hac2, Had. simpl. rewrite Hmap2. reflexivity.
Qed.

(** X8.  [RestartSearch] called while a demon runs leaves that demon
    active without a record.  Whatever calls return afterwards, the
    demon stays active: neither [StartDemonRun] nor
    [StartInitialPropagation] returns any more, [EndDemonRun] of it
    fails, and a failure signalled with no constraint active
    dereferences a null record. *)
Theorem restart_in_run_wedges (m m1 m2 : DemonMonitor) (d : Demon)
    (cs : list Call) :
  active_demon_ m = Some d ->
  RestartSearch m = Ok (tt, m1) ->
  run cs m1 = Ok (tt, m2) ->
  active_demon_ m2 = Some d
  /\ (forall demon wall, StartDemonRun demon wall m2 = CheckFailed)
  /\ (forall constraint wall,
        StartInitialPropagation constraint wall m2 = CheckFailed)
  /\ (forall wall, EndDemonRun (Some d) wall m2 = CheckFailed)
  /\ (forall wall, active_constraint_ m2 = None -> RaiseFailure wall m2 = Undefined).
Proof.
  intros Hd Hrestart Hrun.
  apply RestartSearch_latches in Hrestart as (_ & Had & _ & Hmap).
  assert (Hw : demon_wedged m2 d).
  { eapply (run_invariant (fun m0 => demon_wedged m0 d));
      [intros cl m0 m1' H0 H1; eapply call_demon_wedged; eassumption
      | | exact Hrun].
    split; [congruence |]. rewrite Hmap. apply lookup_empty. }
  destruct Hw as [Had2 Hmap2]. split; [exact Had2 |].
  split; [| split; [| split]].
  - intros demon wall. apply StartDemonRun_latched. rewrite Had2. eauto.
  - intros constraint wall. apply StartInitialPropagation_latched.
    right. rewrite Had2. eauto.
  - intros wall. apply EndDemonRun_unregistered, Hmap2.
  - intros wall Hac. unfold RaiseFailure. unfold_op. rewrite Hac, Had2. simpl.
    rewrite Hmap2. reflexivity.
Qed.
End Wedged.

(** ** The states a monitor reaches *)

Lemma demon_open_reachable : reachable (host := plain_host) demon_open.
Proof.
  exists 0, [CallStartInitialPropagation (Some 1%positive) 100;
             CallRegisterDemon (Some 2%positive);
             CallEndInitialPropagation (Some 1%positive) 110;
             CallStartDemonRun (Some 2%positive) 120].
  vm_compute. reflexivity.
Qed.

Lemma session_done_reachable : reachable (host := plain_host) session_done.
Proof.
  exists 0, [CallStartInitialPropagation (Some 1%positive) 100;
             CallRegisterDemon (Some 2%positive);
             CallEndInitialPropagation (Some 1%positive) 110;
             CallAddFakeRun (Some 2%positive) 200 205 false;
             CallAddFakeRun (Some 2%positive) 300 315 true].
  vm_compute. reflexivity.
Qed.

Lemma propagated_twice_reachable : reachable (host := plain_host) propagated_twice.
Proof.
  exists 0, [CallStartInitialPropagation (Some 1%positive) 100;
             CallRegisterDemon (Some 2%positive);
             CallEndInitialPropagation (Some 1%positive) 110;
             CallStartInitialPropagation (Some 1%positive) 120;
             CallEndInitialPropagation (Some 1%positive) 130].
  vm_compute. reflexivity.
Qed.

Section Reachable.
Context `{host : Host}.

(** X1.  In every state a monitor can reach, a demon in [demon_map_]
    is mapped to a record that is not null and is still allocated, and
    the record has as many start as end times, plus one start time
    exactly when the demon is the active one. *)
Theorem registered_demon_record (m : DemonMonitor) (d : Demon) (p : option addr) :
  reachable m ->
  demon_map_ m !! d = Some p ->
  exists q r,
    p = Some q /\ demon_runs m !! q = Some r
    /\ length (DemonRuns.start_time r)
       = if bool_decide (active_demon_ m = Some d)
         then S (length (DemonRuns.end_time r))
         else length (DemonRuns.end_time r).
Proof.
  intros Hm Hd. apply reachable_consistent in Hm.
  exact (demon_record m Hm d p Hd).
Qed.

(** X2.  In every state a monitor can reach, two demons never share a
    record and two constraints never share a record. *)
Theorem records_not_shared (m : DemonMonitor) :
  reachable m ->
  (forall d d' q, demon_map_ m !! d = Some (Some q) ->
                  demon_map_ m !! d' = Some (Some q) -> d = d')
  /\ (forall c c' a, constraint_map_ m !! c = Some (Some a) ->
                     constraint_map_ m !! c' = Some (Some a) -> c = c').
Proof.
  intros Hm. apply reachable_consistent in Hm.
  split; [exact (demon_record_own m Hm) | exact (constraint_record_own m Hm)].
Qed.

(** X3.  In every state a monitor can reach, a constraint in
    [constraint_map_] is mapped to an allocated record; the demon
    records the record lists are all allocated, and they are the last
    entries of [demons_per_constraint_] for the constraint, in the same
    order. *)
Theorem constraint_record_demons (m : DemonMonitor) (c : Constraint)
    (p : option addr) :
  reachable m ->
  constraint_map_ m !! c = Some p ->
  exists a ct older,
    p = Some a /\ constraint_runs m !! a = Some ct
    /\ (forall q, q ∈ ConstraintRuns.demons ct -> is_Some (demon_runs m !! q))
    /\ default [] (demons_per_constraint_ m !! c)
       = older ++ ConstraintRuns.demons ct.
Proof.
  intros Hm Hc. apply reachable_consistent in Hm.
  destruct (constraint_record m Hm c p Hc) as (a & ct & -> & Ha).
  destruct (owned_listed m Hm c a ct Hc Ha) as [older Holder].
  exists a, ct, older. repeat split; try assumption.
  intros q Hq. exact (owned_demons m Hm c a ct q Hc Ha Hq).
Qed.

(** X4.  In every state a monitor can reach, the methods other than
    [RegisterDemon], [StartDemonRun] and [RaiseFailure] return or fail
    one of their checks, whatever their arguments: they never read
    through a null or dangling record pointer and never divide by
    zero. *)
Theorem reachable_call_checked (m : DemonMonitor) (c : Call) :
  reachable m ->
  checks_its_pointers c = true ->
  call c m <> Undefined /\ call c m <> DivisionByZero.
Proof.
  intros Hm Hc. apply reachable_consistent in Hm.
  exact (call_checked c m Hm Hc).
Qed.

(** X5.  When [ExportInformation] of a constraint returns, the latches,
    the three maps' records and every record are as before; the only
    change it can make is an empty vector in [demons_per_constraint_]
    for a constraint that had no entry. *)
Theorem ExportInformation_frame (constraint : option Constraint)
    (m m' : DemonMonitor) (info : ConstraintExport.t) :
  ExportInformation constraint m = Ok (info, m') ->
  adds_empty_vectors m m'.
Proof. apply keeps_ExportInformation. Qed.

(** X6.  When [PrintOverview] returns, the latches, the maps of records
    and every record are as before; the only change it can make is an
    empty vector in [demons_per_constraint_] for constraints that had no
    entry. *)
Theorem PrintOverview_frame (filename : string) (is_open : bool)
    (m m' : DemonMonitor) (o : Overview) :
  PrintOverview filename is_open m = Ok (o, m') ->
  adds_empty_vectors m m'.
Proof. apply keeps_PrintOverview. Qed.

End Reachable.

Lemma registered_demon_record_witness :
  reachable (host := plain_host) demon_open
  /\ demon_map_ demon_open !! 2%positive = Some (Some 1%positive)
  /\ exists q r,
       Some 1%positive = Some q /\ demon_runs demon_open !! q = Some r
       /\ length (DemonRuns.start_time r)
          = if bool_decide (active_demon_ demon_open = Some 2%positive)
            then S (length (DemonRuns.end_time r))
            else length (DemonRuns.end_time r).
Proof.
  split; [exact demon_open_reachable | split; [reflexivity |]].
  exact (registered_demon_record (host := plain_host) demon_open 2%positive
           (Some 1%positive) demon_open_reachable eq_refl).
Defined.

Lemma records_not_shared_witness :
  reachable (host := plain_host) session_done
  /\ (forall d d' q, demon_map_ session_done !! d = Some (Some q) ->
                     demon_map_ session_done !! d' = Some (Some q) -> d = d')
  /\ (forall c c' a, constraint_map_ session_done !! c = Some (Some a) ->
                     constraint_map_ session_done !! c' = Some (Some a) -> c = c').
Proof.
  split; [exact session_done_reachable |].
  exact (records_not_shared (host := plain_host) session_done
           session_done_reachable).
Defined.

Lemma constraint_record_demons_witness :
  reachable (host := plain_host) propagated_twice
  /\ constraint_map_ propagated_twice !! 1%positive = Some (Some 2%positive)
  /\ exists a ct older,
       Some 2%positive = Some a /\ constraint_runs propagated_twice !! a = Some ct
       /\ (forall q, q ∈ ConstraintRuns.demons ct ->
                     is_Some (demon_runs propagated_twice !! q))
       /\ default [] (demons_per_constraint_ propagated_twice !! 1%positive)
          = older ++ ConstraintRuns.demons ct.
Proof.
  split; [exact propagated_twice_reachable | split; [reflexivity |]].
  exact (constraint_record_demons (host := plain_host) propagated_twice 1%positive
           (Some 2%positive) propagated_twice_reachable eq_refl).
Defined.

Lemma reachable_call_checked_witness :
  reachable (host := plain_host) demon_open
  /\ checks_its_pointers (CallExportInformation (Some 1%positive)) = true
  /\ call (host := plain_host) (CallExportInformation (Some 1%positive)) demon_open
     <> Undefined
  /\ call (host := plain_host) (CallExportInformation (Some 1%positive)) demon_open
     <> DivisionByZero.
Proof.
  split; [exact demon_open_reachable | split; [reflexivity |]].
  exact (reachable_call_checked (host := plain_host) demon_open
           (CallExportInformation (Some 1%positive)) demon_open_reachable eq_refl).
Defined.

Lemma ExportInformation_frame_witness :
  exists info m',
    ExportInformation (Some 1%positive) session_done = Ok (info, m')
    /\ adds_empty_vectors session_done m'.
Proof.
  eexists _, _. split; [vm_compute; reflexivity |].
  eapply (ExportInformation_frame (Some 1%positive) session_done).
  vm_compute. reflexivity.
Defined.

Lemma PrintOverview_frame_witness :
  exists o m',
    PrintOverview (host := plain_host) "overview" true session_done = Ok (o, m')
    /\ adds_empty_vectors session_done m'.
Proof.
  eexists _, _. split; [vm_compute; reflexivity |].
  eapply (PrintOverview_frame (host := plain_host) "overview" true session_done).
  vm_compute. reflexivity.
Defined.

Lemma restart_in_propagation_wedges_witness :
  active_constraint_ constraint_open = Some 1%positive
  /\ RestartSearch constraint_open = Ok (tt, constraint_open_restarted)
  /\ run (host := plain_host) [CallRestartSearch; CallPrintOverview "overview" true]
       constraint_open_restarted
     = Ok (tt, constraint_open_restarted)
  /\ active_constraint_ constraint_open_restarted = Some 1%positive
  /\ (forall constraint wall,
        StartInitialPropagation (host := plain_host) constraint wall
          constraint_open_restarted = CheckFailed)
  /\ (forall wall, EndInitialPropagation (Some 1%positive) wall
                     constraint_open_restarted = CheckFailed)
  /\ (forall d, active_demon_ constraint_open_restarted = None ->
                demon_map_ constraint_open_restarted !! d = None ->
                RegisterDemon (host := plain_host) (Some d)
                  constraint_open_restarted = Undefined).
Proof.
  assert (H1 : active_constraint_ constraint_open = Some 1%positive)
    by reflexivity.
  assert (H2 : RestartSearch constraint_open = Ok (tt, constraint_open_restarted))
    by (vm_compute; reflexivity).
  assert (H3 : run (host := plain_host)
                 [CallRestartSearch; CallPrintOverview "overview" true]
                 constraint_open_restarted
               = Ok (tt, constraint_open_restarted))
    by (vm_compute; reflexivity).
  split; [exact H1 | split; [exact H2 | split; [exact H3 |]]].
  exact (restart_in_propagation_wedges (host := plain_host) constraint_open
           constraint_open_restarted constraint_open_restarted 1%positive
           [CallRestartSearch; CallPrintOverview "overview" true] H1 H2 H3).
Defined.

Lemma restart_in_run_wedges_witness :
  active_demon_ demon_open = Some 2%positive
  /\ RestartSearch demon_open = Ok (tt, demon_open_restarted)
  /\ run (host := plain_host) [CallPrintOverview "overview" true]
       demon_open_restarted
     = Ok (tt, demon_open_restarted)
  /\ active_demon_ demon_open_restarted = Some 2%positive
  /\ (forall demon wall,
        StartDemonRun demon wall demon_open_restarted = CheckFailed)
  /\ (forall constraint wall,
        StartInitialPropagation (host := plain_host) constraint wall
          demon_open_restarted = CheckFailed)
  /\ (forall wall, EndDemonRun (Some 2%positive) wall demon_open_restarted
                   = CheckFailed)
  /\ (forall wall, active_constraint_ demon_open_restarted = None ->
                   RaiseFailure wall demon_open_restarted = Undefined).
Proof.
  assert (H1 : active_demon_ demon_open = Some 2%positive) by reflexivity.
  assert (H2 : RestartSearch demon_open = Ok (tt, demon_open_restarted))
    by (vm_compute; reflexivity).
  assert (H3 : run (host := plain_host) [CallPrintOverview "overview" true]
                 demon_open_restarted
               = Ok (tt, demon_open_restarted))
    by (vm_compute; reflexivity).
  split; [exact H1 | split; [exact H2 | split; [exact H3 |]]].
  exact (restart_in_run_wedges (host := plain_host) demon_open
           demon_open_restarted demon_open_restarted 2%positive
           [CallPrintOverview "overview" true] H1 H2 H3).
Defined.

(** ** When the recording methods return *)

Section Outcomes.
Context `{host : Host}.

(** X9.  [StartInitialPropagation] returns exactly when no constraint
    and no demon is active and its argument is not null.  It then makes
    a new record at an unused address, with the constraint's debug
    string, the current time as start time and no demon, maps the
    constraint to it and makes the constraint the active one; a record
    the constraint was mapped to before stays allocated. *)
Theorem StartInitialPropagation_returns_iff (constraint : option Constraint)
    (wall : Z) (m m' : DemonMonitor) :
  StartInitialPropagation constraint wall m = Ok (tt, m')
  <-> exists c,
        constraint = Some c /\ active_constraint_ m = None
        /\ active_demon_ m = None
        /\ m' = set_constraint_map
                  (<[c := Some (fresh (dom (constraint_runs m)))]>
                     (constraint_map_ m))
                  (set_active_constraint (Some c)
                     (set_constraint_runs
                        (<[fresh (dom (constraint_runs m))
                           := ConstraintRuns.mk (Constraint_DebugString c)
                                (current_time m wall) 0 0 []]>
                           (constraint_runs m)) m)).
Proof.
  split; [apply StartInitialPropagation_Ok |].
  intros (c & -> & Hac & Had & ->).
  unfold StartInitialPropagation, new_ConstraintRuns. unfold_op.
  repeat (progress (simpl; simpl_state; rewrite ?Hac, ?Had, ?lookup_insert_eq)).
  do 2 f_equal. state_eq.
Qed.

Lemma EndInitialPropagation_returns (m : DemonMonitor) (c : Constraint)
    (a : addr) (ct : ConstraintRuns.t) (wall : Z) :
  active_constraint_ m = Some c ->
  active_demon_ m = None ->
  constraint_map_ m !! c = Some (Some a) ->
  constraint_runs m !! a = Some ct ->
  EndInitialPropagation (Some c) wall m
  = Ok (tt, set_active_constraint None
              (set_constraint_runs
                 (<[a := ConstraintRuns.set_failures 0
                           (ConstraintRuns.set_initial_propagation_end_time
                              (current_time m wall) ct)]>
                    (constraint_runs m)) m)).
Proof.
  intros Hac Had Hc Ha. unfold EndInitialPropagation. unfold_op.
  repeat (progress (simpl; simpl_state;
                    rewrite ?Hac, ?Had, ?Hc, ?Ha, ?lookup_insert_eq,
                      ?bool_decide_eq_true_2 by reflexivity)).
  do 2 f_equal. state_eq.
Qed.

(** X10.  [EndInitialPropagation] returns exactly when its argument is
    the active constraint, no demon is active, and the constraint is
    mapped to an allocated record.  It then stores the current time as
    the record's end time, sets the record's failures to 0 and clears
    the active constraint; nothing else changes. *)
Theorem EndInitialPropagation_returns_iff (constraint : option Constraint)
    (wall : Z) (m m' : DemonMonitor) :
  EndInitialPropagation constraint wall m = Ok (tt, m')
  <-> exists c a ct,
        constraint = Some c /\ active_constraint_ m = Some c
        /\ active_demon_ m = None
        /\ constraint_map_ m !! c = Some (Some a)
        /\ constraint_runs m !! a = Some ct
        /\ m' = set_active_constraint None
                  (set_constraint_runs
                     (<[a := ConstraintRuns.set_failures 0
                               (ConstraintRuns.set_initial_propagation_end_time
                                  (current_time m wall) ct)]>
                        (constraint_runs m)) m).
Proof.
  split; [apply EndInitialPropagation_Ok |].
  intros (c & a & ct & -> & Hac & Had & Hc & Ha & ->).
  apply EndInitialPropagation_returns; assumption.
Qed.

(** X11.  [RegisterDemon] of a demon that is not in [demon_map_] returns
    exactly when a constraint is active, no demon is active and the
    constraint is mapped to an allocated record.  It then makes a
    record at an unused address, with the demon's debug string, no run
    and no failure, appends it to the constraint's record and to the
    constraint's entry of [demons_per_constraint_], and maps the demon
    to it. *)
Theorem RegisterDemon_new (d : Demon) (m m' : DemonMonitor) :
  demon_map_ m !! d = None ->
  RegisterDemon (Some d) m = Ok (tt, m')
  <-> exists c a ct,
        active_constraint_ m = Some c /\ active_demon_ m = None
        /\ constraint_map_ m !! c = Some (Some a)
        /\ constraint_runs m !! a = Some ct
        /\ m' = set_demons_per_constraint
                  (<[c := default [] (demons_per_constraint_ m !! c)
                          ++ [fresh (dom (demon_runs m))]]>
                     (demons_per_constraint_ m))
                  (set_demon_map
                     (<[d := Some (fresh (dom (demon_runs m)))]> (demon_map_ m))
                     (set_demon_runs
                        (<[fresh (dom (demon_runs m))
                           := DemonRuns.mk (Demon_DebugString d) [] [] 0]>
                           (demon_runs m))
                        (set_constraint_runs
                           (<[a := ConstraintRuns.push_demon
                                     (fresh (dom (demon_runs m))) ct]>
                              (constraint_runs m)) m))).
Proof.
  intros Hd. split.
  - intros H. apply RegisterDemon_Ok in H
      as [(d0 & Hd0 & [p Hp] & _) | (d0 & c & a & ct & Hd0 & _ & Hrest)].
    + congruence.
    + injection Hd0 as <-. exists c, a, ct. exact Hrest.
  - intros (c & a & ct & Hac & Had & Hc & Ha & ->).
    unfold RegisterDemon, demon_map_find, add_demons. unfold_op.
    rewrite bool_decide_eq_false_2 by (rewrite Hd; intros [x Hx]; discriminate).
    destruct (demons_per_constraint_ m !! c) as [v|] eqn:Hv;
      repeat (progress (simpl; simpl_state;
                        rewrite ?Hac, ?Had, ?Hc, ?Ha, ?Hv, ?lookup_insert_eq));
      do 2 f_equal; state_eq.
Qed.

End Outcomes.

Lemma EndDemonRun_returns (m : DemonMonitor) (d : Demon) (q : addr)
    (r : DemonRuns.t) (wall : Z) :
  active_demon_ m = Some d ->
  demon_map_ m !! d = Some (Some q) ->
  demon_runs m !! q = Some r ->
  EndDemonRun (Some d) wall m
  = Ok (tt, set_active_demon None
              (set_demon_runs
                 (<[q := DemonRuns.add_end_time (current_time m wall) r]>
                    (demon_runs m)) m)).
Proof.
  intros Had Hd Hq. unfold EndDemonRun. unfold_op.
  repeat (progress (simpl; simpl_state;
                    rewrite ?Had, ?Hd, ?Hq, ?lookup_insert_eq,
                      ?bool_decide_eq_true_2 by reflexivity)).
  reflexivity.
Qed.

(** X12.  [EndDemonRun] returns exactly when its argument is the active
    demon and the demon is mapped to an allocated record.  It then
    appends the current time to the record's end times and clears the
    active demon; nothing else changes. *)
Theorem EndDemonRun_returns_iff (demon : option Demon) (wall : Z)
    (m m' : DemonMonitor) :
  EndDemonRun demon wall m = Ok (tt, m')
  <-> exists d q r,
        demon = Some d /\ active_demon_ m = Some d
        /\ demon_map_ m !! d = Some (Some q) /\ demon_runs m !! q = Some r
        /\ m' = set_active_demon None
                  (set_demon_runs
                     (<[q := DemonRuns.add_end_time (current_time m wall) r]>
                        (demon_runs m)) m).
Proof.
  split; [apply EndDemonRun_Ok |].
  intros (d & q & r & -> & Had & Hd & Hq & ->).
  apply EndDemonRun_returns; assumption.
Qed.

(** X13.  [AddFakeRun] looks at neither latch: it returns exactly when
    its demon is not null and is mapped to an allocated record.  It
    then appends the given start and end time to the record and, when
    [is_fail] is set, adds one to the record's failures; nothing else
    changes. *)
Theorem AddFakeRun_returns_iff (demon : option Demon) (start_time end_time : Z)
    (is_fail : bool) (m m' : DemonMonitor) :
  AddFakeRun demon start_time end_time is_fail m = Ok (tt, m')
  <-> exists d q r,
        demon = Some d
        /\ demon_map_ m !! d = Some (Some q) /\ demon_runs m !! q = Some r
        /\ m' = set_demon_runs
                  (<[q := DemonRuns.mk (DemonRuns.demon_id r)
                            (DemonRuns.start_time r ++ [start_time])
                            (DemonRuns.end_time r ++ [end_time])
                            (if is_fail then add64 (DemonRuns.failures r) 1
                             else DemonRuns.failures r)]> (demon_runs m)) m.
Proof.
  split; [apply AddFakeRun_Ok |].
  intros (d & q & r & -> & Hd & Hq & ->).
  unfold AddFakeRun. unfold_op.
  destruct is_fail;
    repeat (progress (simpl; simpl_state; rewrite ?Hd, ?Hq, ?lookup_insert_eq));
    do 2 f_equal; state_eq.
Qed.

(** ** A profiled run, and the summaries *)

Lemma sub64_current_time (w1 w2 s : Z) :
  in_int64 (w1 - s) -> in_int64 (w2 - s) -> in_int64 (w2 - w1) ->
  sub64 (sub64 w2 s) (sub64 w1 s) = w2 - w1.
Proof.
  intros H1 H2 H. rewrite (sub64_exact w2 s H2), (sub64_exact w1 s H1).
  rewrite sub64_exact; [lia |]. replace (w2 - s - (w1 - s)) with (w2 - w1) by lia.
  exact H.
Qed.

Lemma demon_times_snoc (r : DemonRuns.t) (s e : Z) :
  length (DemonRuns.start_time r) = length (DemonRuns.end_time r) ->
  demon_times (DemonRuns.add_end_time e (DemonRuns.add_start_time s r))
  = demon_times r ++ [sub64 e s].
Proof.
  intros Hlen. unfold demon_times. simpl.
  rewrite zip_with_app by (symmetry; exact Hlen). reflexivity.
Qed.

(** X14.  [DemonProfiler::Run] of a registered demon that is not running,
    when the wrapped demon's own [Run] returns with the demon still
    active and its record untouched: the call returns, the record gets
    one more run, whose time is the difference of the two wall-clock
    readings, its failures stay, and the latch is cleared. *)
Theorem DemonProfiler_Run_records (m m2 : DemonMonitor) (d : Demon) (q : addr)
    (r : DemonRuns.t) (demon_Run : Op unit) (w1 w2 : Z) :
  active_demon_ m = None ->
  demon_map_ m !! d = Some (Some q) ->
  demon_runs m !! q = Some r ->
  length (DemonRuns.start_time r) = length (DemonRuns.end_time r) ->
  demon_Run (set_demon_runs
               (<[q := DemonRuns.add_start_time (current_time m w1) r]>
                  (demon_runs m))
               (set_active_demon (Some d) m)) = Ok (tt, m2) ->
  active_demon_ m2 = Some d ->
  demon_map_ m2 !! d = Some (Some q) ->
  demon_runs m2 !! q = Some (DemonRuns.add_start_time (current_time m w1) r) ->
  start_time_ m2 = start_time_ m ->
  in_int64 (w1 - start_time_ m) -> in_int64 (w2 - start_time_ m) ->
  in_int64 (w2 - w1) ->
  exists r',
    DemonProfiler_Run (DemonProfiler.mk (Some d)) demon_Run w1 w2 m
    = Ok (tt, set_active_demon None
                (set_demon_runs (<[q := r']> (demon_runs m2)) m2))
    /\ demon_times r' = demon_times r ++ [w2 - w1]
    /\ DemonRuns.failures r' = DemonRuns.failures r
    /\ DemonRuns.demon_id r' = DemonRuns.demon_id r.
Proof.
  intros Had Hd Hq Hlen Hrun Had2 Hd2 Hq2 Hs H1 H2 H12.
  exists (DemonRuns.add_end_time (current_time m2 w2)
            (DemonRuns.add_start_time (current_time m w1) r)).
  split; [| split; [| split; reflexivity]].
  - unfold DemonProfiler_Run. simpl.
    unfold bind at 1. rewrite (StartDemonRun_registered m d q r w1 Had Hd Hq).
    unfold bind at 1. rewrite Hrun.
    apply EndDemonRun_returns; assumption.
  - rewrite (demon_times_snoc r _ _ Hlen). unfold current_time. rewrite Hs.
    rewrite (sub64_current_time w1 w2 _ H1 H2 H12). reflexivity.
Qed.

Section Profiled.
Context `{host : Host}.

(** X15.  In every state a monitor can reach, when [BuildDemonProfiler]
    returns a profiler, the profiler's demon is the given one, is not
    null, and is mapped to an allocated record; with a null demon
    [BuildDemonProfiler] fails a check. *)
Theorem BuildDemonProfiler_registers (m : DemonMonitor) (demon : option Demon) :
  reachable m ->
  (forall p m', BuildDemonProfiler demon m = Ok (p, m') ->
     exists d q r,
       demon = Some d /\ DemonProfiler.demon_ p = Some d
       /\ demon_map_ m' !! d = Some (Some q) /\ demon_runs m' !! q = Some r)
  /\ (demon = None -> BuildDemonProfiler demon m = CheckFailed).
Proof.
  intros Hm. split.
  - intros p m' H. unfold BuildDemonProfiler, new_DemonProfiler in H.
    unfold bind at 1 in H.
    destruct (RegisterDemon demon m) as [[[] m1] | | |] eqn:Hreg; try discriminate.
    assert (Hm1 : consistent m1).
    { apply (call_consistent (CallRegisterDemon demon) m m1);
        [apply reachable_consistent, Hm | exact Hreg]. }
    destruct demon as [d|]; [| discriminate H]. simpl in H. unfold_op.
    injection H as <- <-.
    assert (Hin : is_Some (demon_map_ m1 !! d)).
    { apply RegisterDemon_Ok in Hreg
        as [(d0 & Hd0 & Hp & ->) | (d0 & c & a & ct & Hd0 & _ & _ & _ & _ & _ & ->)];
        injection Hd0 as <-; [exact Hp |].
      simpl. rewrite lookup_insert_eq. eauto. }
    destruct Hin as [p Hp].
    destruct (demon_record m1 Hm1 d p Hp) as (q & r & -> & Hq & _).
    exists d, q, r. repeat split; assumption.
  - intros ->. unfold BuildDemonProfiler, RegisterDemon, demon_map_find.
    unfold_op. destruct (active_constraint_ m); [| reflexivity]. simpl.
    destruct (active_demon_ m); reflexivity.
Qed.

(** X16.  With no phase open, the initial propagation of a constraint
    that is begun and ended is reported by [ExportInformation] with its
    wall-clock duration, no failure and no demon, provided
    [demons_per_constraint_] holds no demon for the constraint; when it
    holds one, [ExportInformation] fails its check. *)
Theorem propagation_measured (m : DemonMonitor) (c : Constraint) (w1 w2 : Z) :
  active_constraint_ m = None ->
  active_demon_ m = None ->
  in_int64 (w1 - start_time_ m) -> in_int64 (w2 - start_time_ m) ->
  in_int64 (w2 - w1) ->
  (default [] (demons_per_constraint_ m !! c) = [] ->
   exists m',
     (StartInitialPropagation (Some c) w1 ;;;
      EndInitialPropagation (Some c) w2 ;;;
      ExportInformation (Some c)) m
     = Ok (ConstraintExport.mk 0 (w2 - w1) 0 0 0, m'))
  /\ (default [] (demons_per_constraint_ m !! c) <> [] ->
      (StartInitialPropagation (Some c) w1 ;;;
       EndInitialPropagation (Some c) w2 ;;;
       ExportInformation (Some c)) m
      = CheckFailed).
Proof.
  intros Hac Had H1 H2 H12.
  pose proof (sub64_current_time w1 w2 _ H1 H2 H12) as Hsub.
  unfold StartInitialPropagation, EndInitialPropagation, ExportInformation,
    new_ConstraintRuns, ConstraintRuns.demons_size.
  unfold_op.
  split; intros Hv.
  - destruct (demons_per_constraint_ m !! c) as [v|] eqn:Hdpc; simpl in Hv; subst;
      repeat (progress (simpl; simpl_state;
                        rewrite ?Hac, ?Had, ?Hdpc, ?lookup_insert_eq,
                          ?bool_decide_eq_true_2 by reflexivity));
      unfold current_time; simpl_state; rewrite Hsub; eauto.
  - destruct (demons_per_constraint_ m !! c) as [[|x v]|] eqn:Hdpc; simpl in Hv;
      try contradiction;
      repeat (progress (simpl; simpl_state;
                        rewrite ?Hac, ?Had, ?Hdpc, ?lookup_insert_eq,
                          ?bool_decide_eq_true_2 by reflexivity)).
    try rewrite bool_decide_eq_false_2 by discriminate. reflexivity.
Qed.

End Profiled.

(** X17.  The summary of a demon record with as many start as end times
    returns the number of runs, the record's failures and, when the sum
    stays in range, the sum of the differences of end and start times;
    a record with different numbers of start and end times, as that of
    a running demon, makes the call fail its check. *)
Theorem ExportInformation_demon_totals (m : DemonMonitor) (q : addr)
    (r : DemonRuns.t) :
  demon_runs m !! q = Some r ->
  (length (DemonRuns.start_time r) = length (DemonRuns.end_time r) ->
   in_int64 (exact_runtime r) ->
   exists info,
     ExportInformation_demon (Some q) m = Ok (info, m)
     /\ DemonExport.demon_invocations info
        = Z.of_nat (length (DemonRuns.start_time r))
     /\ DemonExport.fails info = DemonRuns.failures r
     /\ DemonExport.total_demon_runtime info = exact_runtime r)
  /\ (length (DemonRuns.start_time r) <> length (DemonRuns.end_time r) ->
      ExportInformation_demon (Some q) m = CheckFailed).
Proof.
  intros Hr. split.
  - intros Hlen Hsum.
    destruct (ExportInformation_demon_returns m q r Hr Hlen)
      as (mean & median & stddev & H).
    eexists. split; [exact H |]. simpl. repeat split.
    rewrite foldl_add64_zero, demon_times_wrap, wrap64_sumZ_wrap.
    apply wrap64_exact, Hsum.
  - apply ExportInformation_demon_unbalanced, Hr.
Qed.

Lemma for_each_gather_unbalanced (m : DemonMonitor) (l : list addr) (q : addr)
    (r : DemonRuns.t) (acc : Z * Z * Z) :
  (forall a, a ∈ l -> is_Some (demon_runs m !! a)) ->
  q ∈ l -> demon_runs m !! q = Some r ->
  length (DemonRuns.start_time r) <> length (DemonRuns.end_time r) ->
  for_each l gather_information acc m = CheckFailed.
Proof.
  revert acc. induction l as [|a l IH]; intros acc Hlive Hq Hr Hlen.
  - inversion Hq.
  - simpl. unfold bind at 1.
    destruct (Hlive a (list_elem_of_here a l)) as [ra Hra].
    unfold gather_information at 1. destruct acc as [[f i] t]. unfold_op.
    rewrite Hra. simpl.
    destruct (bool_decide (DemonRuns.start_time_size ra = DemonRuns.end_time_size ra))
      eqn:Hb; simpl; [| reflexivity].
    apply bool_decide_eq_true in Hb.
    apply IH; try assumption.
    + intros a' Ha'. apply Hlive, list_elem_of_further, Ha'.
    + apply elem_of_cons in Hq as [-> | Hq]; [| exact Hq].
      rewrite Hra in Hr. injection Hr as <-. contradiction.
Qed.

Section Running.
Context `{host : Host}.

(** X18.  In every state a monitor can reach, [ExportInformation] of a
    constraint whose record lists the record of the demon that is
    running fails its check. *)
Theorem ExportInformation_while_running (m : DemonMonitor) (c : Constraint)
    (a : addr) (ct : ConstraintRuns.t) (d : Demon) (q : addr) :
  reachable m ->
  constraint_map_ m !! c = Some (Some a) ->
  constraint_runs m !! a = Some ct ->
  active_demon_ m = Some d ->
  demon_map_ m !! d = Some (Some q) ->
  q ∈ ConstraintRuns.demons ct ->
  ExportInformation (Some c) m = CheckFailed.
Proof.
  intros Hm Hc Ha Had Hd Hq. apply reachable_consistent in Hm.
  destruct (demon_record m Hm d _ Hd) as (q' & r & Hq' & Hr & Hbal).
  injection Hq' as <-.
  unfold balanced in Hbal. rewrite bool_decide_eq_true_2 in Hbal by exact Had.
  unfold ExportInformation. unfold_op. rewrite Hc. simpl. rewrite Ha. simpl.
  assert (Hloop : forall m0 acc, demon_runs m0 = demon_runs m ->
            for_each (ConstraintRuns.demons ct) gather_information acc m0
            = CheckFailed).
  { intros m0 acc Hm0. apply (for_each_gather_unbalanced m0 _ q r).
    - intros a' Ha'. rewrite Hm0. exact (owned_demons m Hm c a ct a' Hc Ha Ha').
    - exact Hq.
    - rewrite Hm0. exact Hr.
    - lia. }
  destruct (demons_per_constraint_ m !! c) as [v|]; simpl;
    destruct (bool_decide _); simpl; try reflexivity;
    rewrite Hloop; reflexivity.
Qed.

End Running.

Lemma constraint_open_reachable : reachable (host := plain_host) constraint_open.
Proof.
  exists 0, [CallStartInitialPropagation (Some 1%positive) 100].
  vm_compute. reflexivity.
Qed.

(** ** Instances *)

Lemma StartInitialPropagation_returns_iff_witness :
  exists m',
    StartInitialPropagation (host := plain_host) (Some 1%positive) 120 session_done
    = Ok (tt, m')
    /\ exists c,
         Some 1%positive = Some c /\ active_constraint_ session_done = None
         /\ active_demon_ session_done = None
         /\ m' = set_constraint_map
                   (<[c := Some (fresh (dom (constraint_runs session_done)))]>
                      (constraint_map_ session_done))
                   (set_active_constraint (Some c)
                      (set_constraint_runs
                         (<[fresh (dom (constraint_runs session_done))
                            := ConstraintRuns.mk
                                 (Constraint_DebugString (Host := plain_host) c)
                                 (current_time session_done 120) 0 0 []]>
                            (constraint_runs session_done)) session_done)).
Proof.
  eexists. split; [vm_compute; reflexivity |].
  apply (proj1 (StartInitialPropagation_returns_iff (host := plain_host)
                  (Some 1%positive) 120 session_done _)).
  vm_compute. reflexivity.
Defined.

Lemma EndInitialPropagation_returns_iff_witness :
  exists m',
    EndInitialPropagation (Some 1%positive) 110 registered_open = Ok (tt, m')
    /\ exists c a ct,
         Some 1%positive = Some c /\ active_constraint_ registered_open = Some c
         /\ active_demon_ registered_open = None
         /\ constraint_map_ registered_open !! c = Some (Some a)
         /\ constraint_runs registered_open !! a = Some ct
         /\ m' = set_active_constraint None
                   (set_constraint_runs
                      (<[a := ConstraintRuns.set_failures 0
                                (ConstraintRuns.set_initial_propagation_end_time
                                   (current_time registered_open 110) ct)]>
                         (constraint_runs registered_open)) registered_open).
Proof.
  eexists. split; [vm_compute; reflexivity |].
  apply (proj1 (EndInitialPropagation_returns_iff (Some 1%positive) 110
                  registered_open _)).
  vm_compute. reflexivity.
Defined.

Lemma RegisterDemon_new_witness :
  demon_map_ constraint_open !! 2%positive = None
  /\ exists m',
       RegisterDemon (host := plain_host) (Some 2%positive) constraint_open
       = Ok (tt, m')
       /\ demon_map_ m' !! 2%positive = Some (Some 1%positive)
       /\ demon_runs m' !! 1%positive = Some (DemonRuns.mk "demon" [] [] 0).
Proof.
  split; [reflexivity |].
  destruct (proj2 (RegisterDemon_new (host := plain_host) 2%positive constraint_open
                     registered_open eq_refl)) as [].
  - exists 1%positive, 1%positive,
      (ConstraintRuns.mk "constraint" 100 0 0 []).
    repeat split.
  - exists registered_open. repeat split.
Defined.

Lemma EndDemonRun_returns_iff_witness :
  exists m',
    EndDemonRun (Some 2%positive) 130 demon_open = Ok (tt, m')
    /\ exists d q r,
         Some 2%positive = Some d /\ active_demon_ demon_open = Some d
         /\ demon_map_ demon_open !! d = Some (Some q)
         /\ demon_runs demon_open !! q = Some r
         /\ m' = set_active_demon None
                   (set_demon_runs
                      (<[q := DemonRuns.add_end_time (current_time demon_open 130) r]>
                         (demon_runs demon_open)) demon_open).
Proof.
  eexists. split; [vm_compute; reflexivity |].
  apply (proj1 (EndDemonRun_returns_iff (Some 2%positive) 130 demon_open _)).
  vm_compute. reflexivity.
Defined.

Lemma AddFakeRun_returns_iff_witness :
  exists m',
    AddFakeRun (Some 2%positive) 500 520 true both_open = Ok (tt, m')
    /\ exists d q r,
         Some 2%positive = Some d
         /\ demon_map_ both_open !! d = Some (Some q)
         /\ demon_runs both_open !! q = Some r
         /\ m' = set_demon_runs
                   (<[q := DemonRuns.mk (DemonRuns.demon_id r)
                             (DemonRuns.start_time r ++ [500])
                             (DemonRuns.end_time r ++ [520])
                             (if true then add64 (DemonRuns.failures r) 1
                              else DemonRuns.failures r)]>
                      (demon_runs both_open)) both_open.
Proof.
  eexists. split; [vm_compute; reflexivity |].
  apply (proj1 (AddFakeRun_returns_iff (Some 2%positive) 500 520 true both_open _)).
  vm_compute. reflexivity.
Defined.

Lemma DemonProfiler_Run_records_witness :
  active_demon_ session_done = None
  /\ demon_map_ session_done !! 2%positive = Some (Some 1%positive)
  /\ demon_runs session_done !! 1%positive
     = Some (DemonRuns.mk "demon" [200; 300] [205; 315] 1)
  /\ RegisterDemon (host := plain_host) (Some 2%positive) session_running
     = Ok (tt, session_running)
  /\ exists r',
       DemonProfiler_Run (DemonProfiler.mk (Some 2%positive))
         (RegisterDemon (host := plain_host) (Some 2%positive)) 400 407 session_done
       = Ok (tt, set_active_demon None
                   (set_demon_runs (<[1%positive := r']> (demon_runs session_running))
                      session_running))
       /\ demon_times r' = [5; 15; 7]
       /\ DemonRuns.failures r' = 1
       /\ DemonRuns.demon_id r' = "demon".
Proof.
  assert (Hrun : RegisterDemon (host := plain_host) (Some 2%positive) session_running
                 = Ok (tt, session_running)) by (vm_compute; reflexivity).
  split; [reflexivity | split; [reflexivity | split; [reflexivity |]]].
  split; [exact Hrun |].
  apply (DemonProfiler_Run_records session_done session_running 2%positive
           1%positive (DemonRuns.mk "demon" [200; 300] [205; 315] 1)
           (RegisterDemon (host := plain_host) (Some 2%positive)) 400 407);
    first [exact Hrun | reflexivity | unfold in_int64; simpl; lia].
Defined.

Lemma BuildDemonProfiler_registers_witness :
  reachable (host := plain_host) constraint_open
  /\ (forall p m',
        BuildDemonProfiler (host := plain_host) (Some 2%positive) constraint_open
        = Ok (p, m') ->
        exists d q r,
          Some 2%positive = Some d /\ DemonProfiler.demon_ p = Some d
          /\ demon_map_ m' !! d = Some (Some q) /\ demon_runs m' !! q = Some r)
  /\ ((Some 2%positive : option Demon) = None ->
      BuildDemonProfiler (host := plain_host) (Some 2%positive) constraint_open
      = CheckFailed)
  /\ BuildDemonProfiler (host := plain_host) (Some 2%positive) constraint_open
     = Ok (DemonProfiler.mk (Some 2%positive), registered_open).
Proof.
  split; [exact constraint_open_reachable |].
  destruct (BuildDemonProfiler_registers (host := plain_host) constraint_open
              (Some 2%positive) constraint_open_reachable) as [Hreg Hnull].
  split; [exact Hreg | split; [exact Hnull |]].
  vm_compute. reflexivity.
Defined.

Lemma propagation_measured_witness :
  active_constraint_ session_done = None
  /\ active_demon_ session_done = None
  /\ default [] (demons_per_constraint_ session_done !! 3%positive) = []
  /\ default [] (demons_per_constraint_ session_done !! 1%positive) <> []
  /\ (exists m',
        (StartInitialPropagation (host := plain_host) (Some 3%positive) 500 ;;;
         EndInitialPropagation (Some 3%positive) 512 ;;;
         ExportInformation (Some 3%positive)) session_done
        = Ok (ConstraintExport.mk 0 12 0 0 0, m'))
  /\ (StartInitialPropagation (host := plain_host) (Some 1%positive) 500 ;;;
      EndInitialPropagation (Some 1%positive) 512 ;;;
      ExportInformation (Some 1%positive)) session_done
     = CheckFailed.
Proof.
  assert (Ha : in_int64 (500 - start_time_ session_done))
    by (unfold in_int64; simpl; lia).
  assert (Hb : in_int64 (512 - start_time_ session_done))
    by (unfold in_int64; simpl; lia).
  assert (Hab : in_int64 (512 - 500)) by (unfold in_int64; lia).
  assert (H3 : default [] (demons_per_constraint_ session_done !! 3%positive) = [])
    by reflexivity.
  assert (H1 : default [] (demons_per_constraint_ session_done !! 1%positive) <> [])
    by discriminate.
  split; [reflexivity | split; [reflexivity | split; [exact H3 | split; [exact H1 |]]]].
  split.
  - apply (proj1 (propagation_measured (host := plain_host) session_done 3%positive
                    500 512 eq_refl eq_refl Ha Hb Hab) H3).
  - apply (proj2 (propagation_measured (host := plain_host) session_done 1%positive
                    500 512 eq_refl eq_refl Ha Hb Hab) H1).
Defined.

Lemma ExportInformation_demon_totals_witness :
  demon_runs session_done !! 1%positive
  = Some (DemonRuns.mk "demon" [200; 300] [205; 315] 1)
  /\ (exists info,
        ExportInformation_demon (Some 1%positive) session_done
        = Ok (info, session_done)
        /\ DemonExport.demon_invocations info = 2
        /\ DemonExport.fails info = 1
        /\ DemonExport.total_demon_runtime info = 20)
  /\ ExportInformation_demon (Some 1%positive) demon_open = CheckFailed.
Proof.
  split; [reflexivity | split].
  - apply (proj1 (ExportInformation_demon_totals session_done 1%positive
                    (DemonRuns.mk "demon" [200; 300] [205; 315] 1) eq_refl)).
    + reflexivity.
    + unfold in_int64. vm_compute. split; [discriminate | reflexivity].
  - apply (proj2 (ExportInformation_demon_totals demon_open 1%positive
                    (DemonRuns.mk "demon" [120] [] 0) eq_refl)).
    discriminate.
Defined.

Lemma ExportInformation_while_running_witness :
  reachable (host := plain_host) demon_open
  /\ constraint_map_ demon_open !! 1%positive = Some (Some 1%positive)
  /\ constraint_runs demon_open !! 1%positive
     = Some (ConstraintRuns.mk "constraint" 100 110 0 [1%positive])
  /\ active_demon_ demon_open = Some 2%positive
  /\ demon_map_ demon_open !! 2%positive = Some (Some 1%positive)
  /\ ExportInformation (Some 1%positive) demon_open = CheckFailed.
Proof.
  split; [exact demon_open_reachable |].
  split; [reflexivity | split; [reflexivity | split; [reflexivity |]]].
  split; [reflexivity |].
  apply (ExportInformation_while_running (host := plain_host) demon_open 1%positive
           1%positive (ConstraintRuns.mk "constraint" 100 110 0 [1%positive])
           2%positive 1%positive demon_open_reachable);
    try reflexivity.
  apply list_elem_of_here.
Defined.

(** ** A constraint propagated again *)

Lemma stale_ExportInformation (m : DemonMonitor) (c : Constraint) :
  stale m c -> ExportInformation (Some c) m = CheckFailed.
Proof.
  intros (a & ct & Hc & Ha & Hlen).
  unfold ExportInformation, ConstraintRuns.demons_size. unfold_op.
  rewrite Hc. simpl. rewrite Ha. simpl.
  destruct (demons_per_constraint_ m !! c) as [v|]; simpl in *; [| lia].
  rewrite bool_decide_eq_false_2 by lia. reflexivity.
Qed.

Lemma adds_empty_vectors_default (m m' : DemonMonitor) (c : Constraint) :
  adds_empty_vectors m m' ->
  default [] (demons_per_constraint_ m' !! c)
  = default [] (demons_per_constraint_ m !! c).
Proof.
  intros (_ & _ & _ & _ & _ & _ & _ & H).
  destruct (H c) as [-> | [-> ->]]; reflexivity.
Qed.

Lemma adds_empty_vectors_stale (m m' : DemonMonitor) (c : Constraint) :
  adds_empty_vectors m m' -> stale m c -> stale m' c.
Proof.
  intros Hadd (a & ct & Hc & Ha & Hlen).
  pose proof (adds_empty_vectors_default m m' c Hadd) as Hd.
  destruct Hadd as (_ & _ & _ & H4 & _ & H6 & _).
  exists a, ct. rewrite H4, H6, Hd. auto.
Qed.

Section Stale.
Context `{host : Host}.

Lemma call_stale (cl : Call) (m m' : DemonMonitor) (c : Constraint) :
  consistent m -> stale m c -> cl <> CallRestartSearch ->
  call cl m = Ok (tt, m') -> stale m' c.
Proof.
  intros Hm (a & ct & Hc & Ha & Hlen) Hcl H. destruct cl; simpl in H.
  - apply StartInitialPropagation_Ok in H as (c0 & _ & _ & _ & ->).
    unfold stale. simpl. destruct (decide (c0 = c)) as [-> | Hne].
    + eexists _, _. rewrite !lookup_insert_eq. split; [reflexivity |].
      split; [reflexivity |]. simpl. lia.
    + exists a, ct. rewrite lookup_insert_ne by exact Hne.
      rewrite lookup_insert_ne
        by (intros Heq; rewrite <- Heq, fresh_not_live in Ha; discriminate).
      auto.
  - apply EndInitialPropagation_Ok in H as (c0 & a0 & ct0 & _ & _ & _ & _ & Ha0 & ->).
    unfold stale. simpl. destruct (decide (a0 = a)) as [-> | Hne].
    + eexists _, _. rewrite lookup_insert_eq. split; [exact Hc |].
      split; [reflexivity |]. simpl. rewrite Ha in Ha0. injection Ha0 as <-.
      exact Hlen.
    + exists a, ct. rewrite lookup_insert_ne by exact Hne. auto.
  - apply RegisterDemon_Ok in H
      as [(d & _ & _ & ->)
         | (d & c0 & a0 & ct0 & _ & _ & _ & _ & Hc0 & Ha0 & ->)].
    + exists a, ct. auto.
    + unfold stale. simpl. destruct (decide (c0 = c)) as [-> | Hne].
      * rewrite Hc in Hc0. injection Hc0 as <-.
        rewrite Ha in Ha0. injection Ha0 as <-.
        eexists _, _. rewrite !lookup_insert_eq. split; [exact Hc |].
        split; [reflexivity |]. simpl. rewrite !length_app. simpl. lia.
      * assert (Hane : a0 <> a)
          by (intros ->; apply Hne;
              exact (constraint_record_own m Hm c0 c a Hc0 Hc)).
        exists a, ct. rewrite !lookup_insert_ne by assumption. auto.
  - apply StartDemonRun_Ok in H as (d & q & r & _ & _ & _ & _ & ->).
    exists a, ct. auto.
  - apply EndDemonRun_Ok in H as (d & q & r & _ & _ & _ & _ & ->).
    exists a, ct. auto.
  - apply RaiseFailure_Ok in H
      as [(c0 & d & a0 & ct0 & _ & _ & _ & Ha0 & ->)
         | [(d & q & r & _ & _ & _ & _ & ->) | (_ & _ & ->)]].
    + unfold stale. simpl. destruct (decide (a0 = a)) as [-> | Hne].
      * eexists _, _. rewrite lookup_insert_eq. split; [exact Hc |].
        split; [reflexivity |]. simpl. rewrite Ha in Ha0. injection Ha0 as <-.
        exact Hlen.
      * exists a, ct. rewrite lookup_insert_ne by exact Hne. auto.
    + exists a, ct. auto.
    + exists a, ct. auto.
  - apply AddFakeRun_Ok in H as (d & q & r & _ & _ & _ & ->).
    exists a, ct. auto.
  - contradiction.
  - apply (keeps_adds_bind _ _ (keeps_ExportInformation constraint)
             (fun _ => keeps_adds_reads _ (reads_ret tt))) in H.
    apply (adds_empty_vectors_stale m m' c H). exists a, ct. auto.
  - apply (keeps_adds_bind _ _ (keeps_PrintOverview filename is_open)
             (fun _ => keeps_adds_reads _ (reads_ret tt))) in H.
    apply (adds_empty_vectors_stale m m' c H). exists a, ct. auto.
Qed.

Lemma run_stale (cs : list Call) (m m' : DemonMonitor) (c : Constraint) :
  consistent m -> stale m c -> Forall (fun cl => cl <> CallRestartSearch) cs ->
  run cs m = Ok (tt, m') -> stale m' c.
Proof.
  revert m. induction cs as [|cl cs IH]; intros m Hm Hs Hcs H; simpl in H.
  - unfold ret in H. congruence.
  - unfold bind in H. destruct (call cl m) as [[[] m1] | | |] eqn:Hc; try discriminate.
    inversion Hcs as [|? ? Hcl Hrest]; subst.
    apply (IH m1); [eapply call_consistent | eapply call_stale | |]; eassumption.
Qed.

(** X19.  When the initial propagation of a constraint is begun while
    [demons_per_constraint_] already holds demons for it, the new record
    lists fewer demons than [demons_per_constraint_]; this stays so
    whatever calls return afterwards, so that [ExportInformation] of the
    constraint fails its check until the next [RestartSearch]. *)
Theorem repropagation_breaks_export (m m1 m2 : DemonMonitor) (c : Constraint)
    (wall : Z) (cs : list Call) :
  reachable m ->
  default [] (demons_per_constraint_ m !! c) <> [] ->
  StartInitialPropagation (Some c) wall m = Ok (tt, m1) ->
  Forall (fun cl => cl <> CallRestartSearch) cs ->
  run cs m1 = Ok (tt, m2) ->
  ExportInformation (Some c) m2 = CheckFailed.
Proof.
  intros Hm Hv Hstart Hcs Hrun. apply reachable_consistent in Hm.
  assert (Hm1 : consistent m1)
    by exact (call_consistent (CallStartInitialPropagation (Some c) wall) m m1
                Hm Hstart).
  apply stale_ExportInformation. apply (run_stale cs m1 m2 c Hm1); try assumption.
  apply StartInitialPropagation_Ok in Hstart as (c0 & Hc0 & _ & _ & ->).
  injection Hc0 as <-. unfold stale. simpl.
  eexists _, _. rewrite !lookup_insert_eq. split; [reflexivity |].
  split; [reflexivity |]. simpl.
  destruct (default [] (demons_per_constraint_ m !! c)); [contradiction | simpl; lia].
Qed.

(** X20.  Registering a demon twice is registering it once: the second
    call of [RegisterDemon] returns without any change whenever the
    first returned. *)
Theorem RegisterDemon_idempotent (demon : option Demon) (m : DemonMonitor) :
  (RegisterDemon demon ;;; RegisterDemon demon) m = RegisterDemon demon m.
Proof.
  unfold bind.
  destruct (RegisterDemon demon m) as [[[] m1] | | |] eqn:H; try reflexivity.
  assert (Hin : exists d, demon = Some d /\ is_Some (demon_map_ m1 !! d)).
  { apply RegisterDemon_Ok in H
      as [(d & -> & Hp & ->) | (d & c & a & ct & -> & _ & _ & _ & _ & _ & ->)];
      exists d; (split; [reflexivity |]); [exact Hp |].
    simpl. rewrite lookup_insert_eq. eauto. }
  destruct Hin as (d & -> & Hd).
  unfold RegisterDemon, demon_map_find. unfold_op.
  rewrite bool_decide_eq_true_2 by exact Hd. reflexivity.
Qed.

End Stale.

(** ** When the summaries return *)

Lemma for_each_gather_Ok (m m' : DemonMonitor) (l : list addr)
    (acc acc' : Z * Z * Z) :
  for_each l gather_information acc m = Ok (acc', m') ->
  Forall (finished m) l.
Proof.
  revert acc. induction l as [|q l IH]; intros acc H; [constructor |].
  simpl in H. unfold bind at 1 in H.
  destruct (gather_information q acc m) as [[acc1 m1] | | |] eqn:Hq; try discriminate.
  pose proof (reads_gather_information q acc m acc1 m1 Hq) as <-.
  constructor; [| exact (IH acc1 H)].
  unfold gather_information in Hq. destruct acc as [[f i] t]. unfold_op.
  destruct (demon_runs m !! q) as [r|] eqn:Hr; [| discriminate].
  simpl in Hq. case_bool_decide; [| discriminate].
  exists r. split; [exact Hr | assumption].
Qed.

Lemma finished_live (m : DemonMonitor) (l : list addr) :
  Forall (finished m) l ->
  exists rs, Forall2 (fun a r => demon_runs m !! a = Some r) l rs
             /\ Forall (fun r => length (DemonRuns.start_time r)
                                 = length (DemonRuns.end_time r)) rs.
Proof.
  induction 1 as [|q l (r & Hr & Hlen) _ (rs & H1 & H2)].
  - exists []. split; constructor.
  - exists (r :: rs). split; constructor; assumption.
Qed.

Lemma exportable_iff (m : DemonMonitor) (c : Constraint) :
  (exists info m', ExportInformation (Some c) m = Ok (info, m'))
  <-> exportable m c.
Proof.
  unfold exportable. split.
  - intros (info & m' & H). unfold ExportInformation in H.
    unfold ConstraintRuns.demons_size in H. unfold_op.
    destruct (constraint_map_ m !! c) as [[a|]|] eqn:Hc; simpl in H;
      try discriminate.
    destruct (constraint_runs m !! a) as [ct|] eqn:Ha; simpl in H;
      try discriminate.
    exists a, ct. split; [reflexivity | split; [exact Ha |]].
    destruct (demons_per_constraint_ m !! c) as [v|] eqn:Hv; simpl in H |- *;
      case_bool_decide; simpl in H; try discriminate;
      (split; [assumption |]);
      match type of H with
      | context [for_each ?l gather_information ?acc ?m0] =>
          destruct (for_each l gather_information acc m0) as [[acc' m1] | | |] eqn:Hl;
          try discriminate;
          apply for_each_gather_Ok in Hl
      end; exact Hl.
  - intros (a & ct & Hc & Ha & Hlen & Hfin).
    destruct (finished_live m _ Hfin) as (rs & Hrs & Hbal).
    assert (Hloop : forall m0 acc, demon_runs m0 = demon_runs m ->
              exists acc', for_each (ConstraintRuns.demons ct) gather_information acc m0
                           = Ok (acc', m0)).
    { intros m0 [[f i] t] Hm0. eexists.
      apply (gather_information_loop m0 _ rs); [rewrite Hm0; exact Hrs | exact Hbal]. }
    unfold ExportInformation, ConstraintRuns.demons_size. unfold_op.
    rewrite Hc. simpl. rewrite Ha. simpl.
    destruct (demons_per_constraint_ m !! c) as [v|] eqn:Hv; simpl in Hlen |- *;
      rewrite bool_decide_eq_true_2 by exact Hlen; simpl;
      match goal with
      | |- context [for_each ?l gather_information ?acc ?m0] =>
          destruct (Hloop m0 acc eq_refl) as [[[f i] t] ->]
      end; eauto.
Qed.

(** X21.  [ExportInformation] of a constraint returns exactly when the
    constraint is mapped to an allocated record, the record lists as
    many demons as [demons_per_constraint_] holds for the constraint,
    and each record it lists is allocated and has as many start as end
    times. *)
Theorem ExportInformation_returns_iff (m : DemonMonitor) (c : Constraint) :
  (exists info m', ExportInformation (Some c) m = Ok (info, m'))
  <-> exists a ct,
        constraint_map_ m !! c = Some (Some a)
        /\ constraint_runs m !! a = Some ct
        /\ length (ConstraintRuns.demons ct)
           = length (default [] (demons_per_constraint_ m !! c))
        /\ Forall (fun q => exists r,
                     demon_runs m !! q = Some r
                     /\ length (DemonRuns.start_time r)
                        = length (DemonRuns.end_time r))
                  (ConstraintRuns.demons ct).
Proof. exact (exportable_iff m c). Qed.

Lemma adds_empty_vectors_finished (m m' : DemonMonitor) (q : addr) :
  adds_empty_vectors m m' -> finished m q <-> finished m' q.
Proof.
  intros (_ & _ & _ & _ & _ & _ & H7 & _). unfold finished. rewrite H7. reflexivity.
Qed.

Lemma adds_empty_vectors_exportable (m m' : DemonMonitor) (c : Constraint) :
  adds_empty_vectors m m' -> exportable m c <-> exportable m' c.
Proof.
  intros Hadd. pose proof (adds_empty_vectors_default m m' c Hadd) as Hd.
  assert (Hfin : forall l, Forall (finished m) l <-> Forall (finished m') l).
  { intros l. rewrite !Forall_forall. split; intros H q Hq;
      apply (adds_empty_vectors_finished m m' q Hadd), H, Hq. }
  destruct Hadd as (_ & _ & _ & H4 & _ & H6 & _).
  unfold exportable. rewrite H4, H6, Hd.
  split; intros (a & ct & Hc & Ha & Hlen & Hf); exists a, ct;
    repeat split; try assumption; apply Hfin, Hf.
Qed.

(** A loop whose body returns where [I] holds, and keeps [I]. *)
Lemma for_each_returns {A S} (l : list A) (body : A -> S -> Op S)
    (I : DemonMonitor -> A -> Prop) :
  (forall x s m, I m x ->
     exists s' m', body x s m = Ok (s', m') /\ forall y, I m y -> I m' y) ->
  forall s m, (forall x, x ∈ l -> I m x) ->
  exists s' m', for_each l body s m = Ok (s', m').
Proof.
  intros Hbody. induction l as [|x l IH]; intros s m HI; simpl.
  - eexists _, _. reflexivity.
  - destruct (Hbody x s m (HI x (list_elem_of_here x l))) as (s1 & m1 & Hx & Hkeep).
    unfold bind. rewrite Hx. apply IH.
    intros y Hy. apply Hkeep, HI, list_elem_of_further, Hy.
Qed.

Lemma for_each_returned {A S} (l : list A) (body : A -> S -> Op S)
    (I : DemonMonitor -> A -> Prop) :
  (forall x s m s' m', body x s m = Ok (s', m') ->
     I m x /\ forall y, I m' y -> I m y) ->
  forall s m s' m', for_each l body s m = Ok (s', m') ->
  forall x, x ∈ l -> I m x.
Proof.
  intros Hbody. induction l as [|x l IH]; intros s m s' m' H y Hy.
  - inversion Hy.
  - simpl in H. unfold bind in H.
    destruct (body x s m) as [[s1 m1] | | |] eqn:Hx; try discriminate.
    destruct (Hbody x s m s1 m1 Hx) as [HIx Hback].
    apply elem_of_cons in Hy as [-> | Hy]; [exact HIx |].
    apply Hback. exact (IH s1 m1 s' m' H y Hy).
Qed.

(** The loop of [PrintOverview] over the demons of a constraint. *)
Lemma overview_demons_return (m : DemonMonitor) (v : list addr) (file : string) :
  Forall (finished m) v ->
  exists file',
    for_each v
      (fun demon_runs file =>
         let* info := ExportInformation_demon (Some demon_runs) in
         let* r := read_dr (Some demon_runs) in
         let runs :=
           kDemonFormat (DemonRuns.demon_id r)
             (DemonExport.demon_invocations info)
             (DemonExport.fails info)
             (DemonExport.total_demon_runtime info)
             (DemonExport.mean_demon_runtime info)
             (DemonExport.median_demon_runtime info)
             (DemonExport.stddev_demon_runtime info) in
         ret (file +:+ runs))
      file m
    = Ok (file', m).
Proof.
  intros Hv. revert file. induction Hv as [|q v (r & Hr & Hlen) _ IH]; intros file.
  - eexists. reflexivity.
  - destruct (ExportInformation_demon_returns m q r Hr Hlen)
      as (mean & median & stddev & Hx).
    simpl. unfold bind at 1. unfold bind at 1. rewrite Hx.
    unfold bind at 1. rewrite (read_dr_Some m q r Hr). unfold ret at 1.
    apply IH.
Qed.

Section OverviewReturns.
Context `{host : Host}.

(** X22.  In every state a monitor can reach, [PrintOverview] with a file
    it can write returns exactly when [ExportInformation] returns for
    every constraint of [constraint_map_]: the summaries of the demons
    it prints besides never make it fail. *)
Theorem PrintOverview_returns_iff (m : DemonMonitor) (filename : string) :
  reachable m ->
  (exists o m', PrintOverview filename true m = Ok (o, m'))
  <-> (forall c, is_Some (constraint_map_ m !! c) ->
                 exists info m', ExportInformation (Some c) m = Ok (info, m')).
Proof.
  intros Hm. apply reachable_consistent in Hm.
  unfold PrintOverview. simpl. unfold bind at 1. unfold gets at 1.
  match goal with
  | |- context [for_each _ ?b _] => set (body := b)
  end.
  assert (Hkeeps : forall it file, keeps adds_empty_vectors (body it file)).
  { intros it file. unfold body.
    apply keeps_adds_bind; [apply keeps_ExportInformation | intros info].
    cbv zeta.
    apply keeps_adds_bind; [apply keeps_demons_per_constraint_at | intros demons].
    apply keeps_adds_for_each. intros demon_runs file'.
    apply keeps_adds_reads.
    apply reads_bind; [apply reads_ExportInformation_demon | intros info'].
    apply reads_bind; [apply reads_read_dr | intros r].
    apply reads_ret. }
  split.
  - intros (o & m' & H) c [p Hp].
    unfold bind at 1 in H.
    destruct (for_each (map_to_list (constraint_map_ m)) body EmptyString m)
      as [[text m1] | | |] eqn:Hloop; try discriminate.
    apply exportable_iff.
    assert (Hinv : forall it file m0 file' m0',
              body it file m0 = Ok (file', m0') ->
              exportable m0 (fst it)
              /\ forall y : Constraint * option addr,
                   exportable m0' (fst y) -> exportable m0 (fst y)).
    { intros it file m0 file' m0' Hit. split.
      - unfold body in Hit. unfold bind at 1 in Hit.
        destruct (ExportInformation (Some (fst it)) m0) as [[info m2] | | |] eqn:Hx;
          try discriminate.
        apply exportable_iff. eauto.
      - intros y Hy.
        apply (adds_empty_vectors_exportable m0 m0' (fst y)
                 (Hkeeps it file m0 file' m0' Hit)), Hy. }
    apply (for_each_returned _ body
             (fun m0 (it : Constraint * option addr) => exportable m0 (fst it)) Hinv
             _ _ _ _ Hloop (c, p)).
    apply elem_of_map_to_list, Hp.
  - intros Hall.
    destruct (for_each_returns (map_to_list (constraint_map_ m)) body
                (fun m0 (it : Constraint * option addr) =>
                   consistent m0 /\ exportable m0 (fst it)))
      with (s := EmptyString) (m := m) as (text & m1 & Hloop).
    + intros it file m0 [Hm0 Hit].
      pose proof Hit as (a & ct & Hc & Ha & Hlen & Hfin).
      destruct (proj2 (exportable_iff m0 (fst it)) Hit) as (info & m2 & Hx).
      pose proof (keeps_ExportInformation _ m0 info m2 Hx) as Hadd.
      pose proof (adds_empty_vectors_default m0 m2 (fst it) Hadd) as Hdef.
      destruct (owned_listed m0 Hm0 (fst it) a ct Hc Ha) as [older Holder].
      assert (Hv : default [] (demons_per_constraint_ m0 !! fst it)
                   = ConstraintRuns.demons ct).
      { rewrite Holder in Hlen |- *. rewrite length_app in Hlen.
        destruct older; [reflexivity | simpl in Hlen; lia]. }
      assert (Hstep : exists file' m3,
                 body it file m0 = Ok (file', m3) /\ adds_empty_vectors m0 m3).
      { unfold body. unfold bind at 1. rewrite Hx. cbv zeta.
        unfold bind at 1.
        destruct (demons_per_constraint_at (fst it) m2) as [[v m3] | | |] eqn:Hd;
          try (unfold demons_per_constraint_at in Hd;
               destruct (demons_per_constraint_ m2 !! fst it); discriminate).
        pose proof (keeps_demons_per_constraint_at _ m2 v m3 Hd) as Hadd3.
        assert (Hvv : v = ConstraintRuns.demons ct).
        { rewrite <- Hv, <- Hdef. unfold demons_per_constraint_at in Hd.
          destruct (demons_per_constraint_ m2 !! fst it); injection Hd as <- _;
            reflexivity. }
        pose proof (adds_empty_vectors_trans _ _ _ Hadd Hadd3) as Hadd03.
        assert (Hfin3 : Forall (finished m3) v).
        { rewrite Hvv. rewrite Forall_forall in Hfin |- *. intros q Hq.
          apply (adds_empty_vectors_finished m0 m3 q Hadd03), Hfin, Hq. }
        destruct (overview_demons_return m3 v
                    (file +:+ kConstraintFormat (Constraint_DebugString (fst it))
                                (ConstraintExport.fails info)
                                (ConstraintExport.initial_propagation_runtime info)
                                (ConstraintExport.demons info)
                                (ConstraintExport.demon_invocations info)
                                (ConstraintExport.total_demon_runtime info))
                    Hfin3) as [file' Hloop].
        exists file', m3. split; [exact Hloop | exact Hadd03]. }
      destruct Hstep as (file' & m3 & Hbody & Hadd3).
      exists file', m3. split; [exact Hbody |].
      intros y [Hy1 Hy2]. split.
      * eapply adds_empty_vectors_consistent; eassumption.
      * apply (adds_empty_vectors_exportable m0 m3 (fst y) Hadd3), Hy2.
    + intros [c p] Hin. apply elem_of_map_to_list in Hin.
      split; [exact Hm |]. apply exportable_iff, Hall. simpl. eauto.
    + unfold bind at 1. rewrite Hloop. eexists _, _. reflexivity.
Qed.

End OverviewReturns.

Lemma repropagation_breaks_export_witness :
  reachable (host := plain_host) session_done
  /\ default [] (demons_per_constraint_ session_done !! 1%positive) <> []
  /\ StartInitialPropagation (host := plain_host) (Some 1%positive) 400 session_done
     = Ok (tt, session_repropagating)
  /\ run (host := plain_host)
       [CallRegisterDemon (Some 3%positive);
        CallEndInitialPropagation (Some 1%positive) 410] session_repropagating
     = Ok (tt, session_repropagated)
  /\ ExportInformation (Some 1%positive) session_repropagated = CheckFailed.
Proof.
  assert (H1 : default [] (demons_per_constraint_ session_done !! 1%positive) <> [])
    by discriminate.
  assert (H2 : StartInitialPropagation (host := plain_host) (Some 1%positive) 400
                 session_done
               = Ok (tt, session_repropagating)) by (vm_compute; reflexivity).
  assert (H3 : run (host := plain_host)
                 [CallRegisterDemon (Some 3%positive);
                  CallEndInitialPropagation (Some 1%positive) 410]
                 session_repropagating
               = Ok (tt, session_repropagated)) by (vm_compute; reflexivity).
  split; [exact session_done_reachable |].
  split; [exact H1 | split; [exact H2 | split; [exact H3 |]]].
  apply (repropagation_breaks_export (host := plain_host) session_done
           session_repropagating session_repropagated 1%positive 400
           [CallRegisterDemon (Some 3%positive);
            CallEndInitialPropagation (Some 1%positive) 410]
           session_done_reachable H1 H2); [| exact H3].
  repeat constructor; discriminate.
Defined.

Lemma ExportInformation_returns_iff_witness :
  (exists info m', ExportInformation (Some 1%positive) session_done = Ok (info, m'))
  /\ exists a ct,
       constraint_map_ session_done !! 1%positive = Some (Some a)
       /\ constraint_runs session_done !! a = Some ct
       /\ length (ConstraintRuns.demons ct)
          = length (default [] (demons_per_constraint_ session_done !! 1%positive))
       /\ Forall (fun q => exists r,
                    demon_runs session_done !! q = Some r
                    /\ length (DemonRuns.start_time r)
                       = length (DemonRuns.end_time r))
                 (ConstraintRuns.demons ct).
Proof.
  assert (H : exists info m',
            ExportInformation (Some 1%positive) session_done = Ok (info, m'))
    by (eexists _, _; vm_compute; reflexivity).
  split; [exact H |].
  exact (proj1 (ExportInformation_returns_iff session_done 1%positive) H).
Defined.

Lemma PrintOverview_returns_iff_witness :
  reachable (host := plain_host) propagated_twice
  /\ ((exists o m',
         PrintOverview (host := plain_host) "overview" true propagated_twice
         = Ok (o, m'))
      <-> (forall c, is_Some (constraint_map_ propagated_twice !! c) ->
                     exists info m',
                       ExportInformation (Some c) propagated_twice = Ok (info, m')))
  /\ PrintOverview (host := plain_host) "overview" true propagated_twice
     = CheckFailed.
Proof.
  split; [exact propagated_twice_reachable | split].
  - exact (PrintOverview_returns_iff (host := plain_host) propagated_twice "overview"
             propagated_twice_reachable).
  - vm_compute. reflexivity.
Defined.

(** ** Records that are never deleted *)

Lemma delete_all_tight (m : DemonMonitor) :
  tight m ->
  constraint_runs (STLDeleteContainerPairSecondPointers m) = ∅
  /\ demon_runs (STLDeleteContainerPairSecondPointers m) = ∅.
Proof.
  intros [Hct Hdr].
  pose proof (delete_all_spec m (map_to_list (constraint_map_ m)))
    as (Ha & Hb & Hc & Hd). simpl in Ha, Hb, Hc, Hd.
  fold (STLDeleteContainerPairSecondPointers m) in Ha, Hb, Hc, Hd.
  assert (Hgone : forall a, is_Some (constraint_runs m !! a) ->
            constraint_runs (STLDeleteContainerPairSecondPointers m) !! a = None).
  { intros a Hlive. destruct (Hct a Hlive) as [c Hmap].
    apply (Hc c a), elem_of_map_to_list, Hmap. }
  split; apply map_empty; intros p.
  - destruct (constraint_runs (STLDeleteContainerPairSecondPointers m) !! p)
      as [r|] eqn:Hp; [| reflexivity].
    rewrite <- Hp. apply Hgone. rewrite (Ha p r Hp). eauto.
  - destruct (demon_runs (STLDeleteContainerPairSecondPointers m) !! p)
      as [r|] eqn:Hp; [| reflexivity].
    destruct (Hdr p) as (c & a & ct & Hmap & Hlive & Hin);
      [rewrite (Hb p r Hp); eauto |].
    rewrite <- Hp. apply (Hd a ct p Hlive); [| exact Hin].
    apply Hgone. eauto.
Qed.

Lemma adds_empty_vectors_tight (m m' : DemonMonitor) :
  adds_empty_vectors m m' -> tight m -> tight m'.
Proof.
  intros (_ & _ & _ & H4 & _ & H6 & H7 & _) [Hct Hdr].
  unfold tight. rewrite H4, H6, H7. split; assumption.
Qed.

Lemma tight_constraint_step (m : DemonMonitor) (a : addr)
    (ct ct' : ConstraintRuns.t) (ac' : option Constraint) :
  tight m ->
  constraint_runs m !! a = Some ct ->
  ConstraintRuns.demons ct' = ConstraintRuns.demons ct ->
  tight (set_active_constraint ac'
           (set_constraint_runs (<[a := ct']> (constraint_runs m)) m)).
Proof.
  intros [Hct Hdr] Ha Hdemons. split; simpl.
  - intros a0 Hlive. apply Hct. apply lookup_insert_is_Some in Hlive as [<- | [_ H]];
      [eauto | exact H].
  - intros q Hq. destruct (Hdr q Hq) as (c & a0 & ct0 & Hmap & Hlive & Hin).
    destruct (decide (a0 = a)) as [-> | Hne].
    + exists c, a, ct'. rewrite lookup_insert_eq. repeat split; [exact Hmap |].
      rewrite Hdemons. congruence.
    + exists c, a0, ct0. rewrite lookup_insert_ne by congruence. auto.
Qed.

Lemma tight_demon_step (m : DemonMonitor) (q : addr) (r r' : DemonRuns.t)
    (ad' : option Demon) :
  tight m ->
  demon_runs m !! q = Some r ->
  tight (set_demon_runs (<[q := r']> (demon_runs m)) (set_active_demon ad' m)).
Proof.
  intros [Hct Hdr] Hq. split; simpl; [exact Hct |].
  intros q0 Hlive. apply Hdr.
  apply lookup_insert_is_Some in Hlive as [<- | [_ H]]; [eauto | exact H].
Qed.

Section Leaks.
Context `{host : Host}.

Lemma call_tight (cl : Call) (m m' : DemonMonitor) :
  tight m -> begins_anew cl m = true -> call cl m = Ok (tt, m') -> tight m'.
Proof.
  intros Hm Hnew H. pose proof Hm as [Hct Hdr]. destruct cl; simpl in H.
  - apply StartInitialPropagation_Ok in H as (c & -> & _ & _ & ->).
    simpl in Hnew. apply bool_decide_eq_true in Hnew.
    pose proof (fresh_not_live (constraint_runs m)) as Hfresh.
    set (a := fresh (dom (constraint_runs m))) in *.
    assert (Hother : forall c0 a0, constraint_map_ m !! c0 = Some (Some a0) ->
              <[c := Some a]> (constraint_map_ m) !! c0 = Some (Some a0))
      by (intros c0 a0 H0; rewrite lookup_insert_ne by congruence; exact H0).
    split; simpl.
    + intros a0 Hlive. apply lookup_insert_is_Some in Hlive as [<- | [_ Hlive]].
      * exists c. apply lookup_insert_eq.
      * destruct (Hct a0 Hlive) as [c0 H0]. exists c0. apply Hother, H0.
    + intros q Hq. destruct (Hdr q Hq) as (c0 & a0 & ct0 & Hmap & Hlive & Hin).
      exists c0, a0, ct0. split; [apply Hother, Hmap |].
      rewrite lookup_insert_ne by congruence. auto.
  - apply EndInitialPropagation_Ok in H as (c & a & ct & _ & _ & _ & _ & Ha & ->).
    eapply tight_constraint_step; [exact Hm | exact Ha | reflexivity].
  - apply RegisterDemon_Ok in H
      as [(d & _ & _ & ->) | (d & c & a & ct & _ & _ & _ & _ & Hc & Ha & ->)];
      [exact Hm |].
    set (q := fresh (dom (demon_runs m))) in *.
    split; simpl.
    + intros a0 Hlive. apply Hct.
      apply lookup_insert_is_Some in Hlive as [<- | [_ Hlive]]; [eauto | exact Hlive].
    + intros q0 Hlive. apply lookup_insert_is_Some in Hlive as [<- | [_ Hlive]].
      * exists c, a, (ConstraintRuns.push_demon q ct).
        rewrite lookup_insert_eq. repeat split; [exact Hc |].
        simpl. apply elem_of_app. right. apply list_elem_of_here.
      * destruct (Hdr q0 Hlive) as (c0 & a0 & ct0 & Hmap & Hlive0 & Hin).
        destruct (decide (a0 = a)) as [-> | Hne].
        -- exists c0, a, (ConstraintRuns.push_demon q ct).
           rewrite lookup_insert_eq. repeat split; [exact Hmap |].
           simpl. apply elem_of_app. left. congruence.
        -- exists c0, a0, ct0. rewrite lookup_insert_ne by congruence. auto.
  - apply StartDemonRun_Ok in H as (d & q & r & _ & _ & _ & Hq & ->).
    eapply tight_demon_step; eassumption.
  - apply EndDemonRun_Ok in H as (d & q & r & _ & _ & _ & Hq & ->).
    apply (tight_demon_step m q r _ None Hm Hq).
  - apply RaiseFailure_Ok in H
      as [(c & d & a & ct & _ & _ & _ & Ha & ->)
         | [(d & q & r & _ & _ & _ & Hq & ->) | (_ & _ & ->)]].
    + eapply tight_constraint_step; [exact Hm | exact Ha | reflexivity].
    + apply (tight_demon_step m q r _ None Hm Hq).
    + exact Hm.
  - apply AddFakeRun_Ok in H as (d & q & r & _ & _ & Hq & ->).
    apply (tight_demon_step m q r _ (active_demon_ m) Hm Hq).
  - unfold RestartSearch in H. unfold_op. injection H as <-.
    destruct (delete_all_tight m Hm) as [H1 H2].
    split; simpl; rewrite ?H1, ?H2; intros p [x Hx]; rewrite lookup_empty in Hx;
      discriminate.
  - apply (keeps_adds_bind _ _ (keeps_ExportInformation constraint)
             (fun _ => keeps_adds_reads _ (reads_ret tt))) in H.
    eapply adds_empty_vectors_tight; eassumption.
  - apply (keeps_adds_bind _ _ (keeps_PrintOverview filename is_open)
             (fun _ => keeps_adds_reads _ (reads_ret tt))) in H.
    eapply adds_empty_vectors_tight; eassumption.
Qed.

Lemma run_tight (cs : list Call) (m m' : DemonMonitor) :
  tight m -> all_anew cs m = true -> run cs m = Ok (tt, m') -> tight m'.
Proof.
  revert m. induction cs as [|cl cs IH]; intros m Hm Hnew H; simpl in H.
  - unfold ret in H. congruence.
  - unfold bind in H. simpl in Hnew. apply andb_true_iff in Hnew as [Hcl Hrest].
    destruct (call cl m) as [[[] m1] | | |] eqn:Hc; try discriminate.
    apply (IH m1); [eapply call_tight; eassumption | exact Hrest | exact H].
Qed.

(** X23.  When no initial propagation is begun for a constraint that
    [constraint_map_] holds already, every record is held by the maps:
    the destructor of the monitor, and [RestartSearch], leave no record
    allocated. *)
Theorem delete_DemonMonitor_frees_all (wall : Z) (cs : list Call)
    (m : DemonMonitor) :
  all_anew cs (new_DemonMonitor wall) = true ->
  run cs (new_DemonMonitor wall) = Ok (tt, m) ->
  delete_DemonMonitor m = (∅, ∅)
  /\ exists m', RestartSearch m = Ok (tt, m')
                /\ constraint_runs m' = ∅ /\ demon_runs m' = ∅.
Proof.
  intros Hnew Hrun.
  assert (Hm : tight m).
  { apply (run_tight cs (new_DemonMonitor wall) m); try assumption.
    split; simpl; intros p [x Hx]; rewrite lookup_empty in Hx; discriminate. }
  destruct (delete_all_tight m Hm) as [H1 H2].
  split.
  - unfold delete_DemonMonitor. simpl. rewrite H1, H2. reflexivity.
  - eexists. split; [reflexivity |]. simpl. auto.
Qed.

Lemma call_orphan (cl : Call) (m m' : DemonMonitor) (a : addr)
    (ct : ConstraintRuns.t) :
  orphan m a ct -> call cl m = Ok (tt, m') -> orphan m' a ct.
Proof.
  intros [Ha Hfree] H. destruct cl; simpl in H.
  - apply StartInitialPropagation_Ok in H as (c & _ & _ & _ & ->).
    assert (Hne : fresh (dom (constraint_runs m)) <> a)
      by (intros Heq; rewrite <- Heq, fresh_not_live in Ha; discriminate).
    split; simpl.
    + rewrite lookup_insert_ne by exact Hne. exact Ha.
    + intros c0. destruct (decide (c0 = c)) as [-> | Hc0].
      * rewrite lookup_insert_eq. congruence.
      * rewrite lookup_insert_ne by congruence. apply Hfree.
  - apply EndInitialPropagation_Ok in H as (c & a0 & ct0 & _ & _ & _ & Hc & _ & ->).
    split; simpl; [| exact Hfree].
    rewrite lookup_insert_ne; [exact Ha |]. intros ->. exact (Hfree c Hc).
  - apply RegisterDemon_Ok in H
      as [(d & _ & _ & ->) | (d & c & a0 & ct0 & _ & _ & _ & _ & Hc & _ & ->)];
      [split; assumption |].
    split; simpl; [| exact Hfree].
    rewrite lookup_insert_ne; [exact Ha |]. intros ->. exact (Hfree c Hc).
  - apply StartDemonRun_Ok in H as (d & q & r & _ & _ & _ & _ & ->).
    split; assumption.
  - apply EndDemonRun_Ok in H as (d & q & r & _ & _ & _ & _ & ->).
    split; assumption.
  - apply RaiseFailure_Ok in H
      as [(c & d & a0 & ct0 & _ & _ & Hc & _ & ->)
         | [(d & q & r & _ & _ & _ & _ & ->) | (_ & _ & ->)]].
    + split; simpl; [| exact Hfree].
      rewrite lookup_insert_ne; [exact Ha |]. intros ->. exact (Hfree c Hc).
    + split; assumption.
    + split; assumption.
  - apply AddFakeRun_Ok in H as (d & q & r & _ & _ & _ & ->).
    split; assumption.
  - unfold RestartSearch in H. unfold_op. injection H as <-.
    split; simpl.
    + apply delete_all_keeps; [exact Ha |].
      intros k Hk. apply elem_of_map_to_list in Hk. exact (Hfree k Hk).
    + intros c. rewrite lookup_empty. discriminate.
  - apply (keeps_adds_bind _ _ (keeps_ExportInformation constraint)
             (fun _ => keeps_adds_reads _ (reads_ret tt))) in H
      as (_ & _ & _ & H4 & _ & H6 & _).
    unfold orphan. rewrite H4, H6. split; assumption.
  - apply (keeps_adds_bind _ _ (keeps_PrintOverview filename is_open)
             (fun _ => keeps_adds_reads _ (reads_ret tt))) in H
      as (_ & _ & _ & H4 & _ & H6 & _).
    unfold orphan. rewrite H4, H6. split; assumption.
Qed.

(** X24.  A record that [StartInitialPropagation] replaces in
    [constraint_map_], the constraint having had one already, is never
    deleted: whatever calls return afterwards, [RestartSearch] among
    them, it is still allocated and unchanged, and the destructor of
    the monitor leaves it allocated. *)
Theorem replaced_record_leaks (m m1 m2 : DemonMonitor) (c : Constraint)
    (a : addr) (ct : ConstraintRuns.t) (wall : Z) (cs : list Call) :
  reachable m ->
  constraint_map_ m !! c = Some (Some a) ->
  constraint_runs m !! a = Some ct ->
  StartInitialPropagation (Some c) wall m = Ok (tt, m1) ->
  run cs m1 = Ok (tt, m2) ->
  constraint_runs m2 !! a = Some ct
  /\ fst (delete_DemonMonitor m2) !! a = Some ct.
Proof.
  intros Hm Hc Ha Hstart Hrun. apply reachable_consistent in Hm.
  assert (H1 : orphan m1 a ct).
  { apply StartInitialPropagation_Ok in Hstart as (c0 & Hc0 & _ & _ & ->).
    injection Hc0 as <-.
    assert (Hne : fresh (dom (constraint_runs m)) <> a)
      by (intros Heq; rewrite <- Heq, fresh_not_live in Ha; discriminate).
    split; simpl.
    - rewrite lookup_insert_ne by exact Hne. exact Ha.
    - intros c0. destruct (decide (c0 = c)) as [-> | Hc0].
      + rewrite lookup_insert_eq. congruence.
      + rewrite lookup_insert_ne by congruence. intros H0.
        apply Hc0. exact (constraint_record_own m Hm c0 c a H0 Hc). }
  assert (H2 : orphan m2 a ct).
  { apply (run_invariant (fun m0 => orphan m0 a ct) cs m1 m2); try assumption.
    intros cl m0 m0' H0 Hcall. eapply call_orphan; eassumption. }
  destruct H2 as [Ha2 Hfree2]. split; [exact Ha2 |].
  unfold delete_DemonMonitor, STLDeleteContainerPairSecondPointers. simpl.
  apply delete_all_keeps; [exact Ha2 |].
  intros k Hk. apply elem_of_map_to_list in Hk. exact (Hfree2 k Hk).
Qed.

End Leaks.

Lemma delete_DemonMonitor_frees_all_witness :
  all_anew (host := plain_host)
    [CallStartInitialPropagation (Some 1%positive) 100;
     CallRegisterDemon (Some 2%positive);
     CallEndInitialPropagation (Some 1%positive) 110;
     CallAddFakeRun (Some 2%positive) 200 205 false;
     CallAddFakeRun (Some 2%positive) 300 315 true] (new_DemonMonitor 0) = true
  /\ constraint_runs session_done <> ∅
  /\ delete_DemonMonitor session_done = (∅, ∅)
  /\ exists m', RestartSearch session_done = Ok (tt, m')
                /\ constraint_runs m' = ∅ /\ demon_runs m' = ∅.
Proof.
  assert (H1 : all_anew (host := plain_host)
                 [CallStartInitialPropagation (Some 1%positive) 100;
                  CallRegisterDemon (Some 2%positive);
                  CallEndInitialPropagation (Some 1%positive) 110;
                  CallAddFakeRun (Some 2%positive) 200 205 false;
                  CallAddFakeRun (Some 2%positive) 300 315 true]
                 (new_DemonMonitor 0) = true) by (vm_compute; reflexivity).
  split; [exact H1 | split].
  - intros H. apply (f_equal (fun h => h !! 1%positive)) in H. discriminate H.
  - apply (delete_DemonMonitor_frees_all (host := plain_host) 0 _ session_done H1).
    vm_compute. reflexivity.
Defined.

Lemma replaced_record_leaks_witness :
  reachable (host := plain_host) session_done
  /\ constraint_map_ session_done !! 1%positive = Some (Some 1%positive)
  /\ StartInitialPropagation (host := plain_host) (Some 1%positive) 400 session_done
     = Ok (tt, session_repropagating)
  /\ run (host := plain_host)
       [CallRegisterDemon (Some 3%positive);
        CallEndInitialPropagation (Some 1%positive) 410] session_repropagating
     = Ok (tt, session_repropagated)
  /\ constraint_runs session_repropagated !! 1%positive
     = Some (ConstraintRuns.mk "constraint" 100 110 0 [1%positive])
  /\ fst (delete_DemonMonitor session_repropagated) !! 1%positive
     = Some (ConstraintRuns.mk "constraint" 100 110 0 [1%positive]).
Proof.
  assert (H2 : StartInitialPropagation (host := plain_host) (Some 1%positive) 400
                 session_done
               = Ok (tt, session_repropagating)) by (vm_compute; reflexivity).
  assert (H3 : run (host := plain_host)
                 [CallRegisterDemon (Some 3%positive);
                  CallEndInitialPropagation (Some 1%positive) 410]
                 session_repropagating
               = Ok (tt, session_repropagated)) by (vm_compute; reflexivity).
  split; [exact session_done_reachable |].
  split; [reflexivity | split; [exact H2 | split; [exact H3 |]]].
  exact (replaced_record_leaks (host := plain_host) session_done
           session_repropagating session_repropagated 1%positive 1%positive
           (ConstraintRuns.mk "constraint" 100 110 0 [1%positive]) 400
           [CallRegisterDemon (Some 3%positive);
            CallEndInitialPropagation (Some 1%positive) 410]
           session_done_reachable eq_refl eq_refl H2 H3).
Defined.

(** ** Phases that can be ended, and summaries that agree *)

Lemma adds_empty_vectors_latched (m m' : DemonMonitor) :
  adds_empty_vectors m m' -> latched_records m -> latched_records m'.
Proof.
  intros (H1 & H2 & _ & H4 & H5 & _) [Hc Hd].
  unfold latched_records. rewrite H1, H2, H4, H5. split; assumption.
Qed.

Section Phases.
Context `{host : Host}.

Lemma call_latched (cl : Call) (m m' : DemonMonitor) :
  latched_records m -> cl <> CallRestartSearch -> call cl m = Ok (tt, m') ->
  latched_records m'.
Proof.
  intros [Hc Hd] Hcl H. destruct cl; simpl in H.
  - apply StartInitialPropagation_Ok in H as (c & _ & _ & Had & ->).
    split; simpl.
    + intros c0 Hc0. injection Hc0 as <-. rewrite lookup_insert_eq. eauto.
    + intros d Hd0. congruence.
  - apply EndInitialPropagation_Ok in H as (c & a & ct & _ & _ & Had & _ & _ & ->).
    split; simpl; [discriminate | exact Hd].
  - apply RegisterDemon_Ok in H
      as [(d & _ & _ & ->) | (d & c & a & ct & _ & _ & _ & Had & _ & _ & ->)];
      [split; assumption |].
    split; simpl; [exact Hc |]. intros d0 Hd0. congruence.
  - apply StartDemonRun_Ok in H as (d & q & r & _ & _ & Hq & _ & ->).
    split; simpl; [exact Hc |].
    intros d0 Hd0. injection Hd0 as <-. rewrite Hq. eauto.
  - apply EndDemonRun_Ok in H as (d & q & r & _ & _ & _ & _ & ->).
    split; simpl; [exact Hc | discriminate].
  - apply RaiseFailure_Ok in H
      as [(c & d & a & ct & _ & _ & _ & _ & ->)
         | [(d & q & r & Hac & _ & _ & _ & ->) | (_ & _ & ->)]].
    + split; simpl; [discriminate | exact Hd].
    + split; simpl; [exact Hc | discriminate].
    + split; assumption.
  - apply AddFakeRun_Ok in H as (d & q & r & _ & _ & _ & ->).
    split; simpl; assumption.
  - contradiction.
  - apply (keeps_adds_bind _ _ (keeps_ExportInformation constraint)
             (fun _ => keeps_adds_reads _ (reads_ret tt))) in H.
    apply (adds_empty_vectors_latched m m' H). split; assumption.
  - apply (keeps_adds_bind _ _ (keeps_PrintOverview filename is_open)
             (fun _ => keeps_adds_reads _ (reads_ret tt))) in H.
    apply (adds_empty_vectors_latched m m' H). split; assumption.
Qed.

Lemma run_latched (cs : list Call) (m m' : DemonMonitor) :
  latched_records m -> Forall (fun cl => cl <> CallRestartSearch) cs ->
  run cs m = Ok (tt, m') -> latched_records m'.
Proof.
  revert m. induction cs as [|cl cs IH]; intros m Hm Hcs H; simpl in H.
  - unfold ret in H. congruence.
  - unfold bind in H. destruct (call cl m) as [[[] m1] | | |] eqn:Hc; try discriminate.
    inversion Hcs as [|? ? Hcl Hrest]; subst.
    apply (IH m1); [eapply call_latched; eassumption | exact Hrest | exact H].
Qed.

(** X25.  As long as [RestartSearch] is not called, a phase that was
    begun can be ended: in every state the calls lead to, [EndDemonRun]
    of the active demon returns, and [EndInitialPropagation] of the
    active constraint returns when no demon is active. *)
Theorem phases_can_end (wall : Z) (cs : list Call) (m : DemonMonitor) :
  Forall (fun cl => cl <> CallRestartSearch) cs ->
  run cs (new_DemonMonitor wall) = Ok (tt, m) ->
  (forall d w, active_demon_ m = Some d ->
               exists m', EndDemonRun (Some d) w m = Ok (tt, m'))
  /\ (forall c w, active_constraint_ m = Some c -> active_demon_ m = None ->
                  exists m', EndInitialPropagation (Some c) w m = Ok (tt, m')).
Proof.
  intros Hcs Hrun.
  assert (Hm : consistent m)
    by (eapply run_consistent; [apply consistent_new | exact Hrun]).
  assert (Hl : latched_records m).
  { apply (run_latched cs (new_DemonMonitor wall) m); try assumption.
    split; simpl; discriminate. }
  destruct Hl as [Hc Hd]. split.
  - intros d w Had. destruct (Hd d Had) as [p Hp].
    destruct (demon_record m Hm d p Hp) as (q & r & -> & Hq & _).
    eexists. apply (EndDemonRun_returns m d q r w Had Hp Hq).
  - intros c w Hac Had. destruct (Hc c Hac) as [p Hp].
    destruct (constraint_record m Hm c p Hp) as (a & ct & -> & Ha).
    eexists. apply (EndInitialPropagation_returns m c a ct w Hac Had Hp Ha).
Qed.

End Phases.

Lemma sumZ_concat (ls : list (list Z)) : sumZ (concat ls) = sumZ (map sumZ ls).
Proof.
  induction ls as [|l ls IH]; simpl; [reflexivity |].
  rewrite sumZ_app, IH. reflexivity.
Qed.

Lemma ExportInformation_demon_fields (m : DemonMonitor) (q : addr)
    (r : DemonRuns.t) (d : DemonExport.t) :
  demon_runs m !! q = Some r ->
  length (DemonRuns.start_time r) = length (DemonRuns.end_time r) ->
  ExportInformation_demon (Some q) m = Ok (d, m) ->
  DemonExport.fails d = DemonRuns.failures r
  /\ DemonExport.demon_invocations d = invocations r
  /\ DemonExport.total_demon_runtime d = wrap64 (sumZ (demon_times r)).
Proof.
  intros Hr Hlen H.
  destruct (ExportInformation_demon_returns m q r Hr Hlen)
    as (mean & median & stddev & H').
  rewrite H' in H. injection H as <-. simpl.
  rewrite foldl_add64_zero. auto.
Qed.

(** X26.  The summary of a constraint agrees with the summaries of its
    demons: when [ExportInformation] returns for the constraint and for
    each record its record lists, its failures are the constraint's own
    plus the demons', and its invocations and total runtime are the sums
    of the demons' (the sums being in the range of [int64]). *)
Theorem ExportInformation_levels_agree (m m' : DemonMonitor) (c : Constraint)
    (a : addr) (ct : ConstraintRuns.t) (info : ConstraintExport.t)
    (ds : list DemonExport.t) :
  constraint_map_ m !! c = Some (Some a) ->
  constraint_runs m !! a = Some ct ->
  ExportInformation (Some c) m = Ok (info, m') ->
  Forall2 (fun q d => ExportInformation_demon (Some q) m = Ok (d, m))
          (ConstraintRuns.demons ct) ds ->
  in_int64 (ConstraintRuns.failures ct) ->
  in_int64 (ConstraintRuns.failures ct + sumZ (map DemonExport.fails ds)) ->
  in_int64 (sumZ (map DemonExport.demon_invocations ds)) ->
  in_int64 (sumZ (map DemonExport.total_demon_runtime ds)) ->
  ConstraintExport.fails info
  = ConstraintRuns.failures ct + sumZ (map DemonExport.fails ds)
  /\ ConstraintExport.demon_invocations info
     = sumZ (map DemonExport.demon_invocations ds)
  /\ ConstraintExport.total_demon_runtime info
     = sumZ (map DemonExport.total_demon_runtime ds)
  /\ ConstraintExport.demons info = length ds.
Proof.
  intros Hc Ha H Hds Hf Hfs Hinv Htot.
  assert (Hex : exportable m c) by (apply exportable_iff; eauto).
  destruct Hex as (a' & ct' & Hc' & Ha' & Hlen & Hfin).
  rewrite Hc in Hc'. injection Hc' as <-. rewrite Ha in Ha'. injection Ha' as <-.
  destruct (finished_live m _ Hfin) as (rs & Hrs & Hbal).
  assert (Hfields : Forall2 (fun r d =>
              DemonExport.fails d = DemonRuns.failures r
              /\ DemonExport.demon_invocations d = invocations r
              /\ DemonExport.total_demon_runtime d = wrap64 (sumZ (demon_times r)))
            rs ds).
  { clear H Hlen Hfin Hf Hfs Hinv Htot Ha.
    revert ds Hds Hbal. induction Hrs as [|q r qs rs Hq _ IH]; intros ds Hds Hbal.
    - inversion Hds. constructor.
    - inversion Hds as [|? d ? ds' Hd Hds']; subst.
      inversion Hbal as [|? ? Hr Hbal']; subst.
      constructor; [exact (ExportInformation_demon_fields m q r d Hq Hr Hd) |].
      apply IH; assumption. }
  assert (Hmaps : map DemonExport.fails ds = map DemonRuns.failures rs
                  /\ map DemonExport.demon_invocations ds = map invocations rs
                  /\ map DemonExport.total_demon_runtime ds
                     = map (fun r => wrap64 (sumZ (demon_times r))) rs).
  { clear -Hfields. induction Hfields as [|r d rs ds (H1 & H2 & H3) _ (I1 & I2 & I3)];
      simpl; [auto |]. rewrite H1, H2, H3, I1, I2, I3. auto. }
  destruct Hmaps as (M1 & M2 & M3).
  assert (Hloop : forall m0, demon_runs m0 = demon_runs m ->
            for_each (ConstraintRuns.demons ct) gather_information
              (ConstraintRuns.failures ct, 0, 0) m0
            = Ok ((ConstraintRuns.failures ct + sumZ (map DemonExport.fails ds),
                   sumZ (map DemonExport.demon_invocations ds),
                   sumZ (map DemonExport.total_demon_runtime ds)), m0)).
  { intros m0 Hm0. rewrite (gather_information_loop m0 _ rs);
      [| rewrite Hm0; exact Hrs | exact Hbal].
    rewrite <- M1, <- M2.
    rewrite (foldl_add64_exact _ _ Hf Hfs).
    rewrite !foldl_add64_zero, (wrap64_exact _ Hinv).
    rewrite sumZ_concat, map_map.
    rewrite <- (wrap64_exact _ Htot), M3.
    rewrite <- (map_map (fun r => sumZ (demon_times r)) wrap64).
    rewrite wrap64_sumZ_wrap. reflexivity. }
  assert (Hcount : length ds = length (ConstraintRuns.demons ct))
    by (symmetry; exact (Forall2_length _ _ _ Hds)).
  unfold ExportInformation, ConstraintRuns.demons_size in H. unfold_op.
  rewrite Hc in H. simpl in H. rewrite Ha in H. simpl in H.
  destruct (demons_per_constraint_ m !! c) as [v|] eqn:Hv; simpl in H;
    case_bool_decide; simpl in H; try discriminate;
    rewrite Hloop in H by reflexivity; injection H as <- _; simpl;
    rewrite Hcount; auto.
Qed.

Lemma phases_can_end_witness :
  run (host := plain_host)
    [CallStartInitialPropagation (Some 1%positive) 100;
     CallRegisterDemon (Some 2%positive);
     CallStartDemonRun (Some 2%positive) 105] (new_DemonMonitor 0)
  = Ok (tt, both_open)
  /\ (forall d w, active_demon_ both_open = Some d ->
                  exists m', EndDemonRun (Some d) w both_open = Ok (tt, m'))
  /\ (forall c w, active_constraint_ both_open = Some c ->
                  active_demon_ both_open = None ->
                  exists m', EndInitialPropagation (Some c) w both_open = Ok (tt, m')).
Proof.
  assert (Hrun : run (host := plain_host)
                   [CallStartInitialPropagation (Some 1%positive) 100;
                    CallRegisterDemon (Some 2%positive);
                    CallStartDemonRun (Some 2%positive) 105] (new_DemonMonitor 0)
                 = Ok (tt, both_open)) by (vm_compute; reflexivity).
  split; [exact Hrun |].
  apply (phases_can_end (host := plain_host) 0
           [CallStartInitialPropagation (Some 1%positive) 100;
            CallRegisterDemon (Some 2%positive);
            CallStartDemonRun (Some 2%positive) 105] both_open); [| exact Hrun].
  repeat constructor; discriminate.
Defined.

Lemma ExportInformation_levels_agree_witness :
  exists info m' d,
    ExportInformation (Some 1%positive) session_done = Ok (info, m')
    /\ ExportInformation_demon (Some 1%positive) session_done = Ok (d, session_done)
    /\ ConstraintExport.fails info = 0 + sumZ (map DemonExport.fails [d])
    /\ ConstraintExport.demon_invocations info
       = sumZ (map DemonExport.demon_invocations [d])
    /\ ConstraintExport.total_demon_runtime info
       = sumZ (map DemonExport.total_demon_runtime [d])
    /\ ConstraintExport.demons info = length [d].
Proof.
  eexists _, _, _.
  split; [vm_compute; reflexivity |]. split; [vm_compute; reflexivity |].
  eapply (ExportInformation_levels_agree session_done _ 1%positive 1%positive
            (ConstraintRuns.mk "constraint" 100 110 0 [1%positive]));
    try reflexivity;
    try (repeat constructor; vm_compute; reflexivity);
    unfold in_int64; vm_compute; split; (discriminate || reflexivity).
Defined.
